(** * libpff item tree: construction and navigation

    A shallow embedding of [libpff/libpff_item_tree.c]: the search routines
    [libpff_item_tree_get_tree_node_by_identifier],
    [libpff_item_tree_get_sub_node_by_identifier],
    [libpff_item_tree_get_node_by_identifier], the appending routine
    [libpff_item_tree_append_identifier] and the builder
    [libpff_item_tree_create], [libpff_item_tree_create_node],
    [libpff_item_tree_create_leaf_node].

    Conventions of the embedding.
    - A C function returning 1 / -1 returns a [result]; one returning
      1 / 0 / -1 returns a [tri].  The value carried by the success case is
      what the function stores through its output parameter.
    - A [libcerror_error_t] value is the domain and code given to the first
      [libcerror_error_set] of a failing call chain: later calls only append
      a message to the error that is already set.
    - The generic tree of libcdata is a rose tree.  A pointer to a node of
      the item tree is the path of child indexes that leads to it from the
      node the search started at.
    - Memory allocation is assumed to succeed. *)

From Stdlib Require Import ZArith Bool Lia Sorted.
From stdpp Require Import base list.

Local Open Scope Z_scope.

(** ** Errors and return conventions *)

Inductive libcerror_error_t : Type :=
| LIBCERROR_ARGUMENT_ERROR_INVALID_VALUE
| LIBCERROR_ARGUMENT_ERROR_VALUE_OUT_OF_BOUNDS
| LIBCERROR_RUNTIME_ERROR_VALUE_ALREADY_SET
| LIBCERROR_RUNTIME_ERROR_VALUE_MISSING
| LIBCERROR_RUNTIME_ERROR_VALUE_EXCEEDS_MAXIMUM
| LIBCERROR_RUNTIME_ERROR_GET_FAILED
| LIBCERROR_RUNTIME_ERROR_APPEND_FAILED
| LIBCERROR_RUNTIME_ERROR_UNSUPPORTED_VALUE
| LIBCERROR_IO_ERROR (code : Z).

(** Return convention "1 if successful or -1 on error". *)
Inductive result (A : Type) : Type :=
| Ok (a : A)
| Err (e : libcerror_error_t).
Arguments Ok {A} a.
Arguments Err {A} e.

(** Return convention "1 if successful, 0 if not found or -1 on error". *)
Inductive tri (A : Type) : Type :=
| Ret1 (a : A)
| Ret0
| RetErr (e : libcerror_error_t).
Arguments Ret1 {A} a.
Arguments Ret0 {A}.
Arguments RetErr {A} e.

(** ** Constants *)

(** Modelled from the spec: [LIBPFF_MAXIMUM_ITEM_TREE_RECURSION_DEPTH] is
    defined in [libpff_definitions.h], which is not among the sources; the
    specification fixes the recursion bound at 256. *)
Definition LIBPFF_MAXIMUM_ITEM_TREE_RECURSION_DEPTH : Z := 256.

Definition UINT32_MAX : Z := 4294967295.

(** The cast [(uint32_t) x] of an unsigned 64-bit value. *)
Definition uint32_cast (x : Z) : Z := x mod 2 ^ 32.

(** ** Item descriptors *)

(** Modelled from the spec: [libpff_item_descriptor_t] is declared in
    [libpff_item_descriptor.h], which is not among the sources; the
    specification gives its four fields. *)
Record libpff_item_descriptor_t : Type := {
  descriptor_identifier : Z;
  data_identifier : Z;
  local_descriptors_identifier : Z;
  recovered : Z
}.

(** Modelled from the spec: [libpff_item_descriptor_initialize] lives in
    [libpff_item_descriptor.c]; it stores its four arguments. *)
Definition libpff_item_descriptor_initialize
    (descriptor_identifier data_identifier local_descriptors_identifier
       recovered : Z) : libpff_item_descriptor_t :=
  Build_libpff_item_descriptor_t descriptor_identifier data_identifier
    local_descriptors_identifier recovered.

(** Modelled from the spec: [libpff_item_descriptor_compare] lives in
    [libpff_item_descriptor.c]; it orders two descriptors by the sign of the
    difference of their descriptor identifiers and fails on a NULL
    descriptor.  [Lt], [Eq], [Gt] stand for [LIBCDATA_COMPARE_LESS],
    [LIBCDATA_COMPARE_EQUAL], [LIBCDATA_COMPARE_GREATER]; [None] for -1. *)
Definition libpff_item_descriptor_compare
    (first second : option libpff_item_descriptor_t) : option comparison :=
  match first, second with
  | Some a, Some b =>
      Some (Z.compare (descriptor_identifier a) (descriptor_identifier b))
  | _, _ => None
  end.

(** ** The libcdata tree *)

(** Modelled from the spec: libcdata, the generic tree utility, is not
    among the sources.  A [libcdata_tree_node_t] has a value pointer, NULL
    until [libcdata_tree_node_set_value], and an ordered sequence of sub
    nodes. *)
Unset Elimination Schemes.
Inductive libcdata_tree_node_t : Type :=
| TreeNode (value : option libpff_item_descriptor_t)
           (sub_nodes : list libcdata_tree_node_t).
Set Elimination Schemes.

Definition libcdata_tree_node_get_value (node : libcdata_tree_node_t)
    : option libpff_item_descriptor_t :=
  match node with TreeNode value _ => value end.

Definition tree_node_sub_nodes (node : libcdata_tree_node_t)
    : list libcdata_tree_node_t :=
  match node with TreeNode _ sub_nodes => sub_nodes end.

Definition libcdata_tree_node_get_number_of_sub_nodes
    (node : libcdata_tree_node_t) : Z :=
  Z.of_nat (length (tree_node_sub_nodes node)).

Definition libcdata_tree_node_initialize : libcdata_tree_node_t :=
  TreeNode None [].

Definition libcdata_tree_node_set_value (node : libcdata_tree_node_t)
    (value : libpff_item_descriptor_t) : libcdata_tree_node_t :=
  match node with TreeNode _ sub_nodes => TreeNode (Some value) sub_nodes end.

(** Pointers into a tree. *)
Definition tree_node_ptr : Type := list nat.

Fixpoint tree_node_at (p : tree_node_ptr) (t : libcdata_tree_node_t)
    : option libcdata_tree_node_t :=
  match p with
  | [] => Some t
  | i :: p' =>
      match tree_node_sub_nodes t !! i with
      | Some s => tree_node_at p' s
      | None => None
      end
  end.

(** The tree [t] after the node that [p] points to has been overwritten by
    [n]. *)
Fixpoint tree_node_store (p : tree_node_ptr) (n t : libcdata_tree_node_t)
    : libcdata_tree_node_t :=
  match p with
  | [] => n
  | i :: p' =>
      match t with
      | TreeNode value sub_nodes =>
          match sub_nodes !! i with
          | Some s => TreeNode value (<[i := tree_node_store p' n s]> sub_nodes)
          | None => t
          end
      end
  end.

(** Modelled from the spec: the sorted-unique insertion rule of
    [libcdata_tree_node_insert_node] called with
    [LIBCDATA_INSERT_FLAG_UNIQUE_ENTRIES] (libcdata is not among the
    sources).  The sub nodes are scanned from the first one: an equal value
    makes the call return 0, a greater sub node value stops the scan and the
    node goes in front of that sub node, otherwise the node goes to the end.
    [Ret1] carries the sub nodes after the insertion. *)
Fixpoint insert_sub_node (node_to_insert : libcdata_tree_node_t)
    (sub_nodes : list libcdata_tree_node_t)
    : tri (list libcdata_tree_node_t) :=
  match sub_nodes with
  | [] => Ret1 [node_to_insert]
  | sub_node :: rest =>
      match libpff_item_descriptor_compare
              (libcdata_tree_node_get_value node_to_insert)
              (libcdata_tree_node_get_value sub_node) with
      | None => RetErr LIBCERROR_RUNTIME_ERROR_GET_FAILED
      | Some Eq => Ret0
      | Some Lt => Ret1 (node_to_insert :: sub_nodes)
      | Some Gt =>
          match insert_sub_node node_to_insert rest with
          | Ret1 rest' => Ret1 (sub_node :: rest')
          | Ret0 => Ret0
          | RetErr e => RetErr e
          end
      end
  end.

(** [Ret1] carries the parent node after the insertion. *)
Definition libcdata_tree_node_insert_node
    (parent_node : option libcdata_tree_node_t)
    (node_to_insert : libcdata_tree_node_t) : tri libcdata_tree_node_t :=
  match parent_node with
  | None => RetErr LIBCERROR_ARGUMENT_ERROR_INVALID_VALUE
  | Some (TreeNode value sub_nodes) =>
      match insert_sub_node node_to_insert sub_nodes with
      | Ret1 sub_nodes' => Ret1 (TreeNode value sub_nodes')
      | Ret0 => Ret0
      | RetErr e => RetErr e
      end
  end.

(** [libcdata_tree_node_insert_value]: wraps the value in a fresh node and
    inserts that node; the fresh node is released when it is not inserted. *)
Definition libcdata_tree_node_insert_value
    (parent_node : option libcdata_tree_node_t)
    (value : libpff_item_descriptor_t) : tri libcdata_tree_node_t :=
  libcdata_tree_node_insert_node parent_node
    (libcdata_tree_node_set_value libcdata_tree_node_initialize value).

(** [libcdata_tree_node_append_value]: the value becomes the last sub node,
    without any comparison. *)
Definition libcdata_tree_node_append_value
    (node : libcdata_tree_node_t) (value : libpff_item_descriptor_t)
    : libcdata_tree_node_t :=
  match node with
  | TreeNode v sub_nodes =>
      TreeNode v
        (sub_nodes ++
           [libcdata_tree_node_set_value libcdata_tree_node_initialize value])
  end.

(** ** The item tree *)

Record libpff_item_tree_t : Type := {
  root_node : option libcdata_tree_node_t
}.

(** [libpff_item_tree_initialize]: the structure is zeroed. *)
Definition libpff_item_tree_initialize : libpff_item_tree_t :=
  {| root_node := None |}.

Definition recursion_depth_out_of_bounds (recursion_depth : Z) : bool :=
  (recursion_depth <? 0)
  || (recursion_depth >? LIBPFF_MAXIMUM_ITEM_TREE_RECURSION_DEPTH).

(** ** Navigation *)

Section sub_node_traversal.
Variable traverse : libcdata_tree_node_t -> tri tree_node_ptr.

(** The loop over the sub nodes of
    [libpff_item_tree_get_tree_node_by_identifier]: the first sub node
    whose traversal does not return 0 ends the loop. *)
Fixpoint traverse_sub_nodes (sub_node_index : nat)
    (sub_nodes : list libcdata_tree_node_t) : tri tree_node_ptr :=
  match sub_nodes with
  | [] => Ret0
  | sub_tree_node :: rest =>
      match traverse sub_tree_node with
      | RetErr e => RetErr e
      | Ret1 p => Ret1 (sub_node_index :: p)
      | Ret0 => traverse_sub_nodes (S sub_node_index) rest
      end
  end.
End sub_node_traversal.

(** [libpff_item_tree_get_tree_node_by_identifier] on a non-NULL node.
    [result_item_tree_node] is [None] for a NULL output pointer,
    [Some None] for an output that holds NULL and [Some (Some _)] for an
    output that is already set. *)
Fixpoint get_tree_node_by_identifier (item_tree_node : libcdata_tree_node_t)
    (item_identifier : Z)
    (result_item_tree_node : option (option tree_node_ptr))
    (recursion_depth : Z) : tri tree_node_ptr :=
  match item_tree_node with
  | TreeNode value sub_nodes =>
      if recursion_depth_out_of_bounds recursion_depth
      then RetErr LIBCERROR_ARGUMENT_ERROR_VALUE_OUT_OF_BOUNDS
      else
        match value with
        | None => RetErr LIBCERROR_RUNTIME_ERROR_VALUE_MISSING
        | Some item_descriptor =>
            if descriptor_identifier item_descriptor =? item_identifier
            then
              match result_item_tree_node with
              | None => RetErr LIBCERROR_ARGUMENT_ERROR_INVALID_VALUE
              | Some (Some _) =>
                  RetErr LIBCERROR_RUNTIME_ERROR_VALUE_ALREADY_SET
              | Some None => Ret1 []
              end
            else
              traverse_sub_nodes
                (fun sub_tree_node =>
                   get_tree_node_by_identifier sub_tree_node item_identifier
                     result_item_tree_node (recursion_depth + 1))
                0%nat sub_nodes
        end
  end.

Definition libpff_item_tree_get_tree_node_by_identifier
    (item_tree_node : option libcdata_tree_node_t) (item_identifier : Z)
    (result_item_tree_node : option (option tree_node_ptr))
    (recursion_depth : Z) : tri tree_node_ptr :=
  match item_tree_node with
  | None => RetErr LIBCERROR_ARGUMENT_ERROR_INVALID_VALUE
  | Some node =>
      get_tree_node_by_identifier node item_identifier result_item_tree_node
        recursion_depth
  end.

(** The scan of [libpff_item_tree_get_sub_node_by_identifier]. *)
Fixpoint scan_sub_nodes (sub_node_identifier : Z) (sub_node_index : nat)
    (sub_nodes : list libcdata_tree_node_t) : tri tree_node_ptr :=
  match sub_nodes with
  | [] => Ret0
  | sub_tree_node :: rest =>
      match libcdata_tree_node_get_value sub_tree_node with
      | None => RetErr LIBCERROR_RUNTIME_ERROR_VALUE_MISSING
      | Some item_descriptor =>
          if descriptor_identifier item_descriptor =? sub_node_identifier
          then Ret1 [sub_node_index]
          else scan_sub_nodes sub_node_identifier (S sub_node_index) rest
      end
  end.

Definition libpff_item_tree_get_sub_node_by_identifier
    (item_tree_node : option libcdata_tree_node_t) (sub_node_identifier : Z)
    (sub_node : option (option tree_node_ptr)) : tri tree_node_ptr :=
  match item_tree_node with
  | None => RetErr LIBCERROR_ARGUMENT_ERROR_INVALID_VALUE
  | Some node =>
      match sub_node with
      | None => RetErr LIBCERROR_ARGUMENT_ERROR_INVALID_VALUE
      | Some (Some _) => RetErr LIBCERROR_RUNTIME_ERROR_VALUE_ALREADY_SET
      | Some None =>
          match libcdata_tree_node_get_value node with
          | None => RetErr LIBCERROR_RUNTIME_ERROR_VALUE_MISSING
          | Some _ =>
              scan_sub_nodes sub_node_identifier 0%nat
                (tree_node_sub_nodes node)
          end
      end
  end.

Definition libpff_item_tree_get_node_by_identifier
    (item_tree : option libpff_item_tree_t) (item_identifier : Z)
    (item_tree_node : option (option tree_node_ptr)) : tri tree_node_ptr :=
  match item_tree with
  | None => RetErr LIBCERROR_ARGUMENT_ERROR_INVALID_VALUE
  | Some tree =>
      libpff_item_tree_get_tree_node_by_identifier (root_node tree)
        item_identifier item_tree_node 0
  end.

Definition libpff_item_tree_append_identifier
    (item_tree_node : option libcdata_tree_node_t)
    (descriptor_identifier data_identifier local_descriptors_identifier
       recovered : Z) : result libcdata_tree_node_t :=
  match item_tree_node with
  | None => Err LIBCERROR_ARGUMENT_ERROR_INVALID_VALUE
  | Some node =>
      Ok (libcdata_tree_node_append_value node
            (libpff_item_descriptor_initialize descriptor_identifier
               data_identifier local_descriptors_identifier recovered))
  end.

(** ** The descriptors index *)

Module index_value.
(** Modelled from the spec: [libpff_index_value_t] is declared in
    [libpff_index_value.h], which is not among the sources; the
    specification gives the four fields that the builder reads. *)
Record t : Type := {
  identifier : Z;
  parent_identifier : Z;
  data_identifier : Z;
  local_descriptors_identifier : Z
}.
End index_value.

(** The operations of the descriptor index tree that the builder calls, on
    index tree nodes of type [N].  libfdata and [libpff_index_tree.c] are
    not among the sources: the builder is verified against every
    implementation of this interface. *)
Record libpff_descriptors_index_t (N : Type) : Type := {
  libpff_index_tree_get_root_node : result N;
  libfdata_tree_node_get_number_of_sub_nodes : N -> result Z;
  libfdata_tree_node_is_deleted : N -> result bool;
  libfdata_tree_node_is_leaf : N -> result bool;
  libfdata_tree_node_get_sub_node_by_index : N -> Z -> result N;
  libfdata_tree_node_get_node_value : N -> result (option index_value.t);
  libpff_index_tree_get_leaf_node_by_identifier : Z -> tri (option N)
}.
Arguments libpff_index_tree_get_root_node {N}.
Arguments libfdata_tree_node_get_number_of_sub_nodes {N}.
Arguments libfdata_tree_node_is_deleted {N}.
Arguments libfdata_tree_node_is_leaf {N}.
Arguments libfdata_tree_node_get_sub_node_by_index {N}.
Arguments libfdata_tree_node_get_node_value {N}.
Arguments libpff_index_tree_get_leaf_node_by_identifier {N}.

(** ** The builder *)

(** What the builder reads and writes through its pointer arguments.
    [item_tree] is [None] for a NULL item tree;
    [root_folder_item_tree_node] is [None] for a NULL pointer, [Some None]
    while the root folder node is not set.  The reference to the root
    folder node is the descriptor of that node: it designates one sub node
    of the item tree root, whose sub nodes have distinct identifiers. *)
Record create_state : Type := {
  item_tree : option libpff_item_tree_t;
  orphan_node_list : list libcdata_tree_node_t;
  root_folder_item_tree_node : option (option libpff_item_descriptor_t)
}.

(** [item_tree->root_node]. *)
Definition item_tree_root_node (st : create_state)
    : option libcdata_tree_node_t :=
  match item_tree st with
  | Some tree => root_node tree
  | None => None
  end.

Definition set_root_node (st : create_state)
    (root : libcdata_tree_node_t) : create_state :=
  {| item_tree := Some {| root_node := Some root |};
     orphan_node_list := orphan_node_list st;
     root_folder_item_tree_node := root_folder_item_tree_node st |}.

(** The root folder branch of [libpff_item_tree_create_leaf_node]
    (lines 1105 to 1172). *)
Definition create_root_folder_node (st : create_state)
    (item_descriptor : libpff_item_descriptor_t) : result create_state :=
  match root_folder_item_tree_node st with
  | None => Err LIBCERROR_ARGUMENT_ERROR_INVALID_VALUE
  | Some (Some _) => Err LIBCERROR_RUNTIME_ERROR_VALUE_ALREADY_SET
  | Some None =>
      let node :=
        libcdata_tree_node_set_value libcdata_tree_node_initialize
          item_descriptor in
      match libcdata_tree_node_insert_node (item_tree_root_node st) node with
      | Ret1 root =>
          Ok {| item_tree := Some {| root_node := Some root |};
                orphan_node_list := orphan_node_list st;
                root_folder_item_tree_node := Some (Some item_descriptor) |}
      | Ret0 =>
          (* the node is freed, which resets the root folder node *)
          Ok st
      | RetErr _ => Err LIBCERROR_RUNTIME_ERROR_APPEND_FAILED
      end
  end.

(** [libcdata_tree_node_insert_value] on the node that [parent_node] points
    to in the item tree. *)
Definition insert_value_at (root : option libcdata_tree_node_t)
    (parent_node : tree_node_ptr) (value : libpff_item_descriptor_t)
    : tri libcdata_tree_node_t :=
  match root with
  | None => RetErr LIBCERROR_ARGUMENT_ERROR_INVALID_VALUE
  | Some t =>
      match libcdata_tree_node_insert_value (tree_node_at parent_node t)
              value with
      | Ret1 parent' => Ret1 (tree_node_store parent_node parent' t)
      | Ret0 => Ret0
      | RetErr e => RetErr e
      end
  end.

(** The end of the other branch of [libpff_item_tree_create_leaf_node]
    (lines 1247 to 1354): [parent_search] is the outcome of the search
    for the parent node. *)
Definition attach_item_descriptor (st : create_state)
    (item_descriptor : libpff_item_descriptor_t)
    (parent_search : tri tree_node_ptr) : result create_state :=
  match parent_search with
  | RetErr e => Err e
  | Ret0 =>
      let item_tree_node :=
        libcdata_tree_node_set_value libcdata_tree_node_initialize
          item_descriptor in
      Ok {| item_tree := item_tree st;
            orphan_node_list := orphan_node_list st ++ [item_tree_node];
            root_folder_item_tree_node := root_folder_item_tree_node st |}
  | Ret1 parent_node =>
      match insert_value_at (item_tree_root_node st) parent_node
              item_descriptor with
      | Ret1 root => Ok (set_root_node st root)
      | Ret0 =>
          (* the item descriptor is freed *)
          Ok st
      | RetErr e => Err e
      end
  end.

Section builder.
Context {N : Type} (descriptors_index : libpff_descriptors_index_t N).

Section sub_node_loop.
Variable create_node : create_state -> N -> option (result create_state).

(** The loop over the sub nodes of [libpff_item_tree_create_node]:
    [remaining] iterations are left. *)
Fixpoint create_sub_nodes (descriptor_index_tree_node : N)
    (remaining : nat) (sub_node_index : Z) (st : create_state)
    : option (result create_state) :=
  match remaining with
  | O => Some (Ok st)
  | S remaining' =>
      match libfdata_tree_node_get_sub_node_by_index descriptors_index
              descriptor_index_tree_node sub_node_index with
      | Err e => Some (Err e)
      | Ok descriptor_index_tree_sub_node =>
          match create_node st descriptor_index_tree_sub_node with
          | Some (Ok st') =>
              create_sub_nodes descriptor_index_tree_node remaining'
                (sub_node_index + 1) st'
          | failure => failure
          end
      end
  end.
End sub_node_loop.

(** [libpff_item_tree_create_node] and [libpff_item_tree_create_leaf_node].
    The recursion is on [fuel]; [None] means that the fuel ran out. *)
Fixpoint libpff_item_tree_create_node (fuel : nat) (st : create_state)
    (descriptor_index_tree_node : N) (recursion_depth : Z) {struct fuel}
    : option (result create_state) :=
  match fuel with
  | O => None
  | S fuel' =>
      match item_tree st, root_folder_item_tree_node st with
      | None, _ | _, None =>
          Some (Err LIBCERROR_ARGUMENT_ERROR_INVALID_VALUE)
      | Some _, Some _ =>
          if recursion_depth_out_of_bounds recursion_depth
          then Some (Err LIBCERROR_ARGUMENT_ERROR_VALUE_OUT_OF_BOUNDS)
          else
            match libfdata_tree_node_get_number_of_sub_nodes
                    descriptors_index descriptor_index_tree_node with
            | Err _ =>
                (* the error is freed *)
                Some (Ok st)
            | Ok number_of_sub_nodes =>
                match libfdata_tree_node_is_deleted descriptors_index
                        descriptor_index_tree_node with
                | Err e => Some (Err e)
                | Ok true => Some (Ok st)
                | Ok false =>
                    match libfdata_tree_node_is_leaf descriptors_index
                            descriptor_index_tree_node with
                    | Err e => Some (Err e)
                    | Ok true =>
                        libpff_item_tree_create_leaf_node fuel' st
                          descriptor_index_tree_node recursion_depth
                    | Ok false =>
                        create_sub_nodes
                          (fun st' descriptor_index_tree_sub_node =>
                             libpff_item_tree_create_node fuel' st'
                               descriptor_index_tree_sub_node
                               (recursion_depth + 1))
                          descriptor_index_tree_node
                          (Z.to_nat number_of_sub_nodes) 0 st
                    end
                end
            end
      end
  end
with libpff_item_tree_create_leaf_node (fuel : nat) (st : create_state)
    (descriptor_index_tree_node : N) (recursion_depth : Z) {struct fuel}
    : option (result create_state) :=
  match fuel with
  | O => None
  | S fuel' =>
      match item_tree st, root_folder_item_tree_node st with
      | None, _ | _, None =>
          Some (Err LIBCERROR_ARGUMENT_ERROR_INVALID_VALUE)
      | Some _, Some _ =>
          if recursion_depth_out_of_bounds recursion_depth
          then Some (Err LIBCERROR_ARGUMENT_ERROR_VALUE_OUT_OF_BOUNDS)
          else
            match libfdata_tree_node_get_node_value descriptors_index
                    descriptor_index_tree_node with
            | Err e => Some (Err e)
            | Ok None => Some (Err LIBCERROR_RUNTIME_ERROR_VALUE_MISSING)
            | Ok (Some descriptor_index_value) =>
                if index_value.identifier descriptor_index_value
                   >? UINT32_MAX
                then Some (Err LIBCERROR_RUNTIME_ERROR_VALUE_EXCEEDS_MAXIMUM)
                else
                  let item_descriptor :=
                    libpff_item_descriptor_initialize
                      (uint32_cast
                         (index_value.identifier descriptor_index_value))
                      (index_value.data_identifier descriptor_index_value)
                      (index_value.local_descriptors_identifier
                         descriptor_index_value)
                      0 in
                  let identifier :=
                    uint32_cast
                      (index_value.identifier descriptor_index_value) in
                  let parent_identifier :=
                    index_value.parent_identifier descriptor_index_value in
                  if identifier =? parent_identifier
                  then Some (create_root_folder_node st item_descriptor)
                  else
                    match libpff_item_tree_get_tree_node_by_identifier
                            (item_tree_root_node st) parent_identifier
                            (Some None) 0 with
                    | Ret0 =>
                        (* reading ahead *)
                        match libpff_index_tree_get_leaf_node_by_identifier
                                descriptors_index parent_identifier with
                        | Ret1 None =>
                            Some (Err LIBCERROR_RUNTIME_ERROR_VALUE_MISSING)
                        | Ret1 (Some descriptor_index_tree_parent_node) =>
                            match libpff_item_tree_create_node fuel' st
                                    descriptor_index_tree_parent_node
                                    (recursion_depth + 1) with
                            | Some (Ok st') =>
                                Some
                                  (attach_item_descriptor st'
                                     item_descriptor
                                     (libpff_item_tree_get_tree_node_by_identifier
                                        (item_tree_root_node st')
                                        parent_identifier (Some None) 0))
                            | failure => failure
                            end
                        | Ret0 =>
                            Some
                              (attach_item_descriptor st item_descriptor
                                 Ret0)
                        | RetErr e =>
                            Some
                              (attach_item_descriptor st item_descriptor
                                 (RetErr e))
                        end
                    | parent_search =>
                        Some
                          (attach_item_descriptor st item_descriptor
                             parent_search)
                    end
            end
      end
  end.

(** Fuel for a build that starts at recursion depth 0: either function
    spends one unit per call and the depth grows by one every second
    call at most. *)
Definition item_tree_fuel : nat :=
  Z.to_nat (2 * (LIBPFF_MAXIMUM_ITEM_TREE_RECURSION_DEPTH + 2)).

(** [libpff_item_tree_create]. *)
Definition libpff_item_tree_create (item_tree : option libpff_item_tree_t)
    (orphan_node_list : list libcdata_tree_node_t)
    (root_folder_item_tree_node : option (option libpff_item_descriptor_t))
    : option (result create_state) :=
  match item_tree with
  | None => Some (Err LIBCERROR_ARGUMENT_ERROR_INVALID_VALUE)
  | Some tree =>
      match root_node tree with
      | Some _ => Some (Err LIBCERROR_RUNTIME_ERROR_VALUE_ALREADY_SET)
      | None =>
          match libpff_index_tree_get_root_node descriptors_index with
          | Err e => Some (Err e)
          | Ok descriptor_index_tree_root_node =>
              let item_descriptor :=
                libpff_item_descriptor_initialize 0 0 0 0 in
              let root :=
                libcdata_tree_node_set_value libcdata_tree_node_initialize
                  item_descriptor in
              libpff_item_tree_create_node item_tree_fuel
                {| item_tree := Some {| root_node := Some root |};
                   orphan_node_list := orphan_node_list;
                   root_folder_item_tree_node :=
                     root_folder_item_tree_node |}
                descriptor_index_tree_root_node 0
          end
      end
  end.
End builder.

(** ** A concrete descriptors index

    An index tree given by the answers of its nodes.  It serves to evaluate
    the builder on explicit inputs. *)

Unset Elimination Schemes.
Inductive index_node : Type :=
| IndexNode (number_of_sub_nodes : result Z) (is_deleted : result bool)
            (is_leaf : result bool)
            (node_value : result (option index_value.t))
            (sub_nodes : list index_node).
Set Elimination Schemes.

Definition index_node_number_of_sub_nodes (n : index_node) : result Z :=
  match n with IndexNode r _ _ _ _ => r end.
Definition index_node_is_deleted (n : index_node) : result bool :=
  match n with IndexNode _ r _ _ _ => r end.
Definition index_node_is_leaf (n : index_node) : result bool :=
  match n with IndexNode _ _ r _ _ => r end.
Definition index_node_value (n : index_node)
    : result (option index_value.t) :=
  match n with IndexNode _ _ _ r _ => r end.
Definition index_node_sub_node_by_index (n : index_node) (i : Z)
    : result index_node :=
  match n with
  | IndexNode _ _ _ _ sub_nodes =>
      if i <? 0 then Err LIBCERROR_ARGUMENT_ERROR_VALUE_OUT_OF_BOUNDS
      else
        match sub_nodes !! Z.to_nat i with
        | Some s => Ok s
        | None => Err LIBCERROR_ARGUMENT_ERROR_VALUE_OUT_OF_BOUNDS
        end
  end.

(** The first leaf, in index order, that carries [identifier]. *)
Fixpoint index_node_lookup (identifier : Z) (n : index_node)
    : option index_node :=
  match n with
  | IndexNode _ _ is_leaf node_value sub_nodes =>
      match is_leaf, node_value with
      | Ok true, Ok (Some v) =>
          if index_value.identifier v =? identifier then Some n else None
      | _, _ =>
          (fix first (l : list index_node) : option index_node :=
             match l with
             | [] => None
             | s :: l' =>
                 match index_node_lookup identifier s with
                 | Some r => Some r
                 | None => first l'
                 end
             end) sub_nodes
      end
  end.

Definition index_of (root : index_node)
    : libpff_descriptors_index_t index_node :=
  {| libpff_index_tree_get_root_node := Ok root;
     libfdata_tree_node_get_number_of_sub_nodes :=
       index_node_number_of_sub_nodes;
     libfdata_tree_node_is_deleted := index_node_is_deleted;
     libfdata_tree_node_is_leaf := index_node_is_leaf;
     libfdata_tree_node_get_sub_node_by_index :=
       index_node_sub_node_by_index;
     libfdata_tree_node_get_node_value := index_node_value;
     libpff_index_tree_get_leaf_node_by_identifier :=
       fun identifier =>
         match index_node_lookup identifier root with
         | Some n => Ret1 (Some n)
         | None => Ret0
         end |}.

(** A readable leaf and a readable branch. *)
Definition index_leaf (identifier parent_identifier : Z) : index_node :=
  IndexNode (Ok 0) (Ok false) (Ok true)
    (Ok (Some {| index_value.identifier := identifier;
                 index_value.parent_identifier := parent_identifier;
                 index_value.data_identifier := 0;
                 index_value.local_descriptors_identifier := 0 |}))
    [].

Definition index_branch (sub_nodes : list index_node) : index_node :=
  IndexNode (Ok (Z.of_nat (length sub_nodes))) (Ok false) (Ok false)
    (Ok None) sub_nodes.

(** A build on a freshly initialised item tree, an empty orphan list and an
    unset root folder node. *)
Definition fresh_create {N : Type}
    (descriptors_index : libpff_descriptors_index_t N)
    : option (result create_state) :=
  libpff_item_tree_create descriptors_index (Some libpff_item_tree_initialize)
    [] (Some None).

(** * Vocabulary of the properties *)

(** ** Nodes and the pre-order search *)

(** [n] carries a descriptor whose identifier is [identifier]. *)
Definition has_identifier (identifier : Z) (n : libcdata_tree_node_t) : Prop :=
  exists d, libcdata_tree_node_get_value n = Some d
            /\ descriptor_identifier d = identifier.

(** [n] carries a descriptor whose identifier is not [identifier]. *)
Definition lacks_identifier (identifier : Z) (n : libcdata_tree_node_t)
    : Prop :=
  exists d, libcdata_tree_node_get_value n = Some d
            /\ descriptor_identifier d <> identifier.

(** Pre-order on the nodes of a tree, as an order on their paths: a node
    comes before the nodes below it, and the nodes below a sub node come
    before the nodes below the sub nodes that follow it. *)
Inductive preorder_lt : tree_node_ptr -> tree_node_ptr -> Prop :=
| preorder_lt_above i p : preorder_lt [] (i :: p)
| preorder_lt_left i j p q : (i < j)%nat -> preorder_lt (i :: p) (j :: q)
| preorder_lt_below i p q : preorder_lt p q -> preorder_lt (i :: p) (i :: q).

(** Specification of the depth-first pre-order search, in the words of the
    specification: [p] is the first node, in pre-order, whose descriptor
    identifier is [identifier]. *)
Definition first_in_preorder (identifier : Z) (t : libcdata_tree_node_t)
    (p : tree_node_ptr) : Prop :=
  (exists n, tree_node_at p t = Some n /\ has_identifier identifier n)
  /\ forall q m, preorder_lt q p -> tree_node_at q t = Some m ->
                 lacks_identifier identifier m.

(** The error that a NULL or already set output makes the search raise on
    a matching node. *)
Definition output_error (result_item_tree_node : option (option tree_node_ptr))
    : option libcerror_error_t :=
  match result_item_tree_node with
  | None => Some LIBCERROR_ARGUMENT_ERROR_INVALID_VALUE
  | Some (Some _) => Some LIBCERROR_RUNTIME_ERROR_VALUE_ALREADY_SET
  | Some None => None
  end.

(** Every node of [t] carries a descriptor and lies at most [bound] levels
    below [t]. *)
Definition searchable (bound : Z) (t : libcdata_tree_node_t) : Prop :=
  forall q m, tree_node_at q t = Some m ->
    is_Some (libcdata_tree_node_get_value m) /\ Z.of_nat (length q) <= bound.

(** The number of levels below [t]. *)
Fixpoint tree_height (t : libcdata_tree_node_t) : nat :=
  match t with
  | TreeNode _ sub_nodes =>
      (fix max_height (l : list libcdata_tree_node_t) : nat :=
         match l with
         | [] => 0%nat
         | s :: l' => Nat.max (S (tree_height s)) (max_height l')
         end) sub_nodes
  end.

(** ** Ascending sub nodes *)

(** [a] and [b] carry descriptors and the identifier of [a] is the
    smaller one. *)
Definition node_lt (a b : libcdata_tree_node_t) : Prop :=
  exists x y,
    libcdata_tree_node_get_value a = Some x
    /\ libcdata_tree_node_get_value b = Some y
    /\ descriptor_identifier x < descriptor_identifier y.

(** The sub nodes are in strictly ascending order of descriptor
    identifier. *)
Definition strictly_ascending (sub_nodes : list libcdata_tree_node_t) : Prop :=
  StronglySorted node_lt sub_nodes.

(** Every node carries a descriptor and has its sub nodes in strictly
    ascending order. *)
Unset Elimination Schemes.
Inductive tree_ok : libcdata_tree_node_t -> Prop :=
| tree_ok_node value sub_nodes :
    is_Some value -> strictly_ascending sub_nodes ->
    Forall tree_ok sub_nodes -> tree_ok (TreeNode value sub_nodes).
Set Elimination Schemes.

(** ** States of a build *)

(** The descriptor that [libpff_item_tree_create_leaf_node] creates for a
    descriptor index value. *)
Definition leaf_item_descriptor (v : index_value.t)
    : libpff_item_descriptor_t :=
  libpff_item_descriptor_initialize (uint32_cast (index_value.identifier v))
    (index_value.data_identifier v)
    (index_value.local_descriptors_identifier v) 0.

(** The fuel covers a call of [libpff_item_tree_create_node] at recursion
    depth [depth]: one unit when the depth is out of bounds, otherwise two
    units for every level up to the bound and three more. *)
Definition enough_fuel_node (fuel : nat) (depth : Z) : Prop :=
  (1 <= fuel)%nat
  /\ (0 <= depth <= LIBPFF_MAXIMUM_ITEM_TREE_RECURSION_DEPTH ->
      2 * (LIBPFF_MAXIMUM_ITEM_TREE_RECURSION_DEPTH - depth) + 3
      <= Z.of_nat fuel).

(** The same for a call of [libpff_item_tree_create_leaf_node]. *)
Definition enough_fuel_leaf (fuel : nat) (depth : Z) : Prop :=
  (1 <= fuel)%nat
  /\ (0 <= depth <= LIBPFF_MAXIMUM_ITEM_TREE_RECURSION_DEPTH ->
      2 * (LIBPFF_MAXIMUM_ITEM_TREE_RECURSION_DEPTH - depth) + 2
      <= Z.of_nat fuel).

(** The node that wraps a descriptor before it is linked. *)
Definition item_tree_node_of (d : libpff_item_descriptor_t)
    : libcdata_tree_node_t :=
  libcdata_tree_node_set_value libcdata_tree_node_initialize d.

(** The root node that [libpff_item_tree_create] gives the item tree. *)
Definition synthetic_root : libcdata_tree_node_t :=
  item_tree_node_of (libpff_item_descriptor_initialize 0 0 0 0).

(** The item tree has a root node that carries the descriptor with
    identifier 0, and the tree satisfies [tree_ok]. *)
Definition state_ok (st : create_state) : Prop :=
  exists root,
    item_tree_root_node st = Some root /\ tree_ok root
    /\ libcdata_tree_node_get_value root
       = Some (libpff_item_descriptor_initialize 0 0 0 0).

(** The states in which [libpff_item_tree_create] has the two recursive
    functions called: the state it starts them in, and the states that
    their successful calls lead to. *)
Inductive building {N : Type}
    (descriptors_index : libpff_descriptors_index_t N)
    : create_state -> Prop :=
| building_start orphans root_folder :
    building descriptors_index
      {| item_tree := Some {| root_node := Some synthetic_root |};
         orphan_node_list := orphans;
         root_folder_item_tree_node := root_folder |}
| building_node st fuel n depth st' :
    building descriptors_index st ->
    libpff_item_tree_create_node descriptors_index fuel st n depth
    = Some (Ok st') ->
    building descriptors_index st'.

(** The pointer arguments are not NULL and the recursion depth is within
    bounds. *)
Definition callable (st : create_state) (recursion_depth : Z) : Prop :=
  is_Some (item_tree st) /\ is_Some (root_folder_item_tree_node st)
  /\ 0 <= recursion_depth <= LIBPFF_MAXIMUM_ITEM_TREE_RECURSION_DEPTH.

(** The walk of an index whose leaves are all orphans: no leaf is its own
    parent, no leaf has the parent identifier 0 of the item tree root, and
    the index finds no leaf for any parent identifier.  [orphan_walk n
    depth l] holds when the walk from the index node [n], entered at
    recursion depth [depth], meets the leaves whose nodes are [l], in that
    order; unreadable and deleted nodes contribute nothing. *)
Inductive orphan_walk {N : Type}
    (descriptors_index : libpff_descriptors_index_t N)
    : N -> Z -> list libcdata_tree_node_t -> Prop :=
| orphan_walk_unreadable n depth e :
    libfdata_tree_node_get_number_of_sub_nodes descriptors_index n = Err e ->
    orphan_walk descriptors_index n depth []
| orphan_walk_deleted n depth count :
    libfdata_tree_node_get_number_of_sub_nodes descriptors_index n
    = Ok count ->
    libfdata_tree_node_is_deleted descriptors_index n = Ok true ->
    orphan_walk descriptors_index n depth []
| orphan_walk_leaf n depth count v :
    libfdata_tree_node_get_number_of_sub_nodes descriptors_index n
    = Ok count ->
    libfdata_tree_node_is_deleted descriptors_index n = Ok false ->
    libfdata_tree_node_is_leaf descriptors_index n = Ok true ->
    libfdata_tree_node_get_node_value descriptors_index n = Ok (Some v) ->
    index_value.identifier v <= UINT32_MAX ->
    uint32_cast (index_value.identifier v)
    <> index_value.parent_identifier v ->
    index_value.parent_identifier v <> 0 ->
    libpff_index_tree_get_leaf_node_by_identifier descriptors_index
      (index_value.parent_identifier v) = Ret0 ->
    orphan_walk descriptors_index n depth
      [item_tree_node_of (leaf_item_descriptor v)]
| orphan_walk_branch n depth count l :
    libfdata_tree_node_get_number_of_sub_nodes descriptors_index n
    = Ok count ->
    libfdata_tree_node_is_deleted descriptors_index n = Ok false ->
    libfdata_tree_node_is_leaf descriptors_index n = Ok false ->
    depth + 1 <= LIBPFF_MAXIMUM_ITEM_TREE_RECURSION_DEPTH ->
    orphan_walk_sub_nodes descriptors_index n depth (Z.to_nat count) 0 l ->
    orphan_walk descriptors_index n depth l
with orphan_walk_sub_nodes {N : Type}
    (descriptors_index : libpff_descriptors_index_t N)
    : N -> Z -> nat -> Z -> list libcdata_tree_node_t -> Prop :=
| orphan_walk_sub_nodes_done n depth i :
    orphan_walk_sub_nodes descriptors_index n depth 0 i []
| orphan_walk_sub_nodes_next n depth remaining i sub l1 l2 :
    libfdata_tree_node_get_sub_node_by_index descriptors_index n i
    = Ok sub ->
    orphan_walk descriptors_index sub (depth + 1) l1 ->
    orphan_walk_sub_nodes descriptors_index n depth remaining (i + 1) l2 ->
    orphan_walk_sub_nodes descriptors_index n depth (S remaining) i
      (l1 ++ l2).

(** [st] with [l] appended to its orphan list. *)
Definition with_orphans (st : create_state)
    (l : list libcdata_tree_node_t) : create_state :=
  {| item_tree := item_tree st;
     orphan_node_list := orphan_node_list st ++ l;
     root_folder_item_tree_node := root_folder_item_tree_node st |}.

(** ** Descriptors indexes that present the same index *)

Inductive result_rel {A B : Type} (R : A -> B -> Prop)
    : result A -> result B -> Prop :=
| result_rel_Ok a b : R a b -> result_rel R (Ok a) (Ok b)
| result_rel_Err e : result_rel R (Err e) (Err e).

Inductive tri_rel {A B : Type} (R : A -> B -> Prop)
    : tri A -> tri B -> Prop :=
| tri_rel_Ret1 a b : R a b -> tri_rel R (Ret1 a) (Ret1 b)
| tri_rel_Ret0 : tri_rel R Ret0 Ret0
| tri_rel_RetErr e : tri_rel R (RetErr e) (RetErr e).

(** Two outcomes of the number of sub nodes probe are the same when both
    give the same number or both fail, with whatever errors. *)
Definition same_probe (r1 r2 : result Z) : Prop :=
  match r1, r2 with
  | Ok a, Ok b => a = b
  | Err _, Err _ => True
  | _, _ => False
  end.

(** Two descriptors indexes, each with index tree nodes of its own, present
    the same index when their operations give the same answers on the
    nodes that [R] relates; the errors of failing number of sub nodes
    probes may differ. *)
Record same_index {N1 N2 : Type} (R : N1 -> N2 -> Prop)
    (index1 : libpff_descriptors_index_t N1)
    (index2 : libpff_descriptors_index_t N2) : Prop := {
  same_root_node :
    result_rel R (libpff_index_tree_get_root_node index1)
      (libpff_index_tree_get_root_node index2);
  same_number_of_sub_nodes : forall n1 n2, R n1 n2 ->
    same_probe (libfdata_tree_node_get_number_of_sub_nodes index1 n1)
      (libfdata_tree_node_get_number_of_sub_nodes index2 n2);
  same_is_deleted : forall n1 n2, R n1 n2 ->
    libfdata_tree_node_is_deleted index1 n1
    = libfdata_tree_node_is_deleted index2 n2;
  same_is_leaf : forall n1 n2, R n1 n2 ->
    libfdata_tree_node_is_leaf index1 n1
    = libfdata_tree_node_is_leaf index2 n2;
  same_sub_node_by_index : forall n1 n2 i, R n1 n2 ->
    result_rel R (libfdata_tree_node_get_sub_node_by_index index1 n1 i)
      (libfdata_tree_node_get_sub_node_by_index index2 n2 i);
  same_node_value : forall n1 n2, R n1 n2 ->
    libfdata_tree_node_get_node_value index1 n1
    = libfdata_tree_node_get_node_value index2 n2;
  same_leaf_node_by_identifier : forall identifier,
    tri_rel (option_Forall2 R)
      (libpff_index_tree_get_leaf_node_by_identifier index1 identifier)
      (libpff_index_tree_get_leaf_node_by_identifier index2 identifier)
}.

(** The sub nodes after the insertion of [n], whether [n] went in or
    not. *)
Definition sub_nodes_after_insert (n : libcdata_tree_node_t)
    (sub_nodes : list libcdata_tree_node_t) : list libcdata_tree_node_t :=
  match insert_sub_node n sub_nodes with
  | Ret1 sub_nodes' => sub_nodes'
  | _ => sub_nodes
  end.

(** ** Descriptors indexes of the scenarios *)

(** The index of scenario S1: four leaves given as (identifier, parent
    identifier). *)
Definition s1_index : libpff_descriptors_index_t index_node :=
  index_of
    (index_branch
       [index_leaf 1 1; index_leaf 2 1; index_leaf 3 1; index_leaf 4 2]).

(** The state that scenario S1 expects. *)
Definition s1_state : create_state :=
  {| item_tree :=
       Some {| root_node :=
         Some (TreeNode (Some (libpff_item_descriptor_initialize 0 0 0 0))
           [TreeNode (Some (libpff_item_descriptor_initialize 1 0 0 0))
              [TreeNode (Some (libpff_item_descriptor_initialize 2 0 0 0))
                 [TreeNode (Some (libpff_item_descriptor_initialize 4 0 0 0))
                    []];
               TreeNode (Some (libpff_item_descriptor_initialize 3 0 0 0))
                 []]]) |};
     orphan_node_list := [];
     root_folder_item_tree_node :=
       Some (Some (libpff_item_descriptor_initialize 1 0 0 0)) |}.

(** The item tree that a build on an index without leaves produces: the
    root node alone. *)
Definition empty_index : libpff_descriptors_index_t index_node :=
  index_of (index_branch []).

Definition empty_state : create_state :=
  {| item_tree := Some {| root_node := Some synthetic_root |};
     orphan_node_list := [];
     root_folder_item_tree_node := Some None |}.

(** An index of [n] leaves with the identifiers 1 to [n]: leaf 1 is its
    own parent and the parent of every other leaf is the leaf before it. *)
Definition chain_index (n : nat) : libpff_descriptors_index_t index_node :=
  index_of
    (index_branch
       (map (fun k => index_leaf (Z.of_nat k) (Z.of_nat (Nat.max 1 (k - 1))))
          (seq 1 n))).

(** The chain of [S n] nodes with the identifiers [identifier],
    [identifier + 1], ..., each one the only sub node of the one before. *)
Fixpoint chain_node (n : nat) (identifier : Z) : libcdata_tree_node_t :=
  TreeNode (Some (libpff_item_descriptor_initialize identifier 0 0 0))
    match n with
    | O => []
    | S n' => [chain_node n' (identifier + 1)]
    end.

Definition chain_state (n : nat) : create_state :=
  {| item_tree := Some {| root_node := Some (chain_node n 0) |};
     orphan_node_list := [];
     root_folder_item_tree_node :=
       Some (Some (libpff_item_descriptor_initialize 1 0 0 0)) |}.

(** Two leaves, each the parent of the other: reading ahead goes round
    the cycle until the recursion depth is out of bounds. *)
Definition cyclic_index : libpff_descriptors_index_t index_node :=
  index_of (index_branch [index_leaf 1 2; index_leaf 2 1]).

(** An index whose second sub node cannot be read. *)
Definition unreadable_node : index_node :=
  IndexNode (Err (LIBCERROR_IO_ERROR 4)) (Ok false) (Ok true) (Ok None) [].

Definition unreadable_index : libpff_descriptors_index_t index_node :=
  index_of (index_branch [index_leaf 1 1; unreadable_node; index_leaf 2 1]).

(** The index of scenario S5: no leaf is its own parent and no leaf has the
    identifier 30. *)
Definition s5_index : libpff_descriptors_index_t index_node :=
  index_of (index_branch [index_leaf 10 20; index_leaf 20 30]).

(** Two leaves whose parents, 99 and 98, are not in the index. *)
Definition orphans_index : libpff_descriptors_index_t index_node :=
  index_of (index_branch [index_leaf 7 99; index_leaf 8 98]).

(** Three leaves: identifier 5 under parent 0, then two leaves that are
    their own parents, 5 and 6. *)
Definition two_roots_index : libpff_descriptors_index_t index_node :=
  index_of (index_branch [index_leaf 5 0; index_leaf 5 5; index_leaf 6 6]).

(** The index of scenario S4: the leaf with identifier 5 comes twice. *)
Definition s4_index : libpff_descriptors_index_t index_node :=
  index_of (index_branch [index_leaf 1 1; index_leaf 5 1; index_leaf 5 1]).

(** The state that scenario S4 expects. *)
Definition s4_state : create_state :=
  {| item_tree :=
       Some {| root_node :=
         Some (TreeNode (Some (libpff_item_descriptor_initialize 0 0 0 0))
           [TreeNode (Some (libpff_item_descriptor_initialize 1 0 0 0))
              [TreeNode (Some (libpff_item_descriptor_initialize 5 0 0 0))
                 []]]) |};
     orphan_node_list := [];
     root_folder_item_tree_node :=
       Some (Some (libpff_item_descriptor_initialize 1 0 0 0)) |}.

(** The index of [index_of] behind handles that also carry the number of
    the cache slot the node was read into; no operation depends on the
    slot. *)
Definition cached_index_of (root : index_node)
    : libpff_descriptors_index_t (index_node * nat) :=
  {| libpff_index_tree_get_root_node := Ok (root, 0%nat);
     libfdata_tree_node_get_number_of_sub_nodes :=
       fun c => index_node_number_of_sub_nodes (fst c);
     libfdata_tree_node_is_deleted := fun c => index_node_is_deleted (fst c);
     libfdata_tree_node_is_leaf := fun c => index_node_is_leaf (fst c);
     libfdata_tree_node_get_sub_node_by_index :=
       fun c i =>
         match index_node_sub_node_by_index (fst c) i with
         | Ok s => Ok (s, S (snd c))
         | Err e => Err e
         end;
     libfdata_tree_node_get_node_value := fun c => index_node_value (fst c);
     libpff_index_tree_get_leaf_node_by_identifier :=
       fun identifier =>
         match index_node_lookup identifier root with
         | Some n => Ret1 (Some (n, 0%nat))
         | None => Ret0
         end |}.

(** ** Placements of leaves *)

(** One placement of a leaf by [libpff_item_tree_create_leaf_node]: the
    root folder branch (lines 1105 to 1172) for a leaf that is its own
    parent, and the other branch (lines 1247 to 1354) for any other leaf,
    with the parent searched in the item tree as it is at that time. *)
Inductive leaf_step {N : Type}
    (descriptors_index : libpff_descriptors_index_t N)
    : create_state -> create_state -> Prop :=
| leaf_step_root_folder st n v st' :
    libfdata_tree_node_get_node_value descriptors_index n = Ok (Some v) ->
    index_value.identifier v <= UINT32_MAX ->
    uint32_cast (index_value.identifier v) = index_value.parent_identifier v ->
    create_root_folder_node st (leaf_item_descriptor v) = Ok st' ->
    leaf_step descriptors_index st st'
| leaf_step_attach st n v st' :
    libfdata_tree_node_get_node_value descriptors_index n = Ok (Some v) ->
    index_value.identifier v <= UINT32_MAX ->
    uint32_cast (index_value.identifier v)
    <> index_value.parent_identifier v ->
    attach_item_descriptor st (leaf_item_descriptor v)
      (libpff_item_tree_get_tree_node_by_identifier (item_tree_root_node st)
         (index_value.parent_identifier v) (Some None) 0)
    = Ok st' ->
    leaf_step descriptors_index st st'.

(** A sequence of placements. *)
Inductive leaf_steps {N : Type}
    (descriptors_index : libpff_descriptors_index_t N)
    : create_state -> create_state -> Prop :=
| leaf_steps_refl st : leaf_steps descriptors_index st st
| leaf_steps_step st st1 st' :
    leaf_steps descriptors_index st st1 ->
    leaf_step descriptors_index st1 st' ->
    leaf_steps descriptors_index st st'.

(** The node [m] carries the descriptor that the builder makes of the
    index value [v], which some node of the index holds. *)
Definition from_leaf {N : Type}
    (descriptors_index : libpff_descriptors_index_t N)
    (m : libcdata_tree_node_t) (v : index_value.t) : Prop :=
  (exists n,
     libfdata_tree_node_get_node_value descriptors_index n = Ok (Some v))
  /\ index_value.identifier v <= UINT32_MAX
  /\ libcdata_tree_node_get_value m = Some (leaf_item_descriptor v).

(** The node [m] may hang below a node whose value is [parent_value]:
    it comes from a leaf whose parent identifier is the identifier of the
    parent, or, directly below the root ([top]), from a leaf that is its
    own parent. *)
Definition placed {N : Type}
    (descriptors_index : libpff_descriptors_index_t N) (top : bool)
    (parent_value : option libpff_item_descriptor_t)
    (m : libcdata_tree_node_t) : Prop :=
  exists v,
    from_leaf descriptors_index m v
    /\ ((uint32_cast (index_value.identifier v)
         <> index_value.parent_identifier v
         /\ exists d, parent_value = Some d
                      /\ descriptor_identifier d
                         = index_value.parent_identifier v)
        \/ (top = true
            /\ uint32_cast (index_value.identifier v)
               = index_value.parent_identifier v)).

(** Every edge of the tree is a placement; [top] tells whether the node
    is the root of the item tree. *)
Unset Elimination Schemes.
Inductive edges_ok {N : Type}
    (descriptors_index : libpff_descriptors_index_t N)
    : bool -> libcdata_tree_node_t -> Prop :=
| edges_ok_node top value sub_nodes :
    Forall (placed descriptors_index top value) sub_nodes ->
    Forall (edges_ok descriptors_index false) sub_nodes ->
    edges_ok descriptors_index top (TreeNode value sub_nodes).
Set Elimination Schemes.

(** Whether the node that [p] points to is the one that is tagged
    [top]. *)
Definition top_at (top : bool) (p : tree_node_ptr) : bool :=
  match p with
  | [] => top
  | _ :: _ => false
  end.

(** The orphan node of a leaf that is not its own parent. *)
Definition orphan_of {N : Type}
    (descriptors_index : libpff_descriptors_index_t N)
    (o : libcdata_tree_node_t) : Prop :=
  exists v,
    from_leaf descriptors_index o v
    /\ uint32_cast (index_value.identifier v)
       <> index_value.parent_identifier v
    /\ o = item_tree_node_of (leaf_item_descriptor v).

(** Every node of [t] has a counterpart in [t'], as deep as it is and
    with the same value. *)
Definition tree_kept (t t' : libcdata_tree_node_t) : Prop :=
  libcdata_tree_node_get_value t' = libcdata_tree_node_get_value t
  /\ forall q m,
       tree_node_at q t = Some m ->
       exists q' m',
         tree_node_at q' t' = Some m'
         /\ length q' = length q
         /\ libcdata_tree_node_get_value m'
            = libcdata_tree_node_get_value m.
(** ** The walk over the leaves *)

(** [n] is a readable leaf of the index that is not deleted and holds
    [v]. *)
Definition readable_leaf {N : Type}
    (descriptors_index : libpff_descriptors_index_t N) (n : N)
    (v : index_value.t) : Prop :=
  (exists k,
     libfdata_tree_node_get_number_of_sub_nodes descriptors_index n = Ok k)
  /\ libfdata_tree_node_is_deleted descriptors_index n = Ok false
  /\ libfdata_tree_node_is_leaf descriptors_index n = Ok true
  /\ libfdata_tree_node_get_node_value descriptors_index n = Ok (Some v).

(** [b] is a readable branch of the index that is not deleted and has
    the two sub nodes [n0] and [n1], in that order. *)
Definition two_leaf_branch {N : Type}
    (descriptors_index : libpff_descriptors_index_t N) (b n0 n1 : N)
    : Prop :=
  libfdata_tree_node_get_number_of_sub_nodes descriptors_index b = Ok 2
  /\ libfdata_tree_node_is_deleted descriptors_index b = Ok false
  /\ libfdata_tree_node_is_leaf descriptors_index b = Ok false
  /\ libfdata_tree_node_get_sub_node_by_index descriptors_index b 0 = Ok n0
  /\ libfdata_tree_node_get_sub_node_by_index descriptors_index b 1 = Ok n1.

(** The leaves with the identifiers 1 to [n], each one the child of the
    one before it and the first one a child of the item tree root, in
    ascending order. *)
Definition ascending_chain (n : nat) : list index_node :=
  map (fun k => index_leaf (Z.of_nat k) (Z.of_nat k - 1)) (seq 1 n).

(** * Properties *)

(** ** Induction on trees *)

Lemma libcdata_tree_node_ind (P : libcdata_tree_node_t -> Prop) :
  (forall value sub_nodes, Forall P sub_nodes -> P (TreeNode value sub_nodes)) ->
  forall t, P t.
Proof.
  intros step. fix IH 1. intros [value sub_nodes]. apply step.
  induction sub_nodes as [|s sub_nodes IHsub]; constructor.
  - apply IH.
  - exact IHsub.
Qed.

Lemma tree_node_at_nil t : tree_node_at [] t = Some t.
Proof. reflexivity. Qed.

Lemma tree_node_at_cons i p value sub_nodes :
  tree_node_at (i :: p) (TreeNode value sub_nodes)
  = sub_nodes !! i ≫= tree_node_at p.
Proof. simpl. destruct (sub_nodes !! i); reflexivity. Qed.

Lemma tree_node_at_height q t m :
  tree_node_at q t = Some m -> (length q <= tree_height t)%nat.
Proof.
  revert q. induction t as [value sub_nodes IH] using libcdata_tree_node_ind.
  intros [|i q] Hq; [simpl; lia|].
  rewrite tree_node_at_cons in Hq. simpl.
  revert i Hq. induction IH as [|s l Hs _ IHl]; intros i Hq.
  - discriminate.
  - destruct i as [|i]; simpl in Hq.
    + apply Hs in Hq. lia.
    + apply IHl in Hq. simpl in Hq. lia.
Qed.

(** ** The sub node loop of the search *)

Section traverse_sub_nodes_facts.
Variable f : libcdata_tree_node_t -> tri tree_node_ptr.

Lemma traverse_sub_nodes_Ret1 sub_nodes k p :
  traverse_sub_nodes f k sub_nodes = Ret1 p ->
  exists i p' s,
    p = (k + i)%nat :: p' /\ sub_nodes !! i = Some s /\ f s = Ret1 p' /\
    forall j s', (j < i)%nat -> sub_nodes !! j = Some s' -> f s' = Ret0.
Proof.
  revert k. induction sub_nodes as [|s sub_nodes IH]; intros k H; simpl in H.
  - discriminate.
  - destruct (f s) as [p'| |e] eqn:Hs.
    + injection H as <-. exists 0%nat, p', s.
      rewrite Nat.add_0_r. repeat split; auto. intros j s' Hj. lia.
    + apply IH in H as (i & p' & s0 & -> & Hi & Hf & Hbefore).
      exists (S i), p', s0. repeat split; auto.
      * f_equal. lia.
      * intros [|j] s' Hj Hl; simpl in Hl.
        -- congruence.
        -- apply (Hbefore j); [lia | exact Hl].
    + discriminate.
Qed.

Lemma traverse_sub_nodes_Ret0 sub_nodes k :
  traverse_sub_nodes f k sub_nodes = Ret0 ->
  forall i s, sub_nodes !! i = Some s -> f s = Ret0.
Proof.
  revert k. induction sub_nodes as [|s sub_nodes IH]; intros k H i s' Hi.
  - discriminate.
  - simpl in H. destruct (f s) eqn:Hs; try discriminate.
    destruct i as [|i]; simpl in Hi.
    + congruence.
    + eapply IH; eauto.
Qed.

Lemma traverse_sub_nodes_RetErr sub_nodes k e :
  traverse_sub_nodes f k sub_nodes = RetErr e ->
  exists i s, sub_nodes !! i = Some s /\ f s = RetErr e.
Proof.
  revert k. induction sub_nodes as [|s sub_nodes IH]; intros k H; simpl in H.
  - discriminate.
  - destruct (f s) eqn:Hs; try discriminate.
    + apply IH in H as (i & s' & Hi & Hf). exists (S i), s'. auto.
    + injection H as <-. exists 0%nat, s. auto.
Qed.

Lemma traverse_sub_nodes_all_Ret0 sub_nodes k :
  (forall i s, sub_nodes !! i = Some s -> f s = Ret0) ->
  traverse_sub_nodes f k sub_nodes = Ret0.
Proof.
  revert k. induction sub_nodes as [|s sub_nodes IH]; intros k H; simpl.
  - reflexivity.
  - rewrite (H 0%nat s eq_refl). apply IH.
    intros i s' Hi. apply (H (S i)). exact Hi.
Qed.
End traverse_sub_nodes_facts.

Lemma traverse_sub_nodes_ext f g k sub_nodes :
  Forall (fun s => f s = g s) sub_nodes ->
  traverse_sub_nodes f k sub_nodes = traverse_sub_nodes g k sub_nodes.
Proof.
  intros H. revert k. induction H as [|s sub_nodes Hs _ IH]; intros k; simpl.
  - reflexivity.
  - rewrite Hs, IH. reflexivity.
Qed.

(** ** The search *)

Lemma get_tree_node_by_identifier_unfold value sub_nodes identifier out depth :
  get_tree_node_by_identifier (TreeNode value sub_nodes) identifier out depth
  = if recursion_depth_out_of_bounds depth
    then RetErr LIBCERROR_ARGUMENT_ERROR_VALUE_OUT_OF_BOUNDS
    else
      match value with
      | None => RetErr LIBCERROR_RUNTIME_ERROR_VALUE_MISSING
      | Some item_descriptor =>
          if descriptor_identifier item_descriptor =? identifier
          then
            match out with
            | None => RetErr LIBCERROR_ARGUMENT_ERROR_INVALID_VALUE
            | Some (Some _) => RetErr LIBCERROR_RUNTIME_ERROR_VALUE_ALREADY_SET
            | Some None => Ret1 []
            end
          else
            traverse_sub_nodes
              (fun s => get_tree_node_by_identifier s identifier out
                          (depth + 1))
              0%nat sub_nodes
      end.
Proof. reflexivity. Qed.

Lemma in_bounds_inv depth :
  recursion_depth_out_of_bounds depth = false ->
  0 <= depth <= LIBPFF_MAXIMUM_ITEM_TREE_RECURSION_DEPTH.
Proof. unfold recursion_depth_out_of_bounds. lia. Qed.

Lemma in_bounds_intro depth :
  0 <= depth <= LIBPFF_MAXIMUM_ITEM_TREE_RECURSION_DEPTH ->
  recursion_depth_out_of_bounds depth = false.
Proof. unfold recursion_depth_out_of_bounds. lia. Qed.

Lemma get_tree_node_by_identifier_Ret0 t identifier out depth :
  get_tree_node_by_identifier t identifier out depth = Ret0 ->
  forall q m, tree_node_at q t = Some m -> lacks_identifier identifier m.
Proof.
  revert depth. induction t as [value sub_nodes IH] using libcdata_tree_node_ind.
  intros depth H. rewrite get_tree_node_by_identifier_unfold in H.
  destruct (recursion_depth_out_of_bounds depth); [discriminate|].
  destruct value as [d|]; [|discriminate].
  destruct (descriptor_identifier d =? identifier) eqn:Hd.
  { destruct out as [[?|]|]; discriminate. }
  apply Z.eqb_neq in Hd.
  intros [|i q] m Hq.
  - injection Hq as <-. exists d. auto.
  - rewrite tree_node_at_cons in Hq.
    destruct (sub_nodes !! i) as [s|] eqn:Hi; [|discriminate]. simpl in Hq.
    rewrite Forall_lookup in IH.
    eapply (IH i s Hi); [|exact Hq].
    eapply traverse_sub_nodes_Ret0 in H; eauto.
Qed.

Lemma get_tree_node_by_identifier_Ret1 t identifier depth p :
  get_tree_node_by_identifier t identifier (Some None) depth = Ret1 p ->
  first_in_preorder identifier t p
  /\ depth + Z.of_nat (length p) <= LIBPFF_MAXIMUM_ITEM_TREE_RECURSION_DEPTH.
Proof.
  revert depth p.
  induction t as [value sub_nodes IH] using libcdata_tree_node_ind.
  intros depth p H. rewrite get_tree_node_by_identifier_unfold in H.
  destruct (recursion_depth_out_of_bounds depth) eqn:Hb; [discriminate|].
  apply in_bounds_inv in Hb.
  destruct value as [d|]; [|discriminate].
  destruct (descriptor_identifier d =? identifier) eqn:Hd.
  - injection H as <-. apply Z.eqb_eq in Hd. split; [split|simpl; lia].
    + exists (TreeNode (Some d) sub_nodes). split; [reflexivity|].
      exists d. auto.
    + intros q m Hlt. inversion Hlt.
  - apply Z.eqb_neq in Hd.
    apply traverse_sub_nodes_Ret1 in H as (i & p' & s & -> & Hi & Hs & Hbefore).
    rewrite Forall_lookup in IH.
    destruct (IH i s Hi _ _ Hs) as [[(n & Hn & Hid) Hfirst] Hlen].
    split; [split|simpl length; lia].
    + exists n. split; [|exact Hid].
      rewrite tree_node_at_cons. simpl. rewrite Hi. exact Hn.
    + intros q m Hlt Hq. inversion Hlt as [i' p0|i' j p0 q0 Hij|i' p0 q0 Hpq];
        subst.
      * injection Hq as <-. exists d. auto.
      * rewrite tree_node_at_cons in Hq.
        destruct (sub_nodes !! i') as [s'|] eqn:Hi'; [|discriminate].
        simpl in Hq.
        eapply get_tree_node_by_identifier_Ret0; [|exact Hq].
        eapply Hbefore; eauto.
      * rewrite tree_node_at_cons, Hi in Hq. simpl in Hq. eauto.
Qed.

Lemma get_tree_node_by_identifier_no_error t identifier depth e :
  0 <= depth ->
  (forall q m, tree_node_at q t = Some m ->
     is_Some (libcdata_tree_node_get_value m)
     /\ depth + Z.of_nat (length q)
        <= LIBPFF_MAXIMUM_ITEM_TREE_RECURSION_DEPTH) ->
  get_tree_node_by_identifier t identifier (Some None) depth <> RetErr e.
Proof.
  revert depth.
  induction t as [value sub_nodes IH] using libcdata_tree_node_ind.
  intros depth Hdepth Hall H. rewrite get_tree_node_by_identifier_unfold in H.
  destruct (Hall [] _ eq_refl) as [[d Hd] Hlen]. simpl in Hd, Hlen. subst value.
  rewrite in_bounds_intro in H by lia.
  destruct (descriptor_identifier d =? identifier); [discriminate|].
  apply traverse_sub_nodes_RetErr in H as (i & s & Hi & Hs).
  rewrite Forall_lookup in IH.
  apply (IH i s Hi (depth + 1)) in Hs; [exact Hs|lia|].
  intros q m Hq.
  destruct (Hall (i :: q) m) as [Hv Hlen'].
  { rewrite tree_node_at_cons, Hi. exact Hq. }
  split; [exact Hv|]. simpl length in Hlen'. lia.
Qed.

(** With a NULL or already set output the search does what it does with a
    usable output, except that it fails where it would have stored the
    node. *)
Lemma get_tree_node_by_identifier_output t identifier out depth e :
  output_error out = Some e ->
  get_tree_node_by_identifier t identifier out depth
  = match get_tree_node_by_identifier t identifier (Some None) depth with
    | Ret1 _ => RetErr e
    | Ret0 => Ret0
    | RetErr e' => RetErr e'
    end.
Proof.
  intros Hout. revert depth.
  induction t as [value sub_nodes IH] using libcdata_tree_node_ind.
  intros depth. rewrite !get_tree_node_by_identifier_unfold.
  destruct (recursion_depth_out_of_bounds depth); [reflexivity|].
  destruct value as [d|]; [|reflexivity].
  destruct (descriptor_identifier d =? identifier).
  { destruct out as [[?|]|]; simpl in Hout; congruence. }
  generalize 0%nat.
  induction IH as [|s sub_nodes Hs _ IHsub]; intros k; simpl.
  - reflexivity.
  - rewrite Hs.
    destruct (get_tree_node_by_identifier s identifier (Some None) (depth + 1));
      auto.
Qed.

Lemma get_tree_node_by_identifier_complete t identifier :
  searchable LIBPFF_MAXIMUM_ITEM_TREE_RECURSION_DEPTH t ->
  (exists q m, tree_node_at q t = Some m /\ has_identifier identifier m) ->
  exists p, get_tree_node_by_identifier t identifier (Some None) 0 = Ret1 p
            /\ first_in_preorder identifier t p.
Proof.
  intros Hs (q & m & Hq & d & Hd & Hid).
  destruct (get_tree_node_by_identifier t identifier (Some None) 0)
    as [p| |e] eqn:H.
  - exists p. split; [reflexivity|].
    apply get_tree_node_by_identifier_Ret1 in H. tauto.
  - destruct (get_tree_node_by_identifier_Ret0 _ _ _ _ H q m Hq)
      as (d' & Hd' & Hne). congruence.
  - exfalso. revert H. apply get_tree_node_by_identifier_no_error; [lia|].
    intros q' m' Hq'. destruct (Hs q' m' Hq'). split; [assumption|lia].
Qed.

(** ** Sorted-unique insertion *)

Lemma node_lt_trans a b c : node_lt a b -> node_lt b c -> node_lt a c.
Proof.
  intros (x & y & Hx & Hy & Hxy) (y' & z & Hy' & Hz & Hyz).
  exists x, z. repeat split; auto. rewrite Hy in Hy'. injection Hy' as <-. lia.
Qed.

Lemma node_lt_values a b a' b' :
  libcdata_tree_node_get_value a' = libcdata_tree_node_get_value a ->
  libcdata_tree_node_get_value b' = libcdata_tree_node_get_value b ->
  node_lt a b -> node_lt a' b'.
Proof.
  intros Ha Hb (x & y & Hx & Hy & Hxy). exists x, y. rewrite Ha, Hb. auto.
Qed.

Lemma compare_Lt a b :
  libpff_item_descriptor_compare (libcdata_tree_node_get_value a)
    (libcdata_tree_node_get_value b) = Some Lt <-> node_lt a b.
Proof.
  unfold libpff_item_descriptor_compare, node_lt. split.
  - destruct (libcdata_tree_node_get_value a) as [x|]; [|discriminate].
    destruct (libcdata_tree_node_get_value b) as [y|]; [|discriminate].
    intros [= H]. apply Z.compare_lt_iff in H. eauto.
  - intros (x & y & -> & -> & H). apply Z.compare_lt_iff in H. congruence.
Qed.

Lemma compare_Gt a b :
  libpff_item_descriptor_compare (libcdata_tree_node_get_value a)
    (libcdata_tree_node_get_value b) = Some Gt <-> node_lt b a.
Proof.
  unfold libpff_item_descriptor_compare, node_lt. split.
  - destruct (libcdata_tree_node_get_value a) as [x|]; [|discriminate].
    destruct (libcdata_tree_node_get_value b) as [y|]; [|discriminate].
    intros [= H]. apply Z.compare_gt_iff in H. eauto.
  - intros (y & x & -> & -> & H). apply Z.compare_gt_iff in H. congruence.
Qed.

Lemma strictly_ascending_lookup sub_nodes i j a b :
  strictly_ascending sub_nodes -> (i < j)%nat ->
  sub_nodes !! i = Some a -> sub_nodes !! j = Some b -> node_lt a b.
Proof.
  intros H. revert i j. induction H as [|s sub_nodes _ IH Hs]; intros i j Hij Hi Hj.
  - discriminate.
  - destruct j as [|j]; [lia|]. simpl in Hj. destruct i as [|i]; simpl in Hi.
    + injection Hi as <-. rewrite Forall_lookup in Hs. eauto.
    + apply (IH i j); [lia|auto..].
Qed.

Lemma insert_sub_node_Forall (P : libcdata_tree_node_t -> Prop) n l l' :
  insert_sub_node n l = Ret1 l' -> P n -> Forall P l -> Forall P l'.
Proof.
  revert l'. induction l as [|s l IH]; intros l' H Hn Hl; simpl in H.
  - injection H as <-. auto.
  - destruct (libpff_item_descriptor_compare _ _) as [[]|]; try discriminate.
    + injection H as <-. auto.
    + destruct (insert_sub_node n l) as [r| |]; try discriminate.
      injection H as <-. inversion Hl; subst. auto.
Qed.

Lemma insert_sub_node_ascending n l l' :
  insert_sub_node n l = Ret1 l' ->
  strictly_ascending l -> strictly_ascending l'.
Proof.
  unfold strictly_ascending.
  revert l'. induction l as [|s l IH]; intros l' H Hl; simpl in H.
  - injection H as <-. repeat constructor.
  - destruct (libpff_item_descriptor_compare _ _) as [[]|] eqn:Hc;
      try discriminate.
    + injection H as <-. apply compare_Lt in Hc.
      inversion Hl as [|? ? Hsorted Hs]; subst.
      constructor; [exact Hl|]. constructor; [exact Hc|].
      eapply Forall_impl; [exact Hs|]. intros b Hb.
      eapply node_lt_trans; eauto.
    + destruct (insert_sub_node n l) as [r| |] eqn:Hr; try discriminate.
      injection H as <-. apply compare_Gt in Hc.
      inversion Hl as [|? ? Hsorted Hs]; subst.
      constructor; [auto|].
      eapply insert_sub_node_Forall; eauto.
Qed.

(** A sub node with the identifier of the node to insert makes the
    insertion into ascending sub nodes return 0. *)
Lemma insert_sub_node_duplicate n l s d d' :
  strictly_ascending l -> s ∈ l ->
  libcdata_tree_node_get_value n = Some d ->
  libcdata_tree_node_get_value s = Some d' ->
  descriptor_identifier d' = descriptor_identifier d ->
  insert_sub_node n l = Ret0.
Proof.
  unfold strictly_ascending.
  intros Hl Hs Hn Hd Hid. induction Hl as [|x l Hsorted IH Hx]; simpl.
  - inversion Hs.
  - apply elem_of_cons in Hs as [<-|Hs].
    + unfold libpff_item_descriptor_compare. rewrite Hn, Hd, Hid.
      rewrite Z.compare_refl. reflexivity.
    + assert (Hlt : node_lt x n).
      { rewrite Forall_forall in Hx.
        destruct (Hx s Hs) as (a & b & Ha & Hb & Hab).
        exists a, d. repeat split; auto. rewrite Hd in Hb. injection Hb as <-.
        lia. }
      apply compare_Gt in Hlt. rewrite Hlt, IH by exact Hs. reflexivity.
Qed.

Lemma insert_sub_node_no_error n l e :
  is_Some (libcdata_tree_node_get_value n) ->
  Forall (fun s => is_Some (libcdata_tree_node_get_value s)) l ->
  insert_sub_node n l <> RetErr e.
Proof.
  intros [d Hd] Hl. induction Hl as [|s l [d' Hd'] _ IH]; simpl.
  - discriminate.
  - unfold libpff_item_descriptor_compare. rewrite Hd, Hd'.
    destruct (descriptor_identifier d ?= descriptor_identifier d');
      try discriminate.
    destruct (insert_sub_node n l); congruence.
Qed.

(** ** The invariant of the item tree *)

Lemma tree_ok_at t p n : tree_ok t -> tree_node_at p t = Some n -> tree_ok n.
Proof.
  revert t. induction p as [|i p IH]; intros t Ht Hp.
  - injection Hp as <-. exact Ht.
  - destruct Ht as [value sub_nodes _ _ Hsub].
    rewrite tree_node_at_cons in Hp.
    destruct (sub_nodes !! i) as [s|] eqn:Hi; [|discriminate]. simpl in Hp.
    rewrite Forall_lookup in Hsub. eauto.
Qed.

Lemma tree_node_store_value p n t old :
  tree_node_at p t = Some old ->
  libcdata_tree_node_get_value n = libcdata_tree_node_get_value old ->
  libcdata_tree_node_get_value (tree_node_store p n t)
  = libcdata_tree_node_get_value t.
Proof.
  destruct p as [|i p]; intros Hp Hv.
  - injection Hp as <-. exact Hv.
  - destruct t as [value sub_nodes]. simpl.
    destruct (sub_nodes !! i); reflexivity.
Qed.

Lemma strictly_ascending_insert sub_nodes i s s' :
  strictly_ascending sub_nodes -> sub_nodes !! i = Some s ->
  libcdata_tree_node_get_value s' = libcdata_tree_node_get_value s ->
  strictly_ascending (<[i := s']> sub_nodes).
Proof.
  unfold strictly_ascending. intros H. revert i.
  induction H as [|x l Hsorted IH Hx]; intros i Hi Hv.
  - discriminate.
  - destruct i as [|i]; simpl in *.
    + injection Hi as <-. constructor; [exact Hsorted|].
      eapply Forall_impl; [exact Hx|]. intros b.
      apply node_lt_values; auto.
    + constructor; [auto|].
      rewrite Forall_lookup in Hx. rewrite Forall_lookup. intros j b Hj.
      destruct (decide (i = j)) as [->|Hne].
      * rewrite list_lookup_insert_eq in Hj
          by (eapply lookup_lt_Some; eauto).
        injection Hj as <-. eapply node_lt_values; [reflexivity|exact Hv|].
        eauto.
      * rewrite list_lookup_insert_ne in Hj by exact Hne. eauto.
Qed.

Lemma tree_ok_store p n t old :
  tree_ok t -> tree_node_at p t = Some old -> tree_ok n ->
  libcdata_tree_node_get_value n = libcdata_tree_node_get_value old ->
  tree_ok (tree_node_store p n t).
Proof.
  revert t. induction p as [|i p IH]; intros t Ht Hp Hn Hv.
  - exact Hn.
  - destruct Ht as [value sub_nodes Hvalue Hasc Hsub].
    rewrite tree_node_at_cons in Hp. simpl.
    destruct (sub_nodes !! i) as [s|] eqn:Hi; [|discriminate]. simpl in Hp.
    assert (Hs : tree_ok s) by (rewrite Forall_lookup in Hsub; eauto).
    constructor; [exact Hvalue| |].
    + eapply strictly_ascending_insert; eauto.
      eapply tree_node_store_value; eauto.
    + apply Forall_insert; auto.
Qed.

Lemma tree_ok_leaf d :
  tree_ok (libcdata_tree_node_set_value libcdata_tree_node_initialize d).
Proof. constructor; [eauto|constructor|constructor]. Qed.

Lemma libcdata_tree_node_insert_node_ok parent n parent' :
  libcdata_tree_node_insert_node (Some parent) n = Ret1 parent' ->
  tree_ok parent -> tree_ok n ->
  tree_ok parent'
  /\ libcdata_tree_node_get_value parent'
     = libcdata_tree_node_get_value parent.
Proof.
  intros H Hp Hn. destruct Hp as [value sub_nodes Hvalue Hasc Hsub].
  simpl in H.
  destruct (insert_sub_node n sub_nodes) as [l| |] eqn:Hl; try discriminate.
  injection H as <-. split; [|reflexivity].
  constructor; [exact Hvalue| |].
  - eapply insert_sub_node_ascending; eauto.
  - eapply insert_sub_node_Forall; eauto.
Qed.

(** ** The builder: fuel *)

Arguments create_root_folder_node : simpl never.
Arguments attach_item_descriptor : simpl never.
Arguments libpff_item_tree_get_tree_node_by_identifier : simpl never.

Lemma Some_eq_inv {A : Type} (a b : A) : Some a = Some b -> a = b.
Proof. congruence. Qed.

Ltac case_match_in H :=
  match type of H with
  | context [match ?x with _ => _ end] => destruct x eqn:?
  | context [if ?x then _ else _] => destruct x eqn:?
  end.

Ltac case_match_goal :=
  match goal with
  | |- context [match ?x with _ => _ end] => destruct x eqn:?
  | |- context [if ?x then _ else _] => destruct x eqn:?
  end.

Section builder_fuel.
Context {N : Type} (descriptors_index : libpff_descriptors_index_t N).

Local Abbreviation create_node :=
  (libpff_item_tree_create_node descriptors_index).
Local Abbreviation create_leaf_node :=
  (libpff_item_tree_create_leaf_node descriptors_index).
Local Abbreviation sub_nodes_loop := (create_sub_nodes descriptors_index).

Lemma create_sub_nodes_mono
    (rec1 rec2 : create_state -> N -> option (result create_state))
    node remaining i st r :
  (forall st n r, rec1 st n = Some r -> rec2 st n = Some r) ->
  sub_nodes_loop rec1 node remaining i st = Some r ->
  sub_nodes_loop rec2 node remaining i st = Some r.
Proof.
  intros Hrec. revert i st.
  induction remaining as [|remaining IH]; intros i st H; simpl in *.
  - exact H.
  - destruct (libfdata_tree_node_get_sub_node_by_index _ _ _) as [sub|e];
      [|exact H].
    destruct (rec1 st sub) as [[st'|e]|] eqn:H1; [| |discriminate].
    + rewrite (Hrec _ _ _ H1). auto.
    + rewrite (Hrec _ _ _ H1). exact H.
Qed.

(** More fuel does not change a result. *)
Lemma create_fuel_S fuel :
  (forall st n depth r,
     create_node fuel st n depth = Some r ->
     create_node (S fuel) st n depth = Some r)
  /\ (forall st n depth r,
        create_leaf_node fuel st n depth = Some r ->
        create_leaf_node (S fuel) st n depth = Some r).
Proof.
  induction fuel as [|fuel [IHnode IHleaf]].
  { split; intros; discriminate. }
  split; intros st n depth r H.
  - remember (S fuel) as fuel1. rewrite Heqfuel1 in H at 1.
    simpl in H |- *.
    repeat (case_match_in H; try exact H).
    + subst fuel1. auto.
    + subst fuel1. revert H. apply create_sub_nodes_mono.
      intros; auto.
  - remember (S fuel) as fuel1. rewrite Heqfuel1 in H at 1.
    simpl in H |- *.
    repeat (case_match_in H; try exact H; try discriminate).
    all: subst fuel1;
      match goal with
      | Hc : libpff_item_tree_create_node _ _ _ _ _ = _ |- _ =>
          apply IHnode in Hc; rewrite Hc; exact H
      end.
Qed.

Lemma create_node_fuel_le fuel fuel' st n depth r :
  (fuel <= fuel')%nat ->
  create_node fuel st n depth = Some r ->
  create_node fuel' st n depth = Some r.
Proof.
  induction 1 as [|fuel' _ IH]; [auto|].
  intros H. apply create_fuel_S. auto.
Qed.

Lemma create_leaf_node_fuel_le fuel fuel' st n depth r :
  (fuel <= fuel')%nat ->
  create_leaf_node fuel st n depth = Some r ->
  create_leaf_node fuel' st n depth = Some r.
Proof.
  induction 1 as [|fuel' _ IH]; [auto|].
  intros H. apply create_fuel_S. auto.
Qed.

Lemma create_sub_nodes_returns
    (rec : create_state -> N -> option (result create_state))
    node remaining i st :
  (forall st n, is_Some (rec st n)) ->
  is_Some (sub_nodes_loop rec node remaining i st).
Proof.
  intros Hrec. revert i st.
  induction remaining as [|remaining IH]; intros i st; simpl.
  - eauto.
  - destruct (libfdata_tree_node_get_sub_node_by_index _ _ _) as [sub|e];
      [|eauto].
    destruct (Hrec st sub) as [[st'|e] ->]; eauto.
Qed.

(** With enough fuel for its recursion depth a call returns. *)
Lemma create_returns fuel :
  (forall st n depth,
     enough_fuel_node fuel depth -> is_Some (create_node fuel st n depth))
  /\ (forall st n depth,
        enough_fuel_leaf fuel depth ->
        is_Some (create_leaf_node fuel st n depth)).
Proof.
  induction fuel as [|fuel [IHnode IHleaf]].
  { split; intros st n depth [H _]; lia. }
  split; intros st n depth [_ H]; simpl.
  - repeat (case_match_goal; eauto).
    + apply IHleaf. apply in_bounds_inv in Heqb. split; lia.
    + apply create_sub_nodes_returns. intros st' n'. apply IHnode.
      apply in_bounds_inv in Heqb. split; lia.
  - repeat (case_match_goal; eauto).
    all: exfalso;
      match goal with
      | Hc : libpff_item_tree_create_node _ _ ?s ?m ?d = None |- _ =>
          destruct (IHnode s m d) as [? Hsome];
            [apply in_bounds_inv in Heqb; split; lia|congruence]
      end.
Qed.
End builder_fuel.

(** ** The builder: invariants *)

Section builder_invariant.
Context {N : Type} (descriptors_index : libpff_descriptors_index_t N).

Local Abbreviation create_node :=
  (libpff_item_tree_create_node descriptors_index).
Local Abbreviation create_leaf_node :=
  (libpff_item_tree_create_leaf_node descriptors_index).
Local Abbreviation sub_nodes_loop := (create_sub_nodes descriptors_index).

Variable I : create_state -> Prop.

Hypothesis I_root_folder : forall st n v st',
  I st ->
  libfdata_tree_node_get_node_value descriptors_index n = Ok (Some v) ->
  uint32_cast (index_value.identifier v) = index_value.parent_identifier v ->
  create_root_folder_node st (leaf_item_descriptor v) = Ok st' ->
  I st'.

Hypothesis I_attach : forall st d parent_search st',
  I st -> attach_item_descriptor st d parent_search = Ok st' -> I st'.

Lemma create_sub_nodes_preserves
    (rec : create_state -> N -> option (result create_state))
    node remaining i st st' :
  (forall st n st', I st -> rec st n = Some (Ok st') -> I st') ->
  I st -> sub_nodes_loop rec node remaining i st = Some (Ok st') -> I st'.
Proof.
  intros Hrec. revert i st.
  induction remaining as [|remaining IH]; intros i st Hst H; simpl in H.
  - injection H as <-. exact Hst.
  - destruct (libfdata_tree_node_get_sub_node_by_index _ _ _) as [sub|e];
      [|discriminate].
    destruct (rec st sub) as [[st1|e]|] eqn:H1; try discriminate.
    eapply IH; [|exact H]. eauto.
Qed.

(** A property of the state that the two kinds of leaves preserve is
    preserved by every successful call. *)
Lemma create_preserves fuel :
  (forall st n depth st',
     I st -> create_node fuel st n depth = Some (Ok st') -> I st')
  /\ (forall st n depth st',
        I st -> create_leaf_node fuel st n depth = Some (Ok st') -> I st').
Proof.
  induction fuel as [|fuel [IHnode IHleaf]].
  { split; intros; discriminate. }
  split; intros st n depth st' Hst H; simpl in H.
  - repeat (case_match_in H; try discriminate).
    all: first
      [ injection H as <-; exact Hst
      | solve [eauto]
      | eapply create_sub_nodes_preserves; [|exact Hst|exact H];
        intros st0 n0 st1 Hst0 Hc; eapply IHnode; [exact Hst0|exact Hc] ].
  - repeat (case_match_in H; try discriminate);
      try apply Some_eq_inv in H;
      try match goal with
      | Hc : libpff_item_tree_create_node _ _ _ _ _ = Some (Ok _) |- _ =>
          apply IHnode in Hc; [|exact Hst]
      end.
    all: first
      [ eapply I_root_folder;
        [exact Hst|eassumption|apply Z.eqb_eq; eassumption|exact H]
      | eapply I_attach; [|exact H]; assumption ].
Qed.

Lemma create_node_preserves fuel st n depth st' :
  I st -> create_node fuel st n depth = Some (Ok st') -> I st'.
Proof. apply create_preserves. Qed.

Lemma create_leaf_node_preserves fuel st n depth st' :
  I st -> create_leaf_node fuel st n depth = Some (Ok st') -> I st'.
Proof. apply create_preserves. Qed.
End builder_invariant.

(** How the two kinds of leaves change the item tree. *)
Lemma create_root_folder_node_tree st d st' :
  create_root_folder_node st d = Ok st' ->
  orphan_node_list st' = orphan_node_list st
  /\ ((st' = st
       /\ libcdata_tree_node_insert_node (item_tree_root_node st)
            (item_tree_node_of d) = Ret0)
      \/ exists root',
           libcdata_tree_node_insert_node (item_tree_root_node st)
             (item_tree_node_of d) = Ret1 root'
           /\ item_tree_root_node st' = Some root'
           /\ root_folder_item_tree_node st' = Some (Some d)).
Proof.
  unfold create_root_folder_node, item_tree_node_of.
  destruct (root_folder_item_tree_node st) as [[?|]|]; try discriminate.
  destruct (libcdata_tree_node_insert_node _ _) as [root'| |e];
    try discriminate; intros [= <-]; simpl; eauto 10.
Qed.

Lemma attach_item_descriptor_tree st d parent_search st' :
  attach_item_descriptor st d parent_search = Ok st' ->
  root_folder_item_tree_node st' = root_folder_item_tree_node st
  /\ ((parent_search = Ret0
       /\ item_tree st' = item_tree st
       /\ orphan_node_list st'
          = orphan_node_list st ++ [item_tree_node_of d])
      \/ (exists parent_node root,
            parent_search = Ret1 parent_node
            /\ item_tree_root_node st = Some root
            /\ libcdata_tree_node_insert_value
                 (tree_node_at parent_node root) d = Ret0
            /\ st' = st)
      \/ (exists parent_node root parent',
            parent_search = Ret1 parent_node
            /\ item_tree_root_node st = Some root
            /\ libcdata_tree_node_insert_value
                 (tree_node_at parent_node root) d = Ret1 parent'
            /\ item_tree_root_node st'
               = Some (tree_node_store parent_node parent' root)
            /\ orphan_node_list st' = orphan_node_list st)).
Proof.
  unfold attach_item_descriptor, insert_value_at.
  destruct parent_search as [p| |e]; try discriminate.
  - destruct (item_tree_root_node st) as [root|]; try discriminate.
    destruct (libcdata_tree_node_insert_value _ _) as [parent'| |e] eqn:Hi;
      try discriminate; intros [= <-]; simpl; split; auto.
    + right; right. eauto 10.
    + right; left. eauto 10.
  - intros [= <-]; simpl. auto.
Qed.

Lemma create_root_folder_node_ok st d st' :
  state_ok st -> create_root_folder_node st d = Ok st' -> state_ok st'.
Proof.
  intros (root & Hroot & Hok & Hvalue) H.
  apply create_root_folder_node_tree in H
    as [_ [[-> _]|(root' & Hins & Hroot' & _)]].
  - exists root. auto.
  - rewrite Hroot in Hins.
    apply libcdata_tree_node_insert_node_ok in Hins as [Hok' Hvalue'];
      [|exact Hok|apply tree_ok_leaf].
    exists root'. rewrite Hvalue'. auto.
Qed.

Lemma attach_item_descriptor_ok st d parent_search st' :
  state_ok st -> attach_item_descriptor st d parent_search = Ok st' ->
  state_ok st'.
Proof.
  intros (root & Hroot & Hok & Hvalue) H.
  apply attach_item_descriptor_tree in H
    as [_ [(_ & Htree & _)|[(p & root0 & _ & _ & _ & ->)
                           |(p & root0 & parent' & _ & Hroot0 & Hins
                             & Hroot' & _)]]].
  - exists root. unfold item_tree_root_node in *. rewrite Htree. auto.
  - exists root. auto.
  - rewrite Hroot in Hroot0. injection Hroot0 as <-.
    unfold libcdata_tree_node_insert_value in Hins.
    destruct (tree_node_at p root) as [parent|] eqn:Hp; [|discriminate].
    apply libcdata_tree_node_insert_node_ok in Hins as [Hok' Hvalue'];
      [|eapply tree_ok_at; eauto|apply tree_ok_leaf].
    exists (tree_node_store p parent' root). split; [exact Hroot'|]. split.
    + eapply tree_ok_store; eauto.
    + erewrite tree_node_store_value; eauto.
Qed.

Lemma tree_ok_insert_node_no_error parent d e :
  tree_ok parent ->
  libcdata_tree_node_insert_node (Some parent) (item_tree_node_of d)
  <> RetErr e.
Proof.
  intros [value sub_nodes _ _ Hsub]. simpl.
  destruct (insert_sub_node _ _) as [l| |e'] eqn:H; try discriminate.
  exfalso. revert H. apply insert_sub_node_no_error; [simpl; eauto|].
  eapply Forall_impl; [exact Hsub|]. intros s [? ? ? _ _]. assumption.
Qed.

Section building.
Context {N : Type} (descriptors_index : libpff_descriptors_index_t N).

Lemma create_node_ok fuel st n depth st' :
  state_ok st ->
  libpff_item_tree_create_node descriptors_index fuel st n depth
  = Some (Ok st') ->
  state_ok st'.
Proof.
  apply create_node_preserves.
  - intros st0 n0 v st1 H _ _. apply create_root_folder_node_ok. exact H.
  - intros st0 d r st1. apply attach_item_descriptor_ok.
Qed.

Lemma building_ok st : building descriptors_index st -> state_ok st.
Proof.
  induction 1 as [orphans rf|st fuel n depth st' _ IH H].
  - exists synthetic_root.
    split; [reflexivity|split; [apply tree_ok_leaf|reflexivity]].
  - eapply create_node_ok; eauto.
Qed.

Lemma libpff_item_tree_create_building tree orphans rf st :
  libpff_item_tree_create descriptors_index tree orphans rf = Some (Ok st) ->
  building descriptors_index st.
Proof.
  unfold libpff_item_tree_create. intros H.
  repeat (case_match_in H; try discriminate).
  eapply building_node; [apply building_start|exact H].
Qed.
End building.

(** ** Claims *)

(** C1.  In every tree that a successful build produces, the sub nodes of
    every node carry pairwise distinct descriptor identifiers in strictly
    ascending order.  The root folder leaf changes the item tree by
    nothing but a sorted-unique insertion of its node under the item tree
    root, and every other leaf by nothing but a sorted-unique insertion of
    its descriptor under the parent node that the search has found. *)
Theorem built_tree_sub_nodes_ascending {N : Type}
    (descriptors_index : libpff_descriptors_index_t N)
    tree orphans root_folder st root :
  libpff_item_tree_create descriptors_index tree orphans root_folder
  = Some (Ok st) ->
  item_tree_root_node st = Some root ->
  (forall p node i j a b,
     tree_node_at p root = Some node -> (i < j)%nat ->
     tree_node_sub_nodes node !! i = Some a ->
     tree_node_sub_nodes node !! j = Some b ->
     exists da db,
       libcdata_tree_node_get_value a = Some da
       /\ libcdata_tree_node_get_value b = Some db
       /\ descriptor_identifier da < descriptor_identifier db)
  /\ (forall st0 d st1,
        create_root_folder_node st0 d = Ok st1 ->
        item_tree_root_node st1 = item_tree_root_node st0
        \/ exists root1,
             libcdata_tree_node_insert_node (item_tree_root_node st0)
               (item_tree_node_of d) = Ret1 root1
             /\ item_tree_root_node st1 = Some root1)
  /\ (forall st0 d parent_search st1,
        attach_item_descriptor st0 d parent_search = Ok st1 ->
        item_tree_root_node st1 = item_tree_root_node st0
        \/ exists parent_node root0 parent1,
             parent_search = Ret1 parent_node
             /\ item_tree_root_node st0 = Some root0
             /\ libcdata_tree_node_insert_value
                  (tree_node_at parent_node root0) d = Ret1 parent1
             /\ item_tree_root_node st1
                = Some (tree_node_store parent_node parent1 root0)).
Proof.
  intros Hcreate Hroot. split; [|split].
  - apply libpff_item_tree_create_building, building_ok in Hcreate
      as (root0 & Hroot0 & Hok & _).
    rewrite Hroot in Hroot0. injection Hroot0 as <-.
    intros p node i j a b Hp Hij Ha Hb.
    pose proof (tree_ok_at _ _ _ Hok Hp) as Hnode.
    destruct Hnode as [value sub_nodes _ Hasc _]. simpl in Ha, Hb.
    exact (strictly_ascending_lookup _ _ _ _ _ Hasc Hij Ha Hb).
  - intros st0 d st1 H.
    apply create_root_folder_node_tree in H
      as [_ [[-> _]|(root1 & Hins & Hroot1 & _)]]; eauto.
  - intros st0 d r st1 H.
    apply attach_item_descriptor_tree in H
      as [_ [(_ & Htree & _)|[(p & root0 & _ & _ & _ & ->)
                             |(p & root0 & parent' & Hr & Hroot0 & Hins
                               & Hroot' & _)]]].
    + left. unfold item_tree_root_node. rewrite Htree. reflexivity.
    + left. reflexivity.
    + right. eauto 10.
Qed.

Lemma s1_create : fresh_create s1_index = Some (Ok s1_state).
Proof. vm_compute. reflexivity. Qed.

Lemma built_tree_sub_nodes_ascending_witness :
  exists da db,
    libcdata_tree_node_get_value
      (TreeNode (Some (libpff_item_descriptor_initialize 2 0 0 0))
         [TreeNode (Some (libpff_item_descriptor_initialize 4 0 0 0)) []])
    = Some da
    /\ libcdata_tree_node_get_value
         (TreeNode (Some (libpff_item_descriptor_initialize 3 0 0 0)) [])
       = Some db
    /\ descriptor_identifier da < descriptor_identifier db.
Proof.
  refine (proj1 (built_tree_sub_nodes_ascending s1_index
                   (Some libpff_item_tree_initialize) [] (Some None)
                   s1_state _ _ _) [0%nat] _ 0%nat 1%nat _ _ _ _ _ _).
  - vm_compute. reflexivity.
  - reflexivity.
  - reflexivity.
  - lia.
  - reflexivity.
  - reflexivity.
Defined.

Lemma get_tree_node_by_identifier_RetErr t identifier depth e :
  0 <= depth ->
  get_tree_node_by_identifier t identifier (Some None) depth = RetErr e ->
  (e = LIBCERROR_ARGUMENT_ERROR_VALUE_OUT_OF_BOUNDS
   /\ exists q m, tree_node_at q t = Some m
        /\ LIBPFF_MAXIMUM_ITEM_TREE_RECURSION_DEPTH
           < depth + Z.of_nat (length q))
  \/ (e = LIBCERROR_RUNTIME_ERROR_VALUE_MISSING
      /\ exists q m, tree_node_at q t = Some m
           /\ libcdata_tree_node_get_value m = None).
Proof.
  revert depth.
  induction t as [value sub_nodes IH] using libcdata_tree_node_ind.
  intros depth Hdepth H. rewrite get_tree_node_by_identifier_unfold in H.
  destruct (recursion_depth_out_of_bounds depth) eqn:Hb.
  { injection H as <-. left. split; [reflexivity|].
    exists [], (TreeNode value sub_nodes). split; [reflexivity|].
    unfold recursion_depth_out_of_bounds in Hb. simpl. lia. }
  destruct value as [d|].
  2:{ injection H as <-. right. split; [reflexivity|].
      exists [], (TreeNode None sub_nodes). auto. }
  destruct (descriptor_identifier d =? identifier); [discriminate|].
  apply traverse_sub_nodes_RetErr in H as (i & s & Hi & Hs).
  rewrite Forall_lookup in IH.
  destruct (IH i s Hi (depth + 1) ltac:(lia) Hs)
    as [[-> (q & m & Hq & Hlen)]|[-> (q & m & Hq & Hm)]].
  - left. split; [reflexivity|]. exists (i :: q), m.
    rewrite tree_node_at_cons, Hi. split; [exact Hq|]. simpl length. lia.
  - right. split; [reflexivity|]. exists (i :: q), m.
    rewrite tree_node_at_cons, Hi. auto.
Qed.

(** C10.  On an item tree that was initialised but not built, whose root
    node is NULL, the search fails for every identifier, 0 included, and
    whatever the output argument: it neither finds a node nor reports that
    there is none.  Conversely a search that returns 1 or 0 ran on a tree
    with a root node, and a successful build gives the tree one. *)
Theorem search_in_unbuilt_tree_fails :
  (forall item_identifier item_tree_node,
     libpff_item_tree_get_node_by_identifier
       (Some libpff_item_tree_initialize) item_identifier item_tree_node
     = RetErr LIBCERROR_ARGUMENT_ERROR_INVALID_VALUE)
  /\ (forall tree item_identifier item_tree_node,
        root_node tree = None ->
        libpff_item_tree_get_node_by_identifier (Some tree) item_identifier
          item_tree_node
        = RetErr LIBCERROR_ARGUMENT_ERROR_INVALID_VALUE)
  /\ (forall tree item_identifier item_tree_node,
        (libpff_item_tree_get_node_by_identifier (Some tree) item_identifier
           item_tree_node = Ret0
         \/ exists p,
              libpff_item_tree_get_node_by_identifier (Some tree)
                item_identifier item_tree_node = Ret1 p) ->
        root_node tree <> None)
  /\ (forall (N : Type) (descriptors_index : libpff_descriptors_index_t N)
        tree orphans root_folder st,
        libpff_item_tree_create descriptors_index tree orphans root_folder
        = Some (Ok st) ->
        item_tree_root_node st <> None).
Proof.
  assert (Hnull : forall tree item_identifier item_tree_node,
             root_node tree = None ->
             libpff_item_tree_get_node_by_identifier (Some tree)
               item_identifier item_tree_node
             = RetErr LIBCERROR_ARGUMENT_ERROR_INVALID_VALUE).
  { intros tree id out H. unfold libpff_item_tree_get_node_by_identifier.
    rewrite H. reflexivity. }
  split; [|split; [|split]].
  - intros id out. apply Hnull. reflexivity.
  - exact Hnull.
  - intros tree id out H Hroot. rewrite (Hnull _ id out Hroot) in H.
    destruct H as [H|[p H]]; discriminate.
  - intros N descriptors_index tree orphans rf st H.
    apply libpff_item_tree_create_building, building_ok in H
      as (root & -> & _). discriminate.
Qed.

Lemma search_in_unbuilt_tree_fails_witness :
  libpff_item_tree_get_node_by_identifier (Some libpff_item_tree_initialize)
    7 (Some None)
  = RetErr LIBCERROR_ARGUMENT_ERROR_INVALID_VALUE.
Proof.
  exact (proj1 (proj2 search_in_unbuilt_tree_fails)
           libpff_item_tree_initialize 7 (Some None) eq_refl).
Defined.




(** C7, as stated, fails: the build on the chain of 257 leaves succeeds,
    its tree holds a node with identifier 257, at the end of the path of
    257 steps, and the search for 257 in that tree fails. *)
Lemma search_misses_node_below_recursion_bound :
  fresh_create (chain_index 257) = Some (Ok (chain_state 257))
  /\ (exists n,
        tree_node_at (repeat 0%nat 257) (chain_node 257 0) = Some n
        /\ has_identifier 257 n)
  /\ libpff_item_tree_get_node_by_identifier (item_tree (chain_state 257))
       257 (Some None)
     = RetErr LIBCERROR_ARGUMENT_ERROR_VALUE_OUT_OF_BOUNDS.
Proof.
  split; [vm_compute; reflexivity|]. split.
  - exists (chain_node 0 257). split; [vm_compute; reflexivity|].
    exists (libpff_item_descriptor_initialize 257 0 0 0). split; reflexivity.
  - vm_compute. reflexivity.
Qed.

(** C7, amended.  On the tree of a successful build the search starts at
    the root node and goes through the nodes depth first, in pre-order.
    The search for identifier 0 returns the root node itself.  A search
    that returns 1 returns the first node, in pre-order, that carries the
    searched identifier.  A search fails only with the out of bounds
    error, and only when the tree has a node more than
    [LIBPFF_MAXIMUM_ITEM_TREE_RECURSION_DEPTH] levels below the root.
    When no node lies that deep, the search for an identifier that a node
    of the tree carries returns the first such node in pre-order. *)
Theorem search_returns_first_in_preorder {N : Type}
    (descriptors_index : libpff_descriptors_index_t N)
    tree orphans root_folder st :
  libpff_item_tree_create descriptors_index tree orphans root_folder
  = Some (Ok st) ->
  exists root,
    item_tree_root_node st = Some root
    /\ libpff_item_tree_get_node_by_identifier (item_tree st) 0 (Some None)
       = Ret1 []
    /\ tree_node_at [] root = Some root
    /\ (forall item_identifier p,
          libpff_item_tree_get_node_by_identifier (item_tree st)
            item_identifier (Some None) = Ret1 p ->
          first_in_preorder item_identifier root p)
    /\ (forall item_identifier e,
          libpff_item_tree_get_node_by_identifier (item_tree st)
            item_identifier (Some None) = RetErr e ->
          e = LIBCERROR_ARGUMENT_ERROR_VALUE_OUT_OF_BOUNDS
          /\ exists q m,
               tree_node_at q root = Some m
               /\ LIBPFF_MAXIMUM_ITEM_TREE_RECURSION_DEPTH
                  < Z.of_nat (length q))
    /\ ((forall q m, tree_node_at q root = Some m ->
           Z.of_nat (length q) <= LIBPFF_MAXIMUM_ITEM_TREE_RECURSION_DEPTH) ->
        forall item_identifier q m,
          tree_node_at q root = Some m -> has_identifier item_identifier m ->
          exists p n,
            libpff_item_tree_get_node_by_identifier (item_tree st)
              item_identifier (Some None) = Ret1 p
            /\ first_in_preorder item_identifier root p
            /\ tree_node_at p root = Some n
            /\ has_identifier item_identifier n).
Proof.
  intros Hcreate.
  apply libpff_item_tree_create_building, building_ok in Hcreate
    as (root & Hroot & Hok & Hvalue).
  exists root. split; [exact Hroot|].
  assert (Hfind : forall id,
             libpff_item_tree_get_node_by_identifier (item_tree st) id
               (Some None)
             = get_tree_node_by_identifier root id (Some None) 0).
  { intros id. unfold item_tree_root_node in Hroot.
    destruct (item_tree st) as [t|]; [|discriminate].
    unfold libpff_item_tree_get_node_by_identifier,
      libpff_item_tree_get_tree_node_by_identifier.
    rewrite Hroot. reflexivity. }
  assert (Hvalues : forall q m, tree_node_at q root = Some m ->
             is_Some (libcdata_tree_node_get_value m)).
  { intros q m Hq. destruct (tree_ok_at _ _ _ Hok Hq). assumption. }
  split; [|split; [reflexivity|split; [|split]]].
  - rewrite Hfind. destruct root as [value sub_nodes]. simpl in Hvalue.
    subst value. reflexivity.
  - intros id p H. rewrite Hfind in H.
    apply get_tree_node_by_identifier_Ret1 in H. tauto.
  - intros id e H. rewrite Hfind in H.
    apply get_tree_node_by_identifier_RetErr in H; [|lia].
    destruct H as [[-> (q & m & Hq & Hlen)]|[_ (q & m & Hq & Hm)]].
    + split; [reflexivity|]. exists q, m. split; [exact Hq|]. lia.
    + destruct (Hvalues q m Hq) as [d Hd]. congruence.
  - intros Hdepth id q m Hq Hm.
    destruct (get_tree_node_by_identifier_complete root id) as (p & Hp & Hfirst).
    { intros q' m' Hq'. split; eauto. }
    { eauto. }
    destruct Hfirst as [(n & Hn & Hid) Hbefore].
    exists p, n. rewrite Hfind. repeat split; eauto.
Qed.

Lemma search_returns_first_in_preorder_witness :
  exists p n,
    libpff_item_tree_get_node_by_identifier (item_tree s1_state) 4
      (Some None) = Ret1 p
    /\ item_tree_root_node s1_state ≫= tree_node_at p = Some n
    /\ has_identifier 4 n.
Proof.
  destruct (search_returns_first_in_preorder s1_index
              (Some libpff_item_tree_initialize) [] (Some None) s1_state)
    as (root & Hroot & _ & _ & _ & _ & Hfound).
  { vm_compute. reflexivity. }
  injection Hroot as <-.
  destruct (Hfound
              ltac:(intros q m Hq; apply tree_node_at_height in Hq;
                    unfold LIBPFF_MAXIMUM_ITEM_TREE_RECURSION_DEPTH;
                    simpl in Hq; lia)
              4 [0; 0; 0]%nat (chain_node 0 4) eq_refl
              ltac:(eexists; split; reflexivity))
    as (p & n & Hp & _ & Hn & Hid).
  exists p, n. split; [exact Hp|]. split; [exact Hn|exact Hid].
Defined.

(** ** Unfolding the builder at a recursion depth within bounds *)

Section builder_steps.
Context {N : Type} (descriptors_index : libpff_descriptors_index_t N).

Local Abbreviation create_node :=
  (libpff_item_tree_create_node descriptors_index).
Local Abbreviation create_leaf_node :=
  (libpff_item_tree_create_leaf_node descriptors_index).
Local Abbreviation sub_nodes_loop := (create_sub_nodes descriptors_index).

Lemma create_sub_nodes_S
    (rec : create_state -> N -> option (result create_state))
    node remaining i st :
  sub_nodes_loop rec node (S remaining) i st
  = match libfdata_tree_node_get_sub_node_by_index descriptors_index node i
    with
    | Err e => Some (Err e)
    | Ok sub =>
        match rec st sub with
        | Some (Ok st') => sub_nodes_loop rec node remaining (i + 1) st'
        | failure => failure
        end
    end.
Proof. reflexivity. Qed.

Lemma create_node_callable fuel st n depth :
  callable st depth ->
  create_node (S fuel) st n depth
  = match libfdata_tree_node_get_number_of_sub_nodes descriptors_index n with
    | Err _ => Some (Ok st)
    | Ok number_of_sub_nodes =>
        match libfdata_tree_node_is_deleted descriptors_index n with
        | Err e => Some (Err e)
        | Ok true => Some (Ok st)
        | Ok false =>
            match libfdata_tree_node_is_leaf descriptors_index n with
            | Err e => Some (Err e)
            | Ok true => create_leaf_node fuel st n depth
            | Ok false =>
                sub_nodes_loop
                  (fun st' sub => create_node fuel st' sub (depth + 1))
                  n (Z.to_nat number_of_sub_nodes) 0 st
            end
        end
    end.
Proof.
  intros ([tree Htree] & [rf Hrf] & Hdepth). simpl.
  rewrite Htree, Hrf, in_bounds_intro by exact Hdepth. reflexivity.
Qed.

Lemma create_leaf_node_callable fuel st n depth :
  callable st depth ->
  create_leaf_node (S fuel) st n depth
  = match libfdata_tree_node_get_node_value descriptors_index n with
    | Err e => Some (Err e)
    | Ok None => Some (Err LIBCERROR_RUNTIME_ERROR_VALUE_MISSING)
    | Ok (Some v) =>
        if index_value.identifier v >? UINT32_MAX
        then Some (Err LIBCERROR_RUNTIME_ERROR_VALUE_EXCEEDS_MAXIMUM)
        else if uint32_cast (index_value.identifier v)
                =? index_value.parent_identifier v
        then Some (create_root_folder_node st (leaf_item_descriptor v))
        else
          match libpff_item_tree_get_tree_node_by_identifier
                  (item_tree_root_node st) (index_value.parent_identifier v)
                  (Some None) 0 with
          | Ret0 =>
              match libpff_index_tree_get_leaf_node_by_identifier
                      descriptors_index (index_value.parent_identifier v) with
              | Ret1 None => Some (Err LIBCERROR_RUNTIME_ERROR_VALUE_MISSING)
              | Ret1 (Some parent) =>
                  match create_node fuel st parent (depth + 1) with
                  | Some (Ok st') =>
                      Some
                        (attach_item_descriptor st' (leaf_item_descriptor v)
                           (libpff_item_tree_get_tree_node_by_identifier
                              (item_tree_root_node st')
                              (index_value.parent_identifier v) (Some None) 0))
                  | failure => failure
                  end
              | Ret0 =>
                  Some (attach_item_descriptor st (leaf_item_descriptor v) Ret0)
              | RetErr e => Some (Err e)
              end
          | parent_search =>
              Some
                (attach_item_descriptor st (leaf_item_descriptor v)
                   parent_search)
          end
    end.
Proof.
  intros ([tree Htree] & [rf Hrf] & Hdepth). simpl.
  rewrite Htree, Hrf, in_bounds_intro by exact Hdepth. reflexivity.
Qed.

Lemma create_out_of_bounds fuel st n depth :
  is_Some (item_tree st) -> is_Some (root_folder_item_tree_node st) ->
  LIBPFF_MAXIMUM_ITEM_TREE_RECURSION_DEPTH < depth ->
  create_node (S fuel) st n depth
  = Some (Err LIBCERROR_ARGUMENT_ERROR_VALUE_OUT_OF_BOUNDS)
  /\ create_leaf_node (S fuel) st n depth
     = Some (Err LIBCERROR_ARGUMENT_ERROR_VALUE_OUT_OF_BOUNDS).
Proof.
  intros [tree Htree] [rf Hrf] Hdepth. simpl. rewrite Htree, Hrf.
  assert (Hb : recursion_depth_out_of_bounds depth = true)
    by (unfold recursion_depth_out_of_bounds; lia).
  rewrite Hb. auto.
Qed.

Lemma item_tree_fuel_enough : enough_fuel_node item_tree_fuel 0.
Proof.
  unfold enough_fuel_node, item_tree_fuel,
    LIBPFF_MAXIMUM_ITEM_TREE_RECURSION_DEPTH. lia.
Qed.

Lemma libpff_item_tree_create_returns tree orphans rf :
  is_Some (libpff_item_tree_create descriptors_index tree orphans rf).
Proof.
  unfold libpff_item_tree_create.
  repeat (case_match_goal; eauto).
  apply create_returns, item_tree_fuel_enough.
Qed.
End builder_steps.

(** C3.  The three recursive routines carry a recursion depth.  Called
    with a depth above [LIBPFF_MAXIMUM_ITEM_TREE_RECURSION_DEPTH] each of
    them fails with the out of bounds error without a further call.
    Called with a depth from 0 up to the bound each of them proceeds, and
    every descent is a call at the depth plus one: the search into the sub
    nodes, the builder into the sub nodes of an index node, and the
    builder into the parent leaf that reading ahead has found.  Hence the
    build returns on every descriptors index, and a call at any depth
    returns as soon as the fuel covers the levels left up to the bound,
    with a result that more fuel does not change.  The search is a
    structural recursion on the tree. *)
Theorem recursion_depth_is_bounded {N : Type}
    (descriptors_index : libpff_descriptors_index_t N) :
  (forall node item_identifier out depth,
     LIBPFF_MAXIMUM_ITEM_TREE_RECURSION_DEPTH < depth ->
     libpff_item_tree_get_tree_node_by_identifier (Some node) item_identifier
       out depth
     = RetErr LIBCERROR_ARGUMENT_ERROR_VALUE_OUT_OF_BOUNDS)
  /\ (forall fuel st n depth,
        is_Some (item_tree st) -> is_Some (root_folder_item_tree_node st) ->
        LIBPFF_MAXIMUM_ITEM_TREE_RECURSION_DEPTH < depth ->
        libpff_item_tree_create_node descriptors_index (S fuel) st n depth
        = Some (Err LIBCERROR_ARGUMENT_ERROR_VALUE_OUT_OF_BOUNDS)
        /\ libpff_item_tree_create_leaf_node descriptors_index (S fuel) st n
             depth
           = Some (Err LIBCERROR_ARGUMENT_ERROR_VALUE_OUT_OF_BOUNDS))
  /\ (forall d sub_nodes item_identifier out depth,
        0 <= depth <= LIBPFF_MAXIMUM_ITEM_TREE_RECURSION_DEPTH ->
        libpff_item_tree_get_tree_node_by_identifier
          (Some (TreeNode (Some d) sub_nodes)) item_identifier out depth
        = if descriptor_identifier d =? item_identifier
          then
            match output_error out with
            | Some e => RetErr e
            | None => Ret1 []
            end
          else
            traverse_sub_nodes
              (fun s =>
                 get_tree_node_by_identifier s item_identifier out (depth + 1))
              0%nat sub_nodes)
  /\ (forall fuel st n depth number_of_sub_nodes,
        callable st depth ->
        libfdata_tree_node_get_number_of_sub_nodes descriptors_index n
        = Ok number_of_sub_nodes ->
        libfdata_tree_node_is_deleted descriptors_index n = Ok false ->
        libfdata_tree_node_is_leaf descriptors_index n = Ok false ->
        libpff_item_tree_create_node descriptors_index (S fuel) st n depth
        = create_sub_nodes descriptors_index
            (fun st' sub =>
               libpff_item_tree_create_node descriptors_index fuel st' sub
                 (depth + 1))
            n (Z.to_nat number_of_sub_nodes) 0 st)
  /\ (forall fuel st n depth v parent,
        callable st depth ->
        libfdata_tree_node_get_node_value descriptors_index n = Ok (Some v) ->
        index_value.identifier v <= UINT32_MAX ->
        uint32_cast (index_value.identifier v)
        <> index_value.parent_identifier v ->
        libpff_item_tree_get_tree_node_by_identifier (item_tree_root_node st)
          (index_value.parent_identifier v) (Some None) 0 = Ret0 ->
        libpff_index_tree_get_leaf_node_by_identifier descriptors_index
          (index_value.parent_identifier v) = Ret1 (Some parent) ->
        libpff_item_tree_create_leaf_node descriptors_index (S fuel) st n
          depth
        = match libpff_item_tree_create_node descriptors_index fuel st
                  parent (depth + 1) with
          | Some (Ok st') =>
              Some
                (attach_item_descriptor st' (leaf_item_descriptor v)
                   (libpff_item_tree_get_tree_node_by_identifier
                      (item_tree_root_node st')
                      (index_value.parent_identifier v) (Some None) 0))
          | failure => failure
          end)
  /\ (forall tree orphans root_folder,
        is_Some
          (libpff_item_tree_create descriptors_index tree orphans
             root_folder))
  /\ (forall fuel fuel' st n depth,
        enough_fuel_node fuel depth -> (fuel <= fuel')%nat ->
        is_Some
          (libpff_item_tree_create_node descriptors_index fuel st n depth)
        /\ libpff_item_tree_create_node descriptors_index fuel' st n depth
           = libpff_item_tree_create_node descriptors_index fuel st n depth).
Proof.
  repeat match goal with |- _ /\ _ => split end.
  - intros [value sub_nodes] id out depth Hdepth.
    unfold libpff_item_tree_get_tree_node_by_identifier.
    rewrite get_tree_node_by_identifier_unfold.
    assert (Hb : recursion_depth_out_of_bounds depth = true)
      by (unfold recursion_depth_out_of_bounds; lia).
    rewrite Hb. reflexivity.
  - intros fuel st n depth. apply create_out_of_bounds.
  - intros d sub_nodes id out depth Hdepth.
    unfold libpff_item_tree_get_tree_node_by_identifier.
    rewrite get_tree_node_by_identifier_unfold, in_bounds_intro
      by exact Hdepth.
    destruct out as [[?|]|]; reflexivity.
  - intros fuel st n depth count Hcall Hcount Hdeleted Hleaf.
    rewrite create_node_callable, Hcount, Hdeleted, Hleaf by exact Hcall.
    reflexivity.
  - intros fuel st n depth v parent Hcall Hv Hmax Hne Hsearch Hlookup.
    rewrite create_leaf_node_callable, Hv, Hsearch, Hlookup by exact Hcall.
    replace (index_value.identifier v >? UINT32_MAX) with false by lia.
    apply Z.eqb_neq in Hne. rewrite Hne. reflexivity.
  - apply libpff_item_tree_create_returns.
  - intros fuel fuel' st n depth Hfuel Hle.
    destruct (proj1 (create_returns descriptors_index fuel) st n depth Hfuel)
      as [r Hr].
    split; [eauto|]. rewrite Hr.
    eapply create_node_fuel_le; eauto.
Qed.

Lemma cyclic_index_create :
  fresh_create cyclic_index
  = Some (Err LIBCERROR_ARGUMENT_ERROR_VALUE_OUT_OF_BOUNDS).
Proof. vm_compute. reflexivity. Qed.

(** Scenario S6: on the chain of 300 leaves the build fails with the out
    of bounds error, raised by the search for the parent of leaf 258. *)
Lemma chain_300_create :
  fresh_create (chain_index 300)
  = Some (Err LIBCERROR_ARGUMENT_ERROR_VALUE_OUT_OF_BOUNDS)
  /\ fresh_create (chain_index 258)
     = Some (Err LIBCERROR_ARGUMENT_ERROR_VALUE_OUT_OF_BOUNDS).
Proof. split; vm_compute; reflexivity. Qed.

Lemma recursion_depth_is_bounded_witness :
  libpff_item_tree_get_tree_node_by_identifier (Some synthetic_root) 0
    (Some None) 257
  = RetErr LIBCERROR_ARGUMENT_ERROR_VALUE_OUT_OF_BOUNDS
  /\ libpff_item_tree_get_tree_node_by_identifier (Some synthetic_root) 0
       (Some None) 256
     = Ret1 []
  /\ is_Some (fresh_create cyclic_index).
Proof.
  destruct (recursion_depth_is_bounded cyclic_index)
    as (Hover & _ & Hwithin & _ & _ & Hreturns & _).
  split; [|split].
  - apply Hover. unfold LIBPFF_MAXIMUM_ITEM_TREE_RECURSION_DEPTH. lia.
  - apply (Hwithin (libpff_item_descriptor_initialize 0 0 0 0) [] 0
             (Some None) 256).
    unfold LIBPFF_MAXIMUM_ITEM_TREE_RECURSION_DEPTH. lia.
  - apply Hreturns.
Defined.

(** ** Two indexes that give the same answers *)

Section determinism.
Context {N1 N2 : Type} (R : N1 -> N2 -> Prop).
Context (index1 : libpff_descriptors_index_t N1).
Context (index2 : libpff_descriptors_index_t N2).
Hypothesis Hsame : same_index R index1 index2.

Lemma create_sub_nodes_same
    (rec1 : create_state -> N1 -> option (result create_state))
    (rec2 : create_state -> N2 -> option (result create_state))
    n1 n2 remaining i st :
  (forall st m1 m2, R m1 m2 -> rec1 st m1 = rec2 st m2) ->
  R n1 n2 ->
  create_sub_nodes index1 rec1 n1 remaining i st
  = create_sub_nodes index2 rec2 n2 remaining i st.
Proof.
  intros Hrec Hn. revert i st.
  induction remaining as [|remaining IH]; intros i st; simpl.
  - reflexivity.
  - destruct (same_sub_node_by_index R _ _ Hsame n1 n2 i Hn) as [m1 m2 Hm|e].
    + rewrite (Hrec st m1 m2 Hm).
      destruct (rec2 st m2) as [[st'|e]|]; auto.
    + reflexivity.
Qed.

Lemma create_same fuel :
  (forall st n1 n2 depth, R n1 n2 ->
     libpff_item_tree_create_node index1 fuel st n1 depth
     = libpff_item_tree_create_node index2 fuel st n2 depth)
  /\ (forall st n1 n2 depth, R n1 n2 ->
        libpff_item_tree_create_leaf_node index1 fuel st n1 depth
        = libpff_item_tree_create_leaf_node index2 fuel st n2 depth).
Proof.
  induction fuel as [|fuel [IHnode IHleaf]]; [split; reflexivity|].
  split; intros st n1 n2 depth Hn; simpl.
  - pose proof (same_number_of_sub_nodes R _ _ Hsame n1 n2 Hn) as Hprobe.
    rewrite (same_is_deleted R _ _ Hsame n1 n2 Hn),
      (same_is_leaf R _ _ Hsame n1 n2 Hn).
    destruct (item_tree st); [|reflexivity].
    destruct (root_folder_item_tree_node st); [|reflexivity].
    destruct (recursion_depth_out_of_bounds depth); [reflexivity|].
    destruct (libfdata_tree_node_get_number_of_sub_nodes index1 n1)
      as [count1|e1],
      (libfdata_tree_node_get_number_of_sub_nodes index2 n2) as [count2|e2];
      simpl in Hprobe; try contradiction; [subst count2|reflexivity].
    destruct (libfdata_tree_node_is_deleted index2 n2) as [[|]|e];
      try reflexivity.
    destruct (libfdata_tree_node_is_leaf index2 n2) as [[|]|e];
      try reflexivity.
    + apply IHleaf. exact Hn.
    + apply create_sub_nodes_same; [|exact Hn].
      intros st' m1 m2 Hm. apply IHnode. exact Hm.
  - rewrite (same_node_value R _ _ Hsame n1 n2 Hn).
    destruct (item_tree st); [|reflexivity].
    destruct (root_folder_item_tree_node st); [|reflexivity].
    destruct (recursion_depth_out_of_bounds depth); [reflexivity|].
    destruct (libfdata_tree_node_get_node_value index2 n2) as [[v|]|e];
      try reflexivity.
    destruct (index_value.identifier v >? UINT32_MAX); [reflexivity|].
    destruct (_ =? _); [reflexivity|].
    destruct (libpff_item_tree_get_tree_node_by_identifier _ _ _ _);
      try reflexivity.
    destruct (same_leaf_node_by_identifier R _ _ Hsame
                (index_value.parent_identifier v))
      as [p1 p2 [m1 m2 Hm|]| |e]; try reflexivity.
    rewrite (IHnode st m1 m2 (depth + 1) Hm). reflexivity.
Qed.

Lemma libpff_item_tree_create_same tree orphans root_folder :
  libpff_item_tree_create index1 tree orphans root_folder
  = libpff_item_tree_create index2 tree orphans root_folder.
Proof.
  unfold libpff_item_tree_create.
  destruct tree as [tree|]; [|reflexivity].
  destruct (root_node tree); [reflexivity|].
  destruct (same_root_node R _ _ Hsame) as [r1 r2 Hr|e]; [|reflexivity].
  apply create_same. exact Hr.
Qed.
End determinism.


Lemma unreadable_index_create :
  fresh_create unreadable_index
  = Some (Ok {| item_tree := Some {| root_node := Some (chain_node 2 0) |};
                orphan_node_list := [];
                root_folder_item_tree_node :=
                  Some (Some (libpff_item_descriptor_initialize 1 0 0 0)) |}).
Proof. vm_compute. reflexivity. Qed.


(** ** The root folder node during a build *)

Section root_folder.
Context {N : Type} (descriptors_index : libpff_descriptors_index_t N).

(** Once set, the root folder node stays as it is. *)
Lemma root_folder_set_preserved fuel st n depth st' d :
  root_folder_item_tree_node st = Some (Some d) ->
  libpff_item_tree_create_node descriptors_index fuel st n depth
  = Some (Ok st') ->
  root_folder_item_tree_node st' = Some (Some d).
Proof.
  apply (create_node_preserves descriptors_index
           (fun s => root_folder_item_tree_node s = Some (Some d))).
  - intros st0 n0 v st1 Hset _ _ H. unfold create_root_folder_node in H.
    rewrite Hset in H. discriminate.
  - intros st0 d0 r st1 Hset H.
    apply attach_item_descriptor_tree in H as [-> _]. exact Hset.
Qed.

(** Without a leaf that is its own parent the root folder node stays
    unset. *)
Lemma root_folder_unset_preserved fuel st n depth st' :
  (forall m w,
     libfdata_tree_node_get_node_value descriptors_index m = Ok (Some w) ->
     uint32_cast (index_value.identifier w)
     <> index_value.parent_identifier w) ->
  root_folder_item_tree_node st = Some None ->
  libpff_item_tree_create_node descriptors_index fuel st n depth
  = Some (Ok st') ->
  root_folder_item_tree_node st' = Some None.
Proof.
  intros Hnone.
  apply (create_node_preserves descriptors_index
           (fun s => root_folder_item_tree_node s = Some None)).
  - intros st0 n0 v st1 _ Hv Heq _. destruct (Hnone n0 v Hv Heq).
  - intros st0 d0 r st1 Hunset H.
    apply attach_item_descriptor_tree in H as [-> _]. exact Hunset.
Qed.
End root_folder.

(** ** Indexes whose leaves are all orphans *)

Scheme orphan_walk_mut := Induction for orphan_walk Sort Prop
  with orphan_walk_sub_nodes_mut := Induction for orphan_walk_sub_nodes
    Sort Prop.

Section orphan_walk_facts.
Context {N : Type} (descriptors_index : libpff_descriptors_index_t N).

Lemma with_orphans_nil st : with_orphans st [] = st.
Proof.
  destruct st. unfold with_orphans. simpl. rewrite app_nil_r. reflexivity.
Qed.

Lemma with_orphans_app st l1 l2 :
  with_orphans (with_orphans st l1) l2 = with_orphans st (l1 ++ l2).
Proof. unfold with_orphans. simpl. rewrite app_assoc. reflexivity. Qed.

Lemma search_synthetic_root_Ret0 identifier :
  identifier <> 0 ->
  libpff_item_tree_get_tree_node_by_identifier (Some synthetic_root)
    identifier (Some None) 0 = Ret0.
Proof.
  intros H. unfold libpff_item_tree_get_tree_node_by_identifier,
    synthetic_root, item_tree_node_of.
  simpl libcdata_tree_node_set_value.
  rewrite get_tree_node_by_identifier_unfold. simpl.
  destruct identifier; [contradiction|reflexivity|reflexivity].
Qed.

(** The build of such an index from a state whose item tree is the root
    node alone: it returns 1, and the state differs by the orphans of the
    walk. *)
Lemma orphan_walk_create n depth l :
  orphan_walk descriptors_index n depth l ->
  forall fuel st,
    enough_fuel_node fuel depth ->
    callable st depth ->
    item_tree_root_node st = Some synthetic_root ->
    libpff_item_tree_create_node descriptors_index fuel st n depth
    = Some (Ok (with_orphans st l)).
Proof.
  intros Hwalk.
  induction Hwalk using orphan_walk_mut with
    (P0 := fun n depth remaining i l _ =>
       forall fuel st,
         enough_fuel_node fuel (depth + 1) ->
         callable st (depth + 1) ->
         item_tree_root_node st = Some synthetic_root ->
         create_sub_nodes descriptors_index
           (fun st' sub =>
              libpff_item_tree_create_node descriptors_index fuel st' sub
                (depth + 1))
           n remaining i st
         = Some (Ok (with_orphans st l)));
    intros fuel st Hfuel Hcall Hroot.
  - destruct fuel as [|fuel]; [destruct Hfuel; lia|].
    rewrite create_node_callable by exact Hcall.
    rewrite e0, with_orphans_nil. reflexivity.
  - destruct fuel as [|fuel]; [destruct Hfuel; lia|].
    rewrite create_node_callable by exact Hcall.
    rewrite e, e0, with_orphans_nil. reflexivity.
  - destruct Hcall as (Htree & Hrf & Hdepth).
    destruct fuel as [|[|fuel]]; try (destruct Hfuel as [? Hf]; lia).
    rewrite create_node_callable by (split; auto).
    rewrite e, e0, e1.
    rewrite create_leaf_node_callable by (split; auto).
    rewrite e2, Hroot, search_synthetic_root_Ret0, e3 by assumption.
    replace (index_value.identifier v >? UINT32_MAX) with false by lia.
    apply Z.eqb_neq in n0. rewrite n0. reflexivity.
  - destruct Hcall as (Htree & Hrf & Hdepth).
    destruct fuel as [|fuel]; [destruct Hfuel; lia|].
    rewrite create_node_callable by (split; auto).
    rewrite e, e0, e1. apply IHHwalk.
    + destruct Hfuel as [_ Hf]. split; lia.
    + split; [exact Htree|split; [exact Hrf|lia]].
    + exact Hroot.
  - simpl. rewrite with_orphans_nil. reflexivity.
  - rewrite create_sub_nodes_S, e.
    rewrite (IHHwalk fuel st Hfuel Hcall Hroot).
    rewrite IHHwalk0; [rewrite with_orphans_app; reflexivity|exact Hfuel| |].
    + destruct Hcall as (Htree & Hrf & Hdepth). split; [exact Htree|].
      split; [exact Hrf|exact Hdepth].
    + exact Hroot.
Qed.

Lemma orphan_walk_fresh_create root l :
  libpff_index_tree_get_root_node descriptors_index = Ok root ->
  orphan_walk descriptors_index root 0 l ->
  fresh_create descriptors_index
  = Some (Ok {| item_tree := Some {| root_node := Some synthetic_root |};
                orphan_node_list := l;
                root_folder_item_tree_node := Some None |}).
Proof.
  intros Hroot Hwalk. unfold fresh_create, libpff_item_tree_create.
  unfold libpff_item_tree_initialize. cbn [root_node]. rewrite Hroot.
  erewrite orphan_walk_create; [reflexivity|exact Hwalk| | |reflexivity].
  - apply item_tree_fuel_enough.
  - unfold callable, LIBPFF_MAXIMUM_ITEM_TREE_RECURSION_DEPTH. simpl.
    split; [eauto|split; [eauto|lia]].
Qed.
End orphan_walk_facts.


Lemma s5_create :
  fresh_create s5_index
  = Some
      (Ok {| item_tree := Some {| root_node := Some synthetic_root |};
             orphan_node_list :=
               [TreeNode (Some (libpff_item_descriptor_initialize 20 0 0 0)) [];
                TreeNode (Some (libpff_item_descriptor_initialize 10 0 0 0)) [];
                TreeNode (Some (libpff_item_descriptor_initialize 20 0 0 0)) []];
             root_folder_item_tree_node := Some None |}).
Proof. vm_compute. reflexivity. Qed.

Lemma orphans_index_walk :
  orphan_walk orphans_index
    (index_branch [index_leaf 7 99; index_leaf 8 98]) 0
    [chain_node 0 7; chain_node 0 8].
Proof.
  apply (orphan_walk_branch _ _ _ 2); try reflexivity.
  { unfold LIBPFF_MAXIMUM_ITEM_TREE_RECURSION_DEPTH. lia. }
  apply (orphan_walk_sub_nodes_next _ _ _ _ _ (index_leaf 7 99)
           [chain_node 0 7] [chain_node 0 8]); [reflexivity| |].
  { apply (orphan_walk_leaf _ _ _ 0
             {| index_value.identifier := 7;
                index_value.parent_identifier := 99;
                index_value.data_identifier := 0;
                index_value.local_descriptors_identifier := 0 |});
      try reflexivity; try (unfold UINT32_MAX; simpl; lia).
    vm_compute. discriminate. }
  apply (orphan_walk_sub_nodes_next _ _ _ _ _ (index_leaf 8 98)
           [chain_node 0 8] []); [reflexivity| |].
  { apply (orphan_walk_leaf _ _ _ 0
             {| index_value.identifier := 8;
                index_value.parent_identifier := 98;
                index_value.data_identifier := 0;
                index_value.local_descriptors_identifier := 0 |});
      try reflexivity; try (unfold UINT32_MAX; simpl; lia).
    vm_compute. discriminate. }
  apply orphan_walk_sub_nodes_done.
Defined.


(** C5, as stated, fails: this build meets two leaves that are their own
    parents and succeeds.  The node of the first one is not inserted,
    because the item tree root already has a sub node with identifier 5,
    so the root folder node is unset when the second one arrives. *)
Lemma second_self_parented_leaf_accepted :
  fresh_create two_roots_index
  = Some
      (Ok {| item_tree :=
               Some {| root_node :=
                 Some (TreeNode
                         (Some (libpff_item_descriptor_initialize 0 0 0 0))
                         [TreeNode
                            (Some (libpff_item_descriptor_initialize 5 0 0 0))
                            [];
                          TreeNode
                            (Some (libpff_item_descriptor_initialize 6 0 0 0))
                            []]) |};
             orphan_node_list := [];
             root_folder_item_tree_node :=
               Some (Some (libpff_item_descriptor_initialize 6 0 0 0)) |}).
Proof. vm_compute. reflexivity. Qed.

(** A leaf that is its own parent and that reading ahead has already
    turned into the root folder node is rejected when the walk reaches
    it. *)
Lemma root_folder_read_ahead_create :
  fresh_create (index_of (index_branch [index_leaf 2 1; index_leaf 1 1]))
  = Some (Err LIBCERROR_RUNTIME_ERROR_VALUE_ALREADY_SET).
Proof. vm_compute. reflexivity. Qed.

(** C5, amended.  For a leaf that is its own parent:
    [libpff_item_tree_create_leaf_node] fails with the value already set
    error exactly when the root folder node is set, and then
    [libpff_item_tree_create_node] on that leaf fails with it, as does the
    loop over the sub nodes it is called from.  When the root folder node
    is unset, the node of the leaf is inserted under the item tree root
    and becomes the root folder node, unless the insertion returns 0
    because a sub node with its identifier is there: then the state is
    unchanged and the call returns 1.  A root folder node that is set is
    left as it is by every successful call. *)
Theorem root_folder_set_at_most_once {N : Type}
    (descriptors_index : libpff_descriptors_index_t N)
    fuel st n depth v :
  building descriptors_index st ->
  callable st depth ->
  libfdata_tree_node_get_node_value descriptors_index n = Ok (Some v) ->
  index_value.identifier v <= UINT32_MAX ->
  uint32_cast (index_value.identifier v) = index_value.parent_identifier v ->
  (libpff_item_tree_create_leaf_node descriptors_index (S fuel) st n depth
   = Some (Err LIBCERROR_RUNTIME_ERROR_VALUE_ALREADY_SET)
   <-> exists d, root_folder_item_tree_node st = Some (Some d))
  /\ (forall d number_of_sub_nodes,
        root_folder_item_tree_node st = Some (Some d) ->
        libfdata_tree_node_get_number_of_sub_nodes descriptors_index n
        = Ok number_of_sub_nodes ->
        libfdata_tree_node_is_deleted descriptors_index n = Ok false ->
        libfdata_tree_node_is_leaf descriptors_index n = Ok true ->
        libpff_item_tree_create_node descriptors_index (S (S fuel)) st n
          depth
        = Some (Err LIBCERROR_RUNTIME_ERROR_VALUE_ALREADY_SET)
        /\ forall parent remaining i,
             libfdata_tree_node_get_sub_node_by_index descriptors_index
               parent i = Ok n ->
             create_sub_nodes descriptors_index
               (fun st' sub =>
                  libpff_item_tree_create_node descriptors_index
                    (S (S fuel)) st' sub depth)
               parent (S remaining) i st
             = Some (Err LIBCERROR_RUNTIME_ERROR_VALUE_ALREADY_SET))
  /\ (root_folder_item_tree_node st = Some None ->
      exists st',
        libpff_item_tree_create_leaf_node descriptors_index (S fuel) st n
          depth = Some (Ok st')
        /\ ((st' = st
             /\ libcdata_tree_node_insert_node (item_tree_root_node st)
                  (item_tree_node_of (leaf_item_descriptor v)) = Ret0)
            \/ exists root',
                 libcdata_tree_node_insert_node (item_tree_root_node st)
                   (item_tree_node_of (leaf_item_descriptor v)) = Ret1 root'
                 /\ item_tree_root_node st' = Some root'
                 /\ root_folder_item_tree_node st'
                    = Some (Some (leaf_item_descriptor v))))
  /\ (forall fuel0 st0 m depth0 st1 d,
        root_folder_item_tree_node st0 = Some (Some d) ->
        libpff_item_tree_create_node descriptors_index fuel0 st0 m depth0
        = Some (Ok st1) ->
        root_folder_item_tree_node st1 = Some (Some d)).
Proof.
  intros Hbuilding Hcall Hv Hmax Hself.
  apply Z.eqb_eq in Hself.
  assert (Hle : (index_value.identifier v >? UINT32_MAX) = false) by lia.
  assert (Hleaf :
    libpff_item_tree_create_leaf_node descriptors_index (S fuel) st n depth
    = Some (create_root_folder_node st (leaf_item_descriptor v))).
  { rewrite create_leaf_node_callable, Hv, Hle, Hself by exact Hcall.
    reflexivity. }
  assert (Hset : forall d,
    root_folder_item_tree_node st = Some (Some d) ->
    create_root_folder_node st (leaf_item_descriptor v)
    = Err LIBCERROR_RUNTIME_ERROR_VALUE_ALREADY_SET).
  { intros d Hd. unfold create_root_folder_node. rewrite Hd. reflexivity. }
  repeat match goal with |- _ /\ _ => split end.
  - rewrite Hleaf. split.
    + intros H. apply Some_eq_inv in H.
      unfold create_root_folder_node in H.
      destruct (root_folder_item_tree_node st) as [[d|]|]; eauto;
        try discriminate.
      destruct (libcdata_tree_node_insert_node _ _); discriminate.
    + intros [d Hd]. rewrite (Hset d Hd). reflexivity.
  - intros d count Hd Hprobe Hdeleted Hisleaf.
    assert (Hnode :
      libpff_item_tree_create_node descriptors_index (S (S fuel)) st n depth
      = Some (Err LIBCERROR_RUNTIME_ERROR_VALUE_ALREADY_SET)).
    { rewrite create_node_callable, Hprobe, Hdeleted, Hisleaf by exact Hcall.
      rewrite create_leaf_node_callable, Hv, Hle, Hself by exact Hcall.
      rewrite (Hset d Hd). reflexivity. }
    split; [exact Hnode|].
    intros parent remaining i Hsub.
    etransitivity; [apply create_sub_nodes_S|].
    rewrite Hsub. cbv beta. rewrite Hnode. reflexivity.
  - intros Hunset. rewrite Hleaf.
    destruct (create_root_folder_node st (leaf_item_descriptor v))
      as [st'|e] eqn:Hroot.
    + exists st'. split; [reflexivity|].
      apply create_root_folder_node_tree in Hroot as [_ H]. exact H.
    + exfalso. unfold create_root_folder_node in Hroot.
      rewrite Hunset in Hroot.
      apply building_ok in Hbuilding as (root & Hr & Hok & _).
      rewrite Hr in Hroot.
      destruct (libcdata_tree_node_insert_node _ _) as [?| |e'] eqn:Hins;
        try discriminate.
      revert Hins. apply tree_ok_insert_node_no_error. exact Hok.
  - intros fuel0 st0 m depth0 st1 d. apply root_folder_set_preserved.
Qed.

Lemma s1_building : building s1_index s1_state.
Proof.
  apply (libpff_item_tree_create_building s1_index
           (Some libpff_item_tree_initialize) [] (Some None)).
  vm_compute. reflexivity.
Defined.

Lemma callable_1 st :
  is_Some (item_tree st) -> is_Some (root_folder_item_tree_node st) ->
  callable st 1.
Proof.
  intros Htree Hroot. unfold callable, LIBPFF_MAXIMUM_ITEM_TREE_RECURSION_DEPTH.
  split; [exact Htree|split; [exact Hroot|lia]].
Defined.

Lemma root_folder_set_at_most_once_witness :
  libpff_item_tree_create_leaf_node s1_index 1 s1_state (index_leaf 1 1) 1
  = Some (Err LIBCERROR_RUNTIME_ERROR_VALUE_ALREADY_SET).
Proof.
  refine (proj2 (proj1 (root_folder_set_at_most_once s1_index 0 s1_state
                          (index_leaf 1 1) 1
                          {| index_value.identifier := 1;
                             index_value.parent_identifier := 1;
                             index_value.data_identifier := 0;
                             index_value.local_descriptors_identifier := 0 |}
                          s1_building _ _ _ _)) _).
  - apply callable_1; simpl; eauto.
  - reflexivity.
  - unfold UINT32_MAX. simpl. lia.
  - reflexivity.
  - simpl. eauto.
Defined.

(** C6.  During a build, when the search finds the parent node of a leaf
    and a sub node of that parent already carries the identifier of the
    leaf, the sorted-unique insertion returns 0 and the call returns 1 in
    the state it was called in: the item tree, the orphan list and the
    root folder node are unchanged, the node inserted first stays and the
    new descriptor is dropped.  This holds when the parent is found at
    once and when it is found after reading ahead. *)
Theorem duplicate_child_is_discarded {N : Type}
    (descriptors_index : libpff_descriptors_index_t N)
    fuel st n depth v root parent_node parent sub d :
  building descriptors_index st ->
  is_Some (root_folder_item_tree_node st) ->
  0 <= depth <= LIBPFF_MAXIMUM_ITEM_TREE_RECURSION_DEPTH ->
  libfdata_tree_node_get_node_value descriptors_index n = Ok (Some v) ->
  index_value.identifier v <= UINT32_MAX ->
  uint32_cast (index_value.identifier v) <> index_value.parent_identifier v ->
  item_tree_root_node st = Some root ->
  libpff_item_tree_get_tree_node_by_identifier (Some root)
    (index_value.parent_identifier v) (Some None) 0 = Ret1 parent_node ->
  tree_node_at parent_node root = Some parent ->
  sub ∈ tree_node_sub_nodes parent ->
  libcdata_tree_node_get_value sub = Some d ->
  descriptor_identifier d = uint32_cast (index_value.identifier v) ->
  libcdata_tree_node_insert_value (Some parent) (leaf_item_descriptor v)
  = Ret0
  /\ libpff_item_tree_create_leaf_node descriptors_index (S fuel) st n depth
     = Some (Ok st)
  /\ forall st0 parent_leaf,
       callable st0 depth ->
       libpff_item_tree_get_tree_node_by_identifier (item_tree_root_node st0)
         (index_value.parent_identifier v) (Some None) 0 = Ret0 ->
       libpff_index_tree_get_leaf_node_by_identifier descriptors_index
         (index_value.parent_identifier v) = Ret1 (Some parent_leaf) ->
       libpff_item_tree_create_node descriptors_index fuel st0 parent_leaf
         (depth + 1) = Some (Ok st) ->
       libpff_item_tree_create_leaf_node descriptors_index (S fuel) st0 n
         depth
       = Some (Ok st).
Proof.
  intros Hbuilding Hrf Hdepth Hv Hmax Hne Hroot Hsearch Hparent Hsub Hd Hid.
  apply Z.eqb_neq in Hne.
  assert (Hle : (index_value.identifier v >? UINT32_MAX) = false) by lia.
  assert (Hcall : callable st depth).
  { split; [|split; [exact Hrf|exact Hdepth]].
    unfold item_tree_root_node in Hroot.
    destruct (item_tree st); [eauto|discriminate]. }
  assert (Hins :
    libcdata_tree_node_insert_value (Some parent) (leaf_item_descriptor v)
    = Ret0).
  { apply building_ok in Hbuilding as (root0 & Hroot0 & Hok & _).
    rewrite Hroot in Hroot0. injection Hroot0 as <-.
    pose proof (tree_ok_at _ _ _ Hok Hparent) as Hp.
    destruct Hp as [value sub_nodes _ Hasc _].
    unfold libcdata_tree_node_insert_value, libcdata_tree_node_insert_node.
    erewrite insert_sub_node_duplicate; eauto. }
  assert (Hattach :
    attach_item_descriptor st (leaf_item_descriptor v) (Ret1 parent_node)
    = Ok st).
  { unfold attach_item_descriptor, insert_value_at.
    rewrite Hroot, Hparent, Hins. reflexivity. }
  split; [exact Hins|split].
  - rewrite create_leaf_node_callable, Hv, Hle, Hne, Hroot, Hsearch
      by exact Hcall.
    rewrite Hattach. reflexivity.
  - intros st0 parent_leaf Hcall0 Hsearch0 Hlookup Hcreate.
    rewrite create_leaf_node_callable, Hv, Hle, Hne, Hsearch0, Hlookup,
      Hcreate, Hroot, Hsearch by exact Hcall0.
    rewrite Hattach. reflexivity.
Qed.

Lemma s4_create : fresh_create s4_index = Some (Ok s4_state).
Proof. vm_compute. reflexivity. Qed.

Lemma s4_building : building s4_index s4_state.
Proof.
  apply (libpff_item_tree_create_building s4_index
           (Some libpff_item_tree_initialize) [] (Some None)).
  vm_compute. reflexivity.
Defined.

Lemma duplicate_child_is_discarded_witness :
  libpff_item_tree_create_leaf_node s4_index 1 s4_state (index_leaf 5 1) 1
  = Some (Ok s4_state).
Proof.
  refine (proj1 (proj2 (duplicate_child_is_discarded s4_index 0 s4_state
                          (index_leaf 5 1) 1
                          {| index_value.identifier := 5;
                             index_value.parent_identifier := 1;
                             index_value.data_identifier := 0;
                             index_value.local_descriptors_identifier := 0 |}
                          (TreeNode
                             (Some (libpff_item_descriptor_initialize 0 0 0 0))
                             [TreeNode
                                (Some
                                   (libpff_item_descriptor_initialize 1 0 0 0))
                                [chain_node 0 5]])
                          [0%nat]
                          (TreeNode
                             (Some (libpff_item_descriptor_initialize 1 0 0 0))
                             [chain_node 0 5])
                          (chain_node 0 5)
                          (libpff_item_descriptor_initialize 5 0 0 0)
                          s4_building _ _ _ _ _ _ _ _ _ _ _))).
  - simpl. eauto.
  - unfold LIBPFF_MAXIMUM_ITEM_TREE_RECURSION_DEPTH. lia.
  - reflexivity.
  - unfold UINT32_MAX. simpl. lia.
  - vm_compute. discriminate.
  - reflexivity.
  - reflexivity.
  - reflexivity.
  - simpl. apply list_elem_of_here.
  - reflexivity.
  - reflexivity.
Defined.

(** ** Insertions commute *)

Lemma sub_nodes_after_insert_cons n s l x y :
  libcdata_tree_node_get_value n = Some x ->
  libcdata_tree_node_get_value s = Some y ->
  sub_nodes_after_insert n (s :: l)
  = match descriptor_identifier x ?= descriptor_identifier y with
    | Lt => n :: s :: l
    | Eq => s :: l
    | Gt => s :: sub_nodes_after_insert n l
    end.
Proof.
  intros Hn Hs. unfold sub_nodes_after_insert. simpl.
  unfold libpff_item_descriptor_compare. rewrite Hn, Hs.
  destruct (descriptor_identifier x ?= descriptor_identifier y);
    try reflexivity.
  destruct (insert_sub_node n l); reflexivity.
Qed.

Lemma sub_nodes_after_insert_commute a b l x y :
  libcdata_tree_node_get_value a = Some x ->
  libcdata_tree_node_get_value b = Some y ->
  descriptor_identifier x <> descriptor_identifier y ->
  Forall (fun s => is_Some (libcdata_tree_node_get_value s)) l ->
  sub_nodes_after_insert a (sub_nodes_after_insert b l)
  = sub_nodes_after_insert b (sub_nodes_after_insert a l).
Proof.
  intros Ha Hb Hne Hl. induction Hl as [|s l [z Hs] _ IH].
  - unfold sub_nodes_after_insert at 2 4. simpl.
    rewrite (sub_nodes_after_insert_cons a b [] x y Ha Hb),
      (sub_nodes_after_insert_cons b a [] y x Hb Ha).
    destruct (Z.compare_spec (descriptor_identifier x)
                (descriptor_identifier y));
      destruct (Z.compare_spec (descriptor_identifier y)
                  (descriptor_identifier x));
      try lia; reflexivity.
  - rewrite (sub_nodes_after_insert_cons b s l y z Hb Hs),
      (sub_nodes_after_insert_cons a s l x z Ha Hs).
    destruct (Z.compare_spec (descriptor_identifier y)
                (descriptor_identifier z)) as [Hyz|Hyz|Hyz];
      destruct (Z.compare_spec (descriptor_identifier x)
                  (descriptor_identifier z)) as [Hxz|Hxz|Hxz];
      try lia;
      repeat first
        [ rewrite (sub_nodes_after_insert_cons a b _ x y Ha Hb)
        | rewrite (sub_nodes_after_insert_cons b a _ y x Hb Ha)
        | rewrite (sub_nodes_after_insert_cons a s _ x z Ha Hs)
        | rewrite (sub_nodes_after_insert_cons b s _ y z Hb Hs) ];
      repeat match goal with
      | |- context [?u ?= ?w] => destruct (Z.compare_spec u w); try lia
      end;
      try reflexivity.
    rewrite IH. reflexivity.
Qed.

Lemma cached_index_same root :
  same_index (fun n c => n = fst c) (index_of root) (cached_index_of root).
Proof.
  constructor; simpl.
  - constructor. reflexivity.
  - intros n c ->. unfold same_probe.
    destruct (index_node_number_of_sub_nodes (fst c)); auto.
  - intros n c ->. reflexivity.
  - intros n c ->. reflexivity.
  - intros n c i ->.
    destruct (index_node_sub_node_by_index (fst c) i); constructor.
    reflexivity.
  - intros n c ->. reflexivity.
  - intros identifier.
    destruct (index_node_lookup identifier root); constructor.
    constructor. reflexivity.
Defined.

(** * Further properties *)

(** ** The sub node search *)

Lemma scan_sub_nodes_Ret1 identifier sub_nodes k p :
  scan_sub_nodes identifier k sub_nodes = Ret1 p ->
  exists i child,
    p = [(k + i)%nat] /\ sub_nodes !! i = Some child
    /\ has_identifier identifier child
    /\ forall j s, (j < i)%nat -> sub_nodes !! j = Some s ->
                   lacks_identifier identifier s.
Proof.
  revert k. induction sub_nodes as [|s sub_nodes IH]; intros k H; simpl in H.
  - discriminate.
  - destruct (libcdata_tree_node_get_value s) as [d|] eqn:Hs; [|discriminate].
    destruct (descriptor_identifier d =? identifier) eqn:Hd.
    + injection H as <-. apply Z.eqb_eq in Hd. exists 0%nat, s.
      rewrite Nat.add_0_r. repeat split; auto.
      * exists d. auto.
      * intros j s' Hj. lia.
    + apply Z.eqb_neq in Hd.
      apply IH in H as (i & child & -> & Hi & Hid & Hbefore).
      exists (S i), child. repeat split; auto.
      * replace (k + S i)%nat with (S k + i)%nat by lia. reflexivity.
      * intros [|j] s' Hj Hl; simpl in Hl.
        -- injection Hl as <-. exists d. auto.
        -- apply (Hbefore j); [lia|exact Hl].
Qed.

Lemma scan_sub_nodes_Ret0 identifier sub_nodes k :
  scan_sub_nodes identifier k sub_nodes = Ret0 ->
  forall i s, sub_nodes !! i = Some s -> lacks_identifier identifier s.
Proof.
  revert k. induction sub_nodes as [|s sub_nodes IH]; intros k H i s' Hi.
  - discriminate.
  - simpl in H.
    destruct (libcdata_tree_node_get_value s) as [d|] eqn:Hs; [|discriminate].
    destruct (descriptor_identifier d =? identifier) eqn:Hd; [discriminate|].
    apply Z.eqb_neq in Hd. destruct i as [|i]; simpl in Hi.
    + injection Hi as <-. exists d. auto.
    + eapply IH; eauto.
Qed.

Lemma scan_sub_nodes_RetErr identifier sub_nodes k e :
  scan_sub_nodes identifier k sub_nodes = RetErr e ->
  e = LIBCERROR_RUNTIME_ERROR_VALUE_MISSING
  /\ exists i s,
       sub_nodes !! i = Some s /\ libcdata_tree_node_get_value s = None
       /\ forall j s', (j < i)%nat -> sub_nodes !! j = Some s' ->
                       lacks_identifier identifier s'.
Proof.
  revert k. induction sub_nodes as [|s sub_nodes IH]; intros k H; simpl in H.
  - discriminate.
  - destruct (libcdata_tree_node_get_value s) as [d|] eqn:Hs.
    + destruct (descriptor_identifier d =? identifier) eqn:Hd; [discriminate|].
      apply Z.eqb_neq in Hd.
      apply IH in H as (-> & i & s' & Hi & Hnone & Hbefore).
      split; [reflexivity|]. exists (S i), s'. repeat split; auto.
      intros [|j] s0 Hj Hl; simpl in Hl.
      * injection Hl as <-. exists d. auto.
      * apply (Hbefore j); [lia|exact Hl].
    + injection H as <-. split; [reflexivity|]. exists 0%nat, s.
      repeat split; auto. intros j s' Hj. lia.
Qed.

Lemma scan_sub_nodes_first identifier sub_nodes k i child :
  sub_nodes !! i = Some child -> has_identifier identifier child ->
  (forall j s, (j < i)%nat -> sub_nodes !! j = Some s ->
               lacks_identifier identifier s) ->
  scan_sub_nodes identifier k sub_nodes = Ret1 [(k + i)%nat].
Proof.
  revert k i. induction sub_nodes as [|s sub_nodes IH];
    intros k i Hi Hid Hbefore.
  - discriminate.
  - simpl. destruct i as [|i]; simpl in Hi.
    + injection Hi as ->. destruct Hid as (d & -> & Hd).
      apply Z.eqb_eq in Hd. rewrite Hd, Nat.add_0_r. reflexivity.
    + destruct (Hbefore 0%nat s ltac:(lia) eq_refl) as (d & -> & Hd).
      apply Z.eqb_neq in Hd. rewrite Hd.
      rewrite (IH (S k) i Hi Hid).
      * replace (k + S i)%nat with (S k + i)%nat by lia. reflexivity.
      * intros j s' Hj Hl. apply (Hbefore (S j)); [lia|exact Hl].
Qed.

Lemma scan_sub_nodes_none identifier sub_nodes k :
  (forall i s, sub_nodes !! i = Some s -> lacks_identifier identifier s) ->
  scan_sub_nodes identifier k sub_nodes = Ret0.
Proof.
  revert k. induction sub_nodes as [|s sub_nodes IH]; intros k H; simpl.
  - reflexivity.
  - destruct (H 0%nat s eq_refl) as (d & -> & Hd).
    apply Z.eqb_neq in Hd. rewrite Hd. apply IH.
    intros i s' Hi. apply (H (S i)). exact Hi.
Qed.

(** X1.  The sub node search returns the first sub node that carries the
    searched identifier: the pointer designates a direct sub node, that
    sub node carries the identifier and every sub node before it carries
    another one.  It returns 0 only when every sub node carries another
    identifier.  It fails only with the value missing error, when the
    node or a sub node reached by the scan has no descriptor.  Conversely,
    when the node has a descriptor, a sub node carries the identifier and
    the sub nodes before it carry other ones, the search returns that sub
    node. *)
Theorem sub_node_search_returns_first_match node sub_node_identifier :
  (forall p,
     libpff_item_tree_get_sub_node_by_identifier (Some node)
       sub_node_identifier (Some None) = Ret1 p ->
     exists i child,
       p = [i] /\ tree_node_at p node = Some child
       /\ has_identifier sub_node_identifier child
       /\ forall j s, (j < i)%nat -> tree_node_sub_nodes node !! j = Some s ->
                      lacks_identifier sub_node_identifier s)
  /\ (libpff_item_tree_get_sub_node_by_identifier (Some node)
        sub_node_identifier (Some None) = Ret0 ->
      forall i s, tree_node_sub_nodes node !! i = Some s ->
                  lacks_identifier sub_node_identifier s)
  /\ (forall e,
        libpff_item_tree_get_sub_node_by_identifier (Some node)
          sub_node_identifier (Some None) = RetErr e ->
        e = LIBCERROR_RUNTIME_ERROR_VALUE_MISSING
        /\ (libcdata_tree_node_get_value node = None
            \/ exists i s,
                 tree_node_sub_nodes node !! i = Some s
                 /\ libcdata_tree_node_get_value s = None))
  /\ (forall i child,
        is_Some (libcdata_tree_node_get_value node) ->
        tree_node_sub_nodes node !! i = Some child ->
        has_identifier sub_node_identifier child ->
        (forall j s, (j < i)%nat -> tree_node_sub_nodes node !! j = Some s ->
                     lacks_identifier sub_node_identifier s) ->
        libpff_item_tree_get_sub_node_by_identifier (Some node)
          sub_node_identifier (Some None) = Ret1 [i]).
Proof.
  destruct node as [value sub_nodes].
  unfold libpff_item_tree_get_sub_node_by_identifier. simpl.
  destruct value as [d|].
  - repeat match goal with |- _ /\ _ => split end.
    + intros p H.
      apply scan_sub_nodes_Ret1 in H as (i & child & -> & Hi & Hid & Hbefore).
      exists i, child. simpl. rewrite Hi. auto.
    + apply scan_sub_nodes_Ret0.
    + intros e H.
      apply scan_sub_nodes_RetErr in H as (-> & i & s & Hi & Hs & _).
      split; [reflexivity|]. right. eauto.
    + intros i child _ Hi Hid Hbefore.
      apply (scan_sub_nodes_first _ _ 0%nat i child); assumption.
  - repeat match goal with |- _ /\ _ => split end; try discriminate.
    + intros e [= <-]. auto.
    + intros i child [d Hd]. discriminate.
Qed.

Lemma sub_node_search_returns_first_match_witness :
  libpff_item_tree_get_sub_node_by_identifier
    (Some (TreeNode (Some (libpff_item_descriptor_initialize 1 0 0 0))
             [chain_node 0 2; chain_node 0 3]))
    3 (Some None)
  = Ret1 [1%nat].
Proof.
  refine (proj2 (proj2 (proj2 (sub_node_search_returns_first_match
                                 (TreeNode
                                    (Some
                                       (libpff_item_descriptor_initialize
                                          1 0 0 0))
                                    [chain_node 0 2; chain_node 0 3]) 3)))
            1%nat (chain_node 0 3) _ eq_refl _ _).
  - simpl. eauto.
  - eexists. split; reflexivity.
  - intros [|j] s Hj Hs; [|lia]. injection Hs as <-.
    eexists. split; [reflexivity|]. simpl. lia.
Defined.

(** X2.  In the tree of a successful build the sub node search never
    fails on any node: it returns 0 when no sub node carries the
    identifier, and otherwise the one sub node that carries it. *)
Theorem built_tree_sub_node_search_unique {N : Type}
    (descriptors_index : libpff_descriptors_index_t N)
    tree orphans root_folder st root q node sub_node_identifier :
  libpff_item_tree_create descriptors_index tree orphans root_folder
  = Some (Ok st) ->
  item_tree_root_node st = Some root ->
  tree_node_at q root = Some node ->
  (libpff_item_tree_get_sub_node_by_identifier (Some node)
     sub_node_identifier (Some None) = Ret0
   /\ forall i s, tree_node_sub_nodes node !! i = Some s ->
                  lacks_identifier sub_node_identifier s)
  \/ exists i child,
       libpff_item_tree_get_sub_node_by_identifier (Some node)
         sub_node_identifier (Some None) = Ret1 [i]
       /\ tree_node_sub_nodes node !! i = Some child
       /\ has_identifier sub_node_identifier child
       /\ forall j s, tree_node_sub_nodes node !! j = Some s ->
                      has_identifier sub_node_identifier s -> j = i.
Proof.
  intros Hcreate Hroot Hq.
  apply libpff_item_tree_create_building, building_ok in Hcreate
    as (root0 & Hroot0 & Hok & _).
  rewrite Hroot in Hroot0. injection Hroot0 as <-.
  pose proof (tree_ok_at _ _ _ Hok Hq) as Hnode.
  destruct Hnode as [value sub_nodes [d ->] Hasc Hsub].
  unfold libpff_item_tree_get_sub_node_by_identifier. simpl.
  destruct (scan_sub_nodes sub_node_identifier 0 sub_nodes) as [p| |e] eqn:H.
  - right.
    apply scan_sub_nodes_Ret1 in H as (i & child & -> & Hi & Hid & Hbefore).
    exists i, child. repeat split; auto.
    intros j s Hj (dj & Hdj & Hidj).
    destruct Hid as (di & Hdi & Hidi).
    destruct (Nat.lt_trichotomy j i) as [Hlt|[->|Hlt]]; [|reflexivity|].
    + destruct (strictly_ascending_lookup _ _ _ _ _ Hasc Hlt Hj Hi)
        as (x & y & Hx & Hy & Hxy). simplify_eq. lia.
    + destruct (strictly_ascending_lookup _ _ _ _ _ Hasc Hlt Hi Hj)
        as (x & y & Hx & Hy & Hxy). simplify_eq. lia.
  - left. split; [reflexivity|]. eapply scan_sub_nodes_Ret0. exact H.
  - exfalso. apply scan_sub_nodes_RetErr in H as (_ & i & s & Hi & Hs & _).
    rewrite Forall_lookup in Hsub. destruct (Hsub i s Hi) as [? ? [? ->] _ _].
    discriminate.
Qed.

Lemma built_tree_sub_node_search_unique_witness :
  (libpff_item_tree_get_sub_node_by_identifier
     (Some (TreeNode (Some (libpff_item_descriptor_initialize 1 0 0 0))
              [TreeNode (Some (libpff_item_descriptor_initialize 2 0 0 0))
                 [chain_node 0 4];
               chain_node 0 3]))
     3 (Some None) = Ret0
   /\ forall i s,
        tree_node_sub_nodes
          (TreeNode (Some (libpff_item_descriptor_initialize 1 0 0 0))
             [TreeNode (Some (libpff_item_descriptor_initialize 2 0 0 0))
                [chain_node 0 4];
              chain_node 0 3]) !! i = Some s ->
        lacks_identifier 3 s)
  \/ exists i child,
       libpff_item_tree_get_sub_node_by_identifier
         (Some (TreeNode (Some (libpff_item_descriptor_initialize 1 0 0 0))
                  [TreeNode (Some (libpff_item_descriptor_initialize 2 0 0 0))
                     [chain_node 0 4];
                   chain_node 0 3]))
         3 (Some None) = Ret1 [i]
       /\ tree_node_sub_nodes
            (TreeNode (Some (libpff_item_descriptor_initialize 1 0 0 0))
               [TreeNode (Some (libpff_item_descriptor_initialize 2 0 0 0))
                  [chain_node 0 4];
                chain_node 0 3]) !! i = Some child
       /\ has_identifier 3 child
       /\ forall j s,
            tree_node_sub_nodes
              (TreeNode (Some (libpff_item_descriptor_initialize 1 0 0 0))
                 [TreeNode (Some (libpff_item_descriptor_initialize 2 0 0 0))
                    [chain_node 0 4];
                  chain_node 0 3]) !! j = Some s ->
            has_identifier 3 s -> j = i.
Proof.
  apply (built_tree_sub_node_search_unique s1_index
           (Some libpff_item_tree_initialize) [] (Some None) s1_state
           (TreeNode (Some (libpff_item_descriptor_initialize 0 0 0 0))
              [TreeNode (Some (libpff_item_descriptor_initialize 1 0 0 0))
                 [TreeNode (Some (libpff_item_descriptor_initialize 2 0 0 0))
                    [chain_node 0 4];
                  chain_node 0 3]])
           [0%nat]).
  - vm_compute. reflexivity.
  - reflexivity.
  - reflexivity.
Defined.

(** ** The tree search on any tree *)

(** X3.  The tree search is truthful on every item tree, built or not.
    When it returns 0, whatever its output argument, no node of the tree
    carries the searched identifier.  When it returns 1 the node is the
    first one in pre-order that carries the identifier and lies at most
    [LIBPFF_MAXIMUM_ITEM_TREE_RECURSION_DEPTH] levels below the root.  On
    a tree whose nodes all carry descriptors and lie within that depth,
    the search returns 0 exactly when no node carries the identifier. *)
Theorem tree_search_is_truthful tree item_identifier :
  (forall out,
     libpff_item_tree_get_node_by_identifier (Some tree) item_identifier out
     = Ret0 ->
     exists root,
       root_node tree = Some root
       /\ forall q m, tree_node_at q root = Some m ->
                      lacks_identifier item_identifier m)
  /\ (forall out p,
        libpff_item_tree_get_node_by_identifier (Some tree) item_identifier
          out = Ret1 p ->
        exists root,
          root_node tree = Some root
          /\ first_in_preorder item_identifier root p
          /\ Z.of_nat (length p) <= LIBPFF_MAXIMUM_ITEM_TREE_RECURSION_DEPTH)
  /\ (forall root,
        root_node tree = Some root ->
        searchable LIBPFF_MAXIMUM_ITEM_TREE_RECURSION_DEPTH root ->
        (libpff_item_tree_get_node_by_identifier (Some tree) item_identifier
           (Some None) = Ret0
         <-> forall q m, tree_node_at q root = Some m ->
                         ~ has_identifier item_identifier m)).
Proof.
  unfold libpff_item_tree_get_node_by_identifier,
    libpff_item_tree_get_tree_node_by_identifier.
  repeat match goal with |- _ /\ _ => split end.
  - intros out H. destruct (root_node tree) as [root|]; [|discriminate].
    exists root. split; [reflexivity|].
    eapply get_tree_node_by_identifier_Ret0. exact H.
  - intros out p H. destruct (root_node tree) as [root|]; [|discriminate].
    exists root. split; [reflexivity|].
    assert (out = Some None) as ->.
    { destruct (output_error out) as [e|] eqn:He.
      - rewrite (get_tree_node_by_identifier_output _ _ _ _ _ He) in H.
        destruct (get_tree_node_by_identifier root item_identifier
                    (Some None) 0); discriminate.
      - destruct out as [[?|]|]; try discriminate. reflexivity. }
    apply get_tree_node_by_identifier_Ret1 in H as [Hfirst Hlen].
    split; [exact Hfirst|lia].
  - intros root -> Hs. split.
    + intros H q m Hq (d & Hd & Hid).
      destruct (get_tree_node_by_identifier_Ret0 _ _ _ _ H q m Hq)
        as (d' & Hd' & Hne). congruence.
    + intros Hnone.
      destruct (get_tree_node_by_identifier root item_identifier (Some None)
                  0) as [p| |e] eqn:H; [|reflexivity|].
      * apply get_tree_node_by_identifier_Ret1 in H
          as [[(n & Hn & Hid) _] _].
        destruct (Hnone p n Hn Hid).
      * exfalso. revert H.
        apply get_tree_node_by_identifier_no_error; [lia|].
        intros q m Hq. destruct (Hs q m Hq). split; [assumption|lia].
Qed.

Lemma tree_search_is_truthful_witness :
  exists root,
    root_node {| root_node := Some (chain_node 2 0) |} = Some root
    /\ forall q m, tree_node_at q root = Some m -> lacks_identifier 9 m.
Proof.
  apply (proj1 (tree_search_is_truthful
                  {| root_node := Some (chain_node 2 0) |} 9) (Some None)).
  reflexivity.
Defined.

(** ** Appending an identifier *)

Lemma scan_sub_nodes_app identifier k l n :
  scan_sub_nodes identifier k (l ++ [n])
  = match scan_sub_nodes identifier k l with
    | Ret0 => scan_sub_nodes identifier (k + length l) [n]
    | r => r
    end.
Proof.
  revert k. induction l as [|s l IH]; intros k; simpl.
  - rewrite Nat.add_0_r. reflexivity.
  - destruct (libcdata_tree_node_get_value s) as [d|]; [|reflexivity].
    destruct (descriptor_identifier d =? identifier); [reflexivity|].
    rewrite IH. replace (S k + length l)%nat with (k + S (length l))%nat by lia.
    reflexivity.
Qed.

(** X4.  Appending and then searching.  After a successful
    [libpff_item_tree_append_identifier] the node keeps its descriptor
    and its sub nodes and has one more sub node at the end, which carries
    the four given values and has no sub nodes.  The sub node search for
    the appended identifier then returns what it returned before when that
    was a sub node or an error, and the new last sub node when it returned
    0; the search for any other identifier is unchanged. *)
Theorem append_identifier_then_search node identifier data ld rec node' :
  libpff_item_tree_append_identifier (Some node) identifier data ld rec
  = Ok node' ->
  libcdata_tree_node_get_value node' = libcdata_tree_node_get_value node
  /\ tree_node_sub_nodes node'
     = tree_node_sub_nodes node
       ++ [TreeNode
             (Some (libpff_item_descriptor_initialize identifier data ld
                      rec)) []]
  /\ libpff_item_tree_get_sub_node_by_identifier (Some node') identifier
       (Some None)
     = match libpff_item_tree_get_sub_node_by_identifier (Some node)
               identifier (Some None) with
       | Ret0 => Ret1 [length (tree_node_sub_nodes node)]
       | r => r
       end
  /\ forall other out,
       other <> identifier ->
       libpff_item_tree_get_sub_node_by_identifier (Some node') other out
       = libpff_item_tree_get_sub_node_by_identifier (Some node) other out.
Proof.
  destruct node as [value sub_nodes]. intros [= <-].
  split; [reflexivity|]. split; [reflexivity|]. split.
  - unfold libpff_item_tree_get_sub_node_by_identifier. simpl.
    destruct value as [d|]; [|reflexivity].
    rewrite scan_sub_nodes_app.
    destruct (scan_sub_nodes identifier 0 sub_nodes); try reflexivity.
    simpl. rewrite Z.eqb_refl. reflexivity.
  - intros other out Hne.
    unfold libpff_item_tree_get_sub_node_by_identifier. simpl.
    destruct out as [[?|]|]; try reflexivity.
    destruct value as [d|]; [|reflexivity].
    rewrite scan_sub_nodes_app.
    destruct (scan_sub_nodes other 0 sub_nodes); try reflexivity.
    simpl. destruct (identifier =? other) eqn:E; [lia|reflexivity].
Qed.

Lemma append_identifier_then_search_witness :
  libpff_item_tree_get_sub_node_by_identifier
    (Some
       (TreeNode (Some (libpff_item_descriptor_initialize 1 0 0 0))
          [chain_node 0 2; chain_node 0 7]))
    7 (Some None)
  = Ret1 [1%nat].
Proof.
  apply (proj1 (proj2 (proj2
           (append_identifier_then_search (chain_node 1 1) 7 0 0 0
              (TreeNode (Some (libpff_item_descriptor_initialize 1 0 0 0))
                 [chain_node 0 2; chain_node 0 7])
              eq_refl)))).
Defined.

Lemma StronglySorted_snoc {A : Type} (R : A -> A -> Prop) l x :
  StronglySorted R (l ++ [x])
  <-> StronglySorted R l /\ Forall (fun s => R s x) l.
Proof.
  induction l as [|a l IH]; simpl.
  - split; [intros _; split; constructor|intros _; repeat constructor].
  - split.
    + intros H. inversion H as [|? ? Hl Ha]; subst.
      apply IH in Hl as [Hl Hx]. apply Forall_app in Ha as [Ha Hax].
      inversion Hax; subst. split; constructor; auto.
    + intros [H Hx]. inversion H as [|? ? Hl Ha]; subst.
      inversion Hx; subst. constructor.
      * apply IH. auto.
      * apply Forall_app. auto.
Qed.

(** X5.  Appending does not compare.  The sub nodes of the node are in
    strictly ascending order afterwards exactly when they were before and
    every one of them carries an identifier below the appended one; so
    appending an identifier that is not above all the present ones breaks
    the order that the builder keeps. *)
Theorem append_identifier_ascending_iff node identifier data ld rec node' :
  libpff_item_tree_append_identifier (Some node) identifier data ld rec
  = Ok node' ->
  strictly_ascending (tree_node_sub_nodes node')
  <-> strictly_ascending (tree_node_sub_nodes node)
      /\ forall s, s ∈ tree_node_sub_nodes node ->
           exists d, libcdata_tree_node_get_value s = Some d
                     /\ descriptor_identifier d < identifier.
Proof.
  destruct node as [value sub_nodes]. intros [= <-]. simpl.
  unfold strictly_ascending. rewrite StronglySorted_snoc, Forall_forall.
  split; intros [Hl Hx]; (split; [exact Hl|]); intros s Hs.
  - destruct (Hx s Hs) as (x & y & Hsx & [= <-] & Hlt). eauto.
  - destruct (Hx s Hs) as (d & Hd & Hlt). exists d. eexists. eauto.
Qed.

Lemma append_identifier_ascending_iff_witness :
  ~ strictly_ascending
      (tree_node_sub_nodes
         (TreeNode (Some (libpff_item_descriptor_initialize 1 0 0 0))
            [chain_node 0 5; chain_node 0 5])).
Proof.
  intros H.
  apply (proj1 (append_identifier_ascending_iff
                  (TreeNode (Some (libpff_item_descriptor_initialize 1 0 0 0))
                     [chain_node 0 5]) 5 0 0 0 _ eq_refl)) in H
    as [_ H].
  destruct (H (chain_node 0 5)) as (d & [= <-] & Hlt).
  - apply list_elem_of_here.
  - simpl in Hlt. lia.
Defined.

(** ** A build as a sequence of leaf placements *)

Lemma gtb_false_le a b : (a >? b) = false -> a <= b.
Proof. intros H. pose proof (Zgt_cases a b) as Hc. rewrite H in Hc. exact Hc. Qed.

Section builder_steps.
Context {N : Type} (descriptors_index : libpff_descriptors_index_t N).

Local Abbreviation create_node :=
  (libpff_item_tree_create_node descriptors_index).
Local Abbreviation create_leaf_node :=
  (libpff_item_tree_create_leaf_node descriptors_index).
Local Abbreviation sub_nodes_loop := (create_sub_nodes descriptors_index).
Local Abbreviation steps := (leaf_steps descriptors_index).

Lemma leaf_steps_trans st1 st2 st3 :
  steps st1 st2 -> steps st2 st3 -> steps st1 st3.
Proof.
  intros H12 H23. induction H23 as [|st2 st st3 _ IH Hstep]; [exact H12|].
  eapply leaf_steps_step; [apply IH; exact H12|exact Hstep].
Qed.

Lemma create_sub_nodes_steps
    (rec : create_state -> N -> option (result create_state))
    node remaining i st st' :
  (forall st n st', rec st n = Some (Ok st') -> steps st st') ->
  sub_nodes_loop rec node remaining i st = Some (Ok st') -> steps st st'.
Proof.
  intros Hrec. revert i st.
  induction remaining as [|remaining IH]; intros i st H; simpl in H.
  - injection H as <-. apply leaf_steps_refl.
  - destruct (libfdata_tree_node_get_sub_node_by_index _ _ _) as [sub|e];
      [|discriminate].
    destruct (rec st sub) as [[st1|e]|] eqn:H1; try discriminate.
    eapply leaf_steps_trans; [eapply Hrec; exact H1|eapply IH; exact H].
Qed.

(** A successful call changes the state by leaf placements only. *)
Lemma create_steps fuel :
  (forall st n depth st',
     create_node fuel st n depth = Some (Ok st') -> steps st st')
  /\ (forall st n depth st',
        create_leaf_node fuel st n depth = Some (Ok st') -> steps st st').
Proof.
  induction fuel as [|fuel [IHnode IHleaf]].
  { split; intros; discriminate. }
  split; intros st n depth st' H; simpl in H.
  - repeat (case_match_in H; try discriminate).
    all: first
      [ injection H as <-; apply leaf_steps_refl
      | solve [eauto]
      | eapply create_sub_nodes_steps; [|exact H];
        intros st0 n0 st1 Hc; eapply IHnode; exact Hc ].
  - repeat (case_match_in H; try discriminate);
      try apply Some_eq_inv in H;
      try match goal with
      | Hc : libpff_item_tree_create_node _ _ _ _ _ = Some (Ok _) |- _ =>
          apply IHnode in Hc
      end;
      repeat match goal with
      | Hgt : (_ >? _) = false |- _ => apply gtb_false_le in Hgt
      | Heq : (_ =? _) = true |- _ => apply Z.eqb_eq in Heq
      | Hne : (_ =? _) = false |- _ => apply Z.eqb_neq in Hne
      end.
    all: first
      [ eapply leaf_steps_step; [apply leaf_steps_refl|];
        eapply leaf_step_root_folder; [eassumption|assumption|assumption|];
        exact H
      | eapply leaf_steps_step; [eassumption|];
        eapply leaf_step_attach; [eassumption|assumption|assumption|];
        exact H
      | eapply leaf_steps_step; [apply leaf_steps_refl|];
        eapply leaf_step_attach; [eassumption|assumption|assumption|];
        match goal with
        | Hs : libpff_item_tree_get_tree_node_by_identifier _ _ _ _ = _
          |- _ => rewrite Hs; exact H
        end ].
Qed.

Lemma create_node_steps fuel st n depth st' :
  create_node fuel st n depth = Some (Ok st') -> steps st st'.
Proof. apply create_steps. Qed.

Lemma create_leaf_node_steps fuel st n depth st' :
  create_leaf_node fuel st n depth = Some (Ok st') -> steps st st'.
Proof. apply create_steps. Qed.

Lemma libpff_item_tree_create_steps tree orphans root_folder st :
  libpff_item_tree_create descriptors_index tree orphans root_folder
  = Some (Ok st) ->
  steps
    {| item_tree := Some {| root_node := Some synthetic_root |};
       orphan_node_list := orphans;
       root_folder_item_tree_node := root_folder |} st.
Proof.
  unfold libpff_item_tree_create. intros H.
  destruct tree as [tree|]; [|discriminate].
  destruct (root_node tree); [discriminate|].
  destruct (libpff_index_tree_get_root_node descriptors_index) as [r|e];
    [|discriminate].
  eapply create_node_steps. exact H.
Qed.

(** A property of the state that every placement preserves holds after
    the placements when it holds before. *)
Lemma leaf_steps_preserve (I : create_state -> Prop) st st' :
  (forall st1 st2, leaf_step descriptors_index st1 st2 -> I st1 -> I st2) ->
  steps st st' -> I st -> I st'.
Proof.
  intros Hstep H Hst. induction H as [|st st1 st' _ IH H1]; [exact Hst|].
  eapply Hstep; [exact H1|]. apply IH. exact Hst.
Qed.
End builder_steps.

(** ** Insertion and the stored tree *)

Lemma insert_sub_node_elem_new n l l' :
  insert_sub_node n l = Ret1 l' -> n ∈ l'.
Proof.
  revert l'. induction l as [|s l IH]; intros l' H; simpl in H.
  - injection H as <-. apply list_elem_of_here.
  - destruct (libpff_item_descriptor_compare _ _) as [[]|]; try discriminate.
    + injection H as <-. apply list_elem_of_here.
    + destruct (insert_sub_node n l) as [r| |]; try discriminate.
      injection H as <-. apply list_elem_of_further. auto.
Qed.

Lemma insert_sub_node_elem_old n l l' s :
  insert_sub_node n l = Ret1 l' -> s ∈ l -> s ∈ l'.
Proof.
  revert l'. induction l as [|a l IH]; intros l' H Hs; simpl in H.
  - inversion Hs.
  - destruct (libpff_item_descriptor_compare _ _) as [[]|]; try discriminate.
    + injection H as <-. apply list_elem_of_further. exact Hs.
    + destruct (insert_sub_node n l) as [r| |]; try discriminate.
      injection H as <-. inversion Hs; subst.
      * apply list_elem_of_here.
      * apply list_elem_of_further. auto.
Qed.

Lemma insert_sub_node_Ret0_elem n l :
  insert_sub_node n l = Ret0 ->
  exists s d d',
    s ∈ l /\ libcdata_tree_node_get_value n = Some d
    /\ libcdata_tree_node_get_value s = Some d'
    /\ descriptor_identifier d' = descriptor_identifier d.
Proof.
  induction l as [|a l IH]; intros H; simpl in H; [discriminate|].
  destruct (libpff_item_descriptor_compare _ _) as [[]|] eqn:Hc;
    try discriminate.
  - unfold libpff_item_descriptor_compare in Hc.
    destruct (libcdata_tree_node_get_value n) as [d|]; [|discriminate].
    destruct (libcdata_tree_node_get_value a) as [d'|] eqn:Ha;
      [|discriminate].
    injection Hc as Hc. apply Z.compare_eq_iff in Hc.
    exists a, d, d'. split; [apply list_elem_of_here|]. auto.
  - destruct (insert_sub_node n l) as [r| |]; try discriminate.
    destruct (IH eq_refl) as (s & d & d' & Hs & Hrest).
    exists s, d, d'. split; [apply list_elem_of_further; exact Hs|exact Hrest].
Qed.

Lemma tree_node_at_store p n t old :
  tree_node_at p t = Some old -> tree_node_at p (tree_node_store p n t) = Some n.
Proof.
  revert t. induction p as [|i p IH]; intros t Hp; [reflexivity|].
  destruct t as [value sub_nodes]. rewrite tree_node_at_cons in Hp. simpl.
  destruct (sub_nodes !! i) as [s|] eqn:Hi; [|discriminate]. simpl in Hp.
  simpl. rewrite list_lookup_insert_eq by (eapply lookup_lt_Some; exact Hi).
  eapply IH. exact Hp.
Qed.

Lemma insert_value_inv parent d parent' :
  libcdata_tree_node_insert_value parent d = Ret1 parent' ->
  exists value sub_nodes sub_nodes',
    parent = Some (TreeNode value sub_nodes)
    /\ parent' = TreeNode value sub_nodes'
    /\ insert_sub_node (item_tree_node_of d) sub_nodes = Ret1 sub_nodes'.
Proof.
  unfold libcdata_tree_node_insert_value, libcdata_tree_node_insert_node.
  destruct parent as [[value sub_nodes]|]; [|discriminate].
  fold (item_tree_node_of d).
  destruct (insert_sub_node (item_tree_node_of d) sub_nodes) as [l| |] eqn:H;
    try discriminate.
  intros [= <-]. eauto 6.
Qed.

Lemma insert_value_Ret0_inv parent d :
  libcdata_tree_node_insert_value parent d = Ret0 ->
  exists value sub_nodes,
    parent = Some (TreeNode value sub_nodes)
    /\ insert_sub_node (item_tree_node_of d) sub_nodes = Ret0.
Proof.
  unfold libcdata_tree_node_insert_value, libcdata_tree_node_insert_node.
  destruct parent as [[value sub_nodes]|]; [|discriminate].
  fold (item_tree_node_of d).
  destruct (insert_sub_node (item_tree_node_of d) sub_nodes) as [l| |] eqn:H;
    try discriminate.
  eauto.
Qed.

(** ** Edges follow the parent identifiers *)

Section builder_edges.
Context {N : Type} (descriptors_index : libpff_descriptors_index_t N).

Local Abbreviation edges := (edges_ok descriptors_index).

Lemma placed_value top parent_value m m' :
  libcdata_tree_node_get_value m' = libcdata_tree_node_get_value m ->
  placed descriptors_index top parent_value m ->
  placed descriptors_index top parent_value m'.
Proof.
  intros Hv (v & (Hn & Hmax & Hm) & H). exists v.
  split; [|exact H]. split; [exact Hn|]. split; [exact Hmax|]. congruence.
Qed.

Lemma edges_ok_at top t q m :
  edges top t -> tree_node_at q t = Some m -> edges (top_at top q) m.
Proof.
  revert top t. induction q as [|i q IH]; intros top t Ht Hq.
  - injection Hq as <-. exact Ht.
  - destruct Ht as [top value sub_nodes _ Hsub].
    rewrite tree_node_at_cons in Hq.
    destruct (sub_nodes !! i) as [s|] eqn:Hi; [|discriminate]. simpl in Hq.
    rewrite Forall_lookup in Hsub.
    specialize (IH false s (Hsub i s Hi) Hq).
    destruct q; exact IH.
Qed.

Lemma edges_ok_store top p n t old :
  edges top t -> tree_node_at p t = Some old -> edges (top_at top p) n ->
  libcdata_tree_node_get_value n = libcdata_tree_node_get_value old ->
  edges top (tree_node_store p n t).
Proof.
  revert top t. induction p as [|i p IH]; intros top t Ht Hp Hn Hv.
  - exact Hn.
  - destruct Ht as [top value sub_nodes Hplaced Hsub].
    rewrite tree_node_at_cons in Hp. simpl.
    destruct (sub_nodes !! i) as [s|] eqn:Hi; [|discriminate]. simpl in Hp.
    constructor.
    + apply Forall_insert; [exact Hplaced|].
      eapply placed_value; [eapply tree_node_store_value; eauto|].
      rewrite Forall_lookup in Hplaced. eauto.
    + apply Forall_insert; [exact Hsub|].
      apply IH; [rewrite Forall_lookup in Hsub; eauto|exact Hp| |exact Hv].
      destruct p; exact Hn.
Qed.

Lemma edges_ok_leaf top d : edges top (item_tree_node_of d).
Proof. constructor; constructor. Qed.

Lemma edges_ok_insert top value sub_nodes n sub_nodes' :
  edges top (TreeNode value sub_nodes) ->
  placed descriptors_index top value n -> edges false n ->
  insert_sub_node n sub_nodes = Ret1 sub_nodes' ->
  edges top (TreeNode value sub_nodes').
Proof.
  intros Ht Hn Hen H. inversion Ht as [? ? ? Hplaced Hsub]; subst.
  constructor; eapply insert_sub_node_Forall; eauto.
Qed.

Lemma from_leaf_node_of n v :
  libfdata_tree_node_get_node_value descriptors_index n = Ok (Some v) ->
  index_value.identifier v <= UINT32_MAX ->
  from_leaf descriptors_index (item_tree_node_of (leaf_item_descriptor v)) v.
Proof. intros Hn Hmax. split; [eauto|]. split; [exact Hmax|reflexivity]. Qed.

(** The edges of the item tree stay placements under a placement. *)
Lemma leaf_step_edges st st' :
  leaf_step descriptors_index st st' ->
  (exists root, item_tree_root_node st = Some root /\ edges true root) ->
  exists root, item_tree_root_node st' = Some root /\ edges true root.
Proof.
  intros Hstep (root & Hroot & Hedges).
  destruct Hstep as [st n v st' Hn Hmax Hself H|st n v st' Hn Hmax Hother H].
  - apply create_root_folder_node_tree in H
      as [_ [[-> _]|(root' & Hinsert & Hroot' & _)]]; [eauto|].
    exists root'. split; [exact Hroot'|].
    rewrite Hroot in Hinsert.
    apply insert_value_inv in Hinsert
      as (value & sub_nodes & sub_nodes' & [= ->] & -> & Hinsert).
    eapply edges_ok_insert; [exact Hedges| |apply edges_ok_leaf|exact Hinsert].
    exists v. split; [eapply from_leaf_node_of; eauto|]. right. auto.
  - apply attach_item_descriptor_tree in H
      as [_ [(_ & Htree & _)|[(p & root0 & _ & _ & _ & ->)
                             |(p & root0 & parent' & Hsearch & Hroot0
                               & Hinsert & Hroot' & _)]]].
    + exists root. split; [|exact Hedges].
      unfold item_tree_root_node in *. rewrite Htree. exact Hroot.
    + eauto.
    + rewrite Hroot in Hroot0. injection Hroot0 as <-.
      eexists. split; [exact Hroot'|].
      rewrite Hroot in Hsearch.
      apply get_tree_node_by_identifier_Ret1 in Hsearch
        as [[(old & Hold & d & Hd & Hid) _] _].
      rewrite Hold in Hinsert.
      apply insert_value_inv in Hinsert
        as (value & sub_nodes & sub_nodes' & [= ->] & -> & Hinsert).
      eapply edges_ok_store; [exact Hedges|exact Hold| |reflexivity].
      eapply edges_ok_insert;
        [eapply edges_ok_at; eauto| |apply edges_ok_leaf|exact Hinsert].
      exists v. split; [eapply from_leaf_node_of; eauto|]. left.
      split; [exact Hother|]. exists d. auto.
Qed.
End builder_edges.

(** X6.  In the tree of a successful build every edge follows the index.
    A node other than the root carries the descriptor of an index leaf
    whose identifier fits in 32 bits: its identifier is the 32-bit
    identifier of the leaf, its data and local descriptors identifiers are
    those of the leaf, and it is not marked recovered.  Either the leaf is
    not its own parent and the node hangs below a node whose identifier is
    the parent identifier of the leaf, or the leaf is its own parent and
    the node hangs directly below the root. *)
Theorem built_tree_edges_follow_index {N : Type}
    (descriptors_index : libpff_descriptors_index_t N)
    tree orphans root_folder st root q parent i m :
  libpff_item_tree_create descriptors_index tree orphans root_folder
  = Some (Ok st) ->
  item_tree_root_node st = Some root ->
  tree_node_at q root = Some parent ->
  tree_node_sub_nodes parent !! i = Some m ->
  exists n v,
    libfdata_tree_node_get_node_value descriptors_index n = Ok (Some v)
    /\ index_value.identifier v <= UINT32_MAX
    /\ libcdata_tree_node_get_value m
       = Some
           (libpff_item_descriptor_initialize
              (uint32_cast (index_value.identifier v))
              (index_value.data_identifier v)
              (index_value.local_descriptors_identifier v) 0)
    /\ ((uint32_cast (index_value.identifier v)
         <> index_value.parent_identifier v
         /\ has_identifier (index_value.parent_identifier v) parent)
        \/ (uint32_cast (index_value.identifier v)
            = index_value.parent_identifier v
            /\ q = [])).
Proof.
  intros Hcreate Hroot Hq Hi.
  apply libpff_item_tree_create_steps in Hcreate.
  eapply (leaf_steps_preserve descriptors_index
            (fun st => exists root,
               item_tree_root_node st = Some root
               /\ edges_ok descriptors_index true root)) in Hcreate.
  - destruct Hcreate as (root0 & Hroot0 & Hedges).
    rewrite Hroot in Hroot0. injection Hroot0 as <-.
    pose proof (edges_ok_at _ _ _ _ _ Hedges Hq) as Hparent.
    remember (top_at true q) as top eqn:Htopq.
    destruct Hparent as [top value sub_nodes Hplaced _]. simpl in Hi.
    rewrite Forall_lookup in Hplaced.
    destruct (Hplaced i m Hi) as (v & ((n & Hn) & Hmax & Hm) & Hedge).
    exists n, v. split; [exact Hn|]. split; [exact Hmax|].
    split; [exact Hm|].
    destruct Hedge as [(Hother & d & -> & Hid)|[Htop Hself]].
    + left. split; [exact Hother|]. exists d. auto.
    + right. split; [exact Hself|].
      destruct q; [reflexivity|simpl in Htopq; congruence].
  - intros st1 st2. apply leaf_step_edges.
  - eexists. split; [reflexivity|]. apply edges_ok_leaf.
Qed.

Lemma built_tree_edges_follow_index_witness :
  exists n v,
    libfdata_tree_node_get_node_value s1_index n = Ok (Some v)
    /\ index_value.identifier v <= UINT32_MAX
    /\ libcdata_tree_node_get_value (chain_node 0 4)
       = Some
           (libpff_item_descriptor_initialize
              (uint32_cast (index_value.identifier v))
              (index_value.data_identifier v)
              (index_value.local_descriptors_identifier v) 0)
    /\ ((uint32_cast (index_value.identifier v)
         <> index_value.parent_identifier v
         /\ has_identifier (index_value.parent_identifier v)
              (TreeNode (Some (libpff_item_descriptor_initialize 2 0 0 0))
                 [chain_node 0 4]))
        \/ (uint32_cast (index_value.identifier v)
            = index_value.parent_identifier v
            /\ [0%nat; 0%nat] = [])).
Proof.
  apply (built_tree_edges_follow_index s1_index
           (Some libpff_item_tree_initialize) [] (Some None) s1_state
           (TreeNode (Some (libpff_item_descriptor_initialize 0 0 0 0))
              [TreeNode (Some (libpff_item_descriptor_initialize 1 0 0 0))
                 [TreeNode (Some (libpff_item_descriptor_initialize 2 0 0 0))
                    [chain_node 0 4];
                  chain_node 0 3]])
           [0%nat; 0%nat]
           (TreeNode (Some (libpff_item_descriptor_initialize 2 0 0 0))
              [chain_node 0 4])
           0%nat (chain_node 0 4)).
  - vm_compute. reflexivity.
  - reflexivity.
  - reflexivity.
  - reflexivity.
Defined.

(** ** The root folder node *)

Lemma sub_node_store_kept p new root old child :
  tree_node_at p root = Some old ->
  libcdata_tree_node_get_value new = libcdata_tree_node_get_value old ->
  (forall s, s ∈ tree_node_sub_nodes old -> s ∈ tree_node_sub_nodes new) ->
  child ∈ tree_node_sub_nodes root ->
  exists child',
    child' ∈ tree_node_sub_nodes (tree_node_store p new root)
    /\ libcdata_tree_node_get_value child'
       = libcdata_tree_node_get_value child.
Proof.
  intros Hp Hv Hsub Hchild. destruct p as [|i p].
  - injection Hp as <-. exists child. split; [apply Hsub; exact Hchild|].
    reflexivity.
  - destruct root as [value sub_nodes]. rewrite tree_node_at_cons in Hp.
    simpl in *.
    destruct (sub_nodes !! i) as [s|] eqn:Hi; [|discriminate]. simpl in Hp.
    apply list_elem_of_lookup in Hchild as [j Hj].
    destruct (decide (j = i)) as [->|Hne].
    + rewrite Hi in Hj. injection Hj as <-.
      exists (tree_node_store p new s). split.
      * apply (list_elem_of_lookup_2 _ i). simpl.
        apply list_lookup_insert_eq. eapply lookup_lt_Some. exact Hi.
      * eapply tree_node_store_value; eauto.
    + exists child. split; [|reflexivity].
      apply (list_elem_of_lookup_2 _ j). simpl.
      rewrite list_lookup_insert_ne by auto. exact Hj.
Qed.

Section builder_root_folder.
Context {N : Type} (descriptors_index : libpff_descriptors_index_t N).

(** A set root folder node is a sub node of the root that comes from a
    leaf that is its own parent. *)
Lemma leaf_step_root_folder_node st st' :
  leaf_step descriptors_index st st' ->
  (forall d,
     root_folder_item_tree_node st = Some (Some d) ->
     exists root child v,
       item_tree_root_node st = Some root
       /\ child ∈ tree_node_sub_nodes root
       /\ from_leaf descriptors_index child v
       /\ d = leaf_item_descriptor v
       /\ uint32_cast (index_value.identifier v)
          = index_value.parent_identifier v) ->
  forall d,
    root_folder_item_tree_node st' = Some (Some d) ->
    exists root child v,
      item_tree_root_node st' = Some root
      /\ child ∈ tree_node_sub_nodes root
      /\ from_leaf descriptors_index child v
      /\ d = leaf_item_descriptor v
      /\ uint32_cast (index_value.identifier v)
         = index_value.parent_identifier v.
Proof.
  intros Hstep Hst d Hd.
  destruct Hstep as [st n v st' Hn Hmax Hself H|st n v st' Hn Hmax Hother H].
  - apply create_root_folder_node_tree in H
      as [_ [[-> _]|(root' & Hinsert & Hroot' & Hrf)]]; [eauto|].
    rewrite Hrf in Hd. injection Hd as <-.
    apply insert_value_inv in Hinsert
      as (value & sub_nodes & sub_nodes' & _ & -> & Hinsert).
    exists (TreeNode value sub_nodes'),
      (item_tree_node_of (leaf_item_descriptor v)), v.
    split; [exact Hroot'|].
    split; [eapply insert_sub_node_elem_new; exact Hinsert|].
    split; [eapply from_leaf_node_of; eauto|]. auto.
  - apply attach_item_descriptor_tree in H
      as [Hrf [(_ & Htree & _)|[(p & root0 & _ & _ & _ & ->)
                               |(p & root0 & parent' & Hsearch & Hroot0
                                 & Hinsert & Hroot' & _)]]].
    + rewrite Hrf in Hd.
      destruct (Hst d Hd) as (root & child & w & Hroot & Hrest).
      exists root, child, w. split; [|exact Hrest].
      unfold item_tree_root_node in *. rewrite Htree. exact Hroot.
    + eauto.
    + rewrite Hrf in Hd.
      destruct (Hst d Hd)
        as (root & child & w & Hroot & Hchild & (Hw & Hwmax & Hvalue) & Hrest).
      rewrite Hroot in Hroot0. injection Hroot0 as <-.
      destruct (tree_node_at p root) as [old|] eqn:Hold;
        [|apply insert_value_inv in Hinsert
            as (? & ? & ? & ? & _); discriminate].
      apply insert_value_inv in Hinsert
        as (value & sub_nodes & sub_nodes' & [= ->] & -> & Hinsert).
      destruct (sub_node_store_kept p (TreeNode value sub_nodes') root
                  (TreeNode value sub_nodes) child Hold eq_refl)
        as (child' & Hchild' & Hvalue'); [|exact Hchild|].
      { intros s. simpl. eapply insert_sub_node_elem_old. exact Hinsert. }
      exists (tree_node_store p (TreeNode value sub_nodes') root), child', w.
      split; [exact Hroot'|]. split; [exact Hchild'|].
      split; [|exact Hrest].
      split; [exact Hw|]. split; [exact Hwmax|]. congruence.
Qed.
End builder_root_folder.

(** X7.  When a build that starts with the root folder node unset ends
    with it set, the root folder node is a sub node of the root of the
    item tree that comes from an index leaf that is its own parent, and
    the sub node search on the root for its identifier returns it. *)
Theorem root_folder_node_is_sub_node_of_root {N : Type}
    (descriptors_index : libpff_descriptors_index_t N)
    tree orphans st d :
  libpff_item_tree_create descriptors_index tree orphans (Some None)
  = Some (Ok st) ->
  root_folder_item_tree_node st = Some (Some d) ->
  exists root i child n v,
    item_tree_root_node st = Some root
    /\ tree_node_sub_nodes root !! i = Some child
    /\ libcdata_tree_node_get_value child = Some d
    /\ libfdata_tree_node_get_node_value descriptors_index n = Ok (Some v)
    /\ d = leaf_item_descriptor v
    /\ uint32_cast (index_value.identifier v)
       = index_value.parent_identifier v
    /\ libpff_item_tree_get_sub_node_by_identifier (Some root)
         (descriptor_identifier d) (Some None) = Ret1 [i].
Proof.
  intros Hcreate Hd.
  pose proof (building_ok _ _ (libpff_item_tree_create_building _ _ _ _ _
                                 Hcreate)) as (root & Hroot & Hok & Hvalue).
  apply libpff_item_tree_create_steps in Hcreate.
  pose proof (leaf_steps_preserve descriptors_index
                (fun st => forall d,
                   root_folder_item_tree_node st = Some (Some d) ->
                   exists root child v,
                     item_tree_root_node st = Some root
                     /\ child ∈ tree_node_sub_nodes root
                     /\ from_leaf descriptors_index child v
                     /\ d = leaf_item_descriptor v
                     /\ uint32_cast (index_value.identifier v)
                        = index_value.parent_identifier v)
                _ _ (leaf_step_root_folder_node descriptors_index) Hcreate)
    as Hinv.
  cbv beta in Hinv.
  destruct (Hinv (fun d0 H0 => ltac:(discriminate H0)) d Hd)
    as (root0 & child & v & Hroot0 & Hchild & ((n & Hn) & _ & Hv) & -> & Hself).
  rewrite Hroot in Hroot0. injection Hroot0 as <-.
  apply list_elem_of_lookup in Hchild as [i Hi].
  exists root, i, child, n, v.
  repeat (split; [assumption|]).
  destruct Hok as [value sub_nodes _ Hasc _]. simpl in *.
  rewrite Hvalue.
  split; [reflexivity|]. split; [exact Hself|].
  apply (scan_sub_nodes_first _ _ 0 i child Hi).
  - exists (leaf_item_descriptor v). auto.
  - intros j s Hj Hs.
    destruct (strictly_ascending_lookup _ _ _ _ _ Hasc Hj Hs Hi)
      as (x & y & Hx & Hy & Hxy).
    exists x. split; [exact Hx|]. simplify_eq.
    unfold leaf_item_descriptor in Hxy. simpl in Hxy. lia.
Qed.

Lemma root_folder_node_is_sub_node_of_root_witness :
  exists root i child n v,
    item_tree_root_node s1_state = Some root
    /\ tree_node_sub_nodes root !! i = Some child
    /\ libcdata_tree_node_get_value child
       = Some (libpff_item_descriptor_initialize 1 0 0 0)
    /\ libfdata_tree_node_get_node_value s1_index n = Ok (Some v)
    /\ libpff_item_descriptor_initialize 1 0 0 0 = leaf_item_descriptor v
    /\ uint32_cast (index_value.identifier v)
       = index_value.parent_identifier v
    /\ libpff_item_tree_get_sub_node_by_identifier (Some root)
         (descriptor_identifier (libpff_item_descriptor_initialize 1 0 0 0))
         (Some None) = Ret1 [i].
Proof.
  apply (root_folder_node_is_sub_node_of_root s1_index
           (Some libpff_item_tree_initialize) [] s1_state
           (libpff_item_descriptor_initialize 1 0 0 0)).
  - vm_compute. reflexivity.
  - reflexivity.
Defined.

(** ** The orphan list and the nodes of the tree are kept *)

Lemma tree_kept_refl t : tree_kept t t.
Proof. split; [reflexivity|]. intros q m Hq. exists q, m. auto. Qed.

Lemma tree_kept_trans t1 t2 t3 :
  tree_kept t1 t2 -> tree_kept t2 t3 -> tree_kept t1 t3.
Proof.
  intros [Hv12 H12] [Hv23 H23]. split; [congruence|].
  intros q m Hq.
  destruct (H12 q m Hq) as (q2 & m2 & Hq2 & Hlen2 & Hm2).
  destruct (H23 q2 m2 Hq2) as (q3 & m3 & Hq3 & Hlen3 & Hm3).
  exists q3, m3. split; [exact Hq3|]. split; congruence.
Qed.

Lemma tree_kept_store p new t old :
  tree_node_at p t = Some old ->
  libcdata_tree_node_get_value new = libcdata_tree_node_get_value old ->
  (forall s, s ∈ tree_node_sub_nodes old -> s ∈ tree_node_sub_nodes new) ->
  tree_kept t (tree_node_store p new t).
Proof.
  intros Hp Hv Hsub.
  split; [eapply tree_node_store_value; eauto|].
  revert t Hp. induction p as [|i p IH]; intros t Hp q m Hq.
  - injection Hp as ->. simpl. destruct q as [|j q].
    + injection Hq as <-. exists [], new. auto.
    + simpl in Hq.
      destruct (tree_node_sub_nodes old !! j) as [s|] eqn:Hj; [|discriminate].
      apply list_elem_of_lookup_2, Hsub, list_elem_of_lookup in Hj as [j' Hj'].
      exists (j' :: q), m. simpl. rewrite Hj'. auto.
  - destruct t as [value sub_nodes]. rewrite tree_node_at_cons in Hp.
    simpl.
    destruct (sub_nodes !! i) as [s|] eqn:Hi; [|discriminate]. simpl in Hp.
    destruct q as [|j q].
    + injection Hq as <-. eexists [], _. simpl. auto.
    + simpl in Hq.
      destruct (sub_nodes !! j) as [s'|] eqn:Hj; [|discriminate].
      destruct (decide (j = i)) as [->|Hne].
      * rewrite Hi in Hj. injection Hj as <-.
        destruct (IH s Hp q m Hq) as (q' & m' & Hq' & Hlen & Hm').
        exists (i :: q'), m'. simpl.
        rewrite list_lookup_insert_eq by (eapply lookup_lt_Some; exact Hi).
        simpl. auto.
      * exists (j :: q), m. simpl.
        rewrite list_lookup_insert_ne by auto. rewrite Hj. auto.
Qed.

Section builder_kept.
Context {N : Type} (descriptors_index : libpff_descriptors_index_t N).

Lemma leaf_step_kept st st' root :
  leaf_step descriptors_index st st' ->
  item_tree_root_node st = Some root ->
  (exists root',
     item_tree_root_node st' = Some root' /\ tree_kept root root')
  /\ exists new,
       orphan_node_list st' = orphan_node_list st ++ new
       /\ Forall (orphan_of descriptors_index) new.
Proof.
  intros Hstep Hroot.
  destruct Hstep as [st n v st' Hn Hmax Hself H|st n v st' Hn Hmax Hother H].
  - apply create_root_folder_node_tree in H
      as [Horphans [[-> _]|(root' & Hinsert & Hroot' & _)]].
    + split; [exists root; split; [exact Hroot|apply tree_kept_refl]|].
      exists []. rewrite app_nil_r. auto.
    + split; [|exists []; rewrite app_nil_r; auto].
      exists root'. split; [exact Hroot'|].
      rewrite Hroot in Hinsert.
      apply insert_value_inv in Hinsert
        as (value & sub_nodes & sub_nodes' & [= ->] & -> & Hinsert).
      apply (tree_kept_store [] (TreeNode value sub_nodes')
               (TreeNode value sub_nodes) (TreeNode value sub_nodes));
        [reflexivity|reflexivity|].
      intros s. simpl. eapply insert_sub_node_elem_old. exact Hinsert.
  - apply attach_item_descriptor_tree in H
      as [_ [(_ & Htree & Horphans)|[(p & root0 & _ & _ & _ & ->)
                                    |(p & root0 & parent' & Hsearch & Hroot0
                                      & Hinsert & Hroot' & Horphans)]]].
    + split.
      * exists root. split; [|apply tree_kept_refl].
        unfold item_tree_root_node in *. rewrite Htree. exact Hroot.
      * eexists. split; [exact Horphans|]. constructor; [|constructor].
        exists v. split; [eapply from_leaf_node_of; eauto|]. auto.
    + split; [exists root; split; [exact Hroot|apply tree_kept_refl]|].
      exists []. rewrite app_nil_r. auto.
    + split; [|exists []; rewrite app_nil_r; auto].
      rewrite Hroot in Hroot0. injection Hroot0 as <-.
      eexists. split; [exact Hroot'|].
      destruct (tree_node_at p root) as [old|] eqn:Hold;
        [|apply insert_value_inv in Hinsert
            as (? & ? & ? & ? & _); discriminate].
      apply insert_value_inv in Hinsert
        as (value & sub_nodes & sub_nodes' & [= ->] & -> & Hinsert).
      eapply tree_kept_store; [exact Hold|reflexivity|].
      intros s. simpl. eapply insert_sub_node_elem_old. exact Hinsert.
Qed.

Lemma leaf_steps_kept st st' root :
  leaf_steps descriptors_index st st' ->
  item_tree_root_node st = Some root ->
  (exists root',
     item_tree_root_node st' = Some root' /\ tree_kept root root')
  /\ exists new,
       orphan_node_list st' = orphan_node_list st ++ new
       /\ Forall (orphan_of descriptors_index) new.
Proof.
  intros H Hroot. induction H as [|st st1 st' _ IH Hstep].
  - split; [exists root; split; [exact Hroot|apply tree_kept_refl]|].
    exists []. rewrite app_nil_r. auto.
  - destruct (IH Hroot) as [(root1 & Hroot1 & Hkept1) (new1 & Hnew1 & Hall1)].
    destruct (leaf_step_kept _ _ _ Hstep Hroot1)
      as [(root' & Hroot' & Hkept) (new & Hnew & Hall)].
    split.
    + exists root'. split; [exact Hroot'|].
      eapply tree_kept_trans; eauto.
    + exists (new1 ++ new). rewrite Hnew, Hnew1, app_assoc.
      split; [reflexivity|]. apply Forall_app. auto.
Qed.
End builder_kept.

(** X8.  A successful call of [libpff_item_tree_create_node], on any
    state that has a root node, takes nothing out of the item tree: the
    root keeps its descriptor, and every node of the tree before the call
    has a counterpart after it, at the same depth and with the same
    descriptor. *)
Theorem create_node_keeps_the_tree {N : Type}
    (descriptors_index : libpff_descriptors_index_t N)
    fuel st n depth st' root :
  libpff_item_tree_create_node descriptors_index fuel st n depth
  = Some (Ok st') ->
  item_tree_root_node st = Some root ->
  exists root',
    item_tree_root_node st' = Some root'
    /\ libcdata_tree_node_get_value root' = libcdata_tree_node_get_value root
    /\ forall q m,
         tree_node_at q root = Some m ->
         exists q' m',
           tree_node_at q' root' = Some m'
           /\ length q' = length q
           /\ libcdata_tree_node_get_value m'
              = libcdata_tree_node_get_value m.
Proof.
  intros H Hroot. apply create_node_steps in H.
  destruct (leaf_steps_kept _ _ _ _ H Hroot)
    as [(root' & Hroot' & Hvalue & Hkept) _].
  exists root'. auto.
Qed.

Lemma create_node_keeps_the_tree_witness :
  exists root',
    item_tree_root_node
      {| item_tree := Some {| root_node := Some (chain_node 2 0) |};
         orphan_node_list := [];
         root_folder_item_tree_node := Some None |} = Some root'
    /\ libcdata_tree_node_get_value root'
       = libcdata_tree_node_get_value (chain_node 1 0)
    /\ forall q m,
         tree_node_at q (chain_node 1 0) = Some m ->
         exists q' m',
           tree_node_at q' root' = Some m'
           /\ length q' = length q
           /\ libcdata_tree_node_get_value m'
              = libcdata_tree_node_get_value m.
Proof.
  apply (create_node_keeps_the_tree s1_index 3
           {| item_tree := Some {| root_node := Some (chain_node 1 0) |};
              orphan_node_list := [];
              root_folder_item_tree_node := Some None |}
           (index_leaf 2 1) 0
           {| item_tree := Some {| root_node := Some (chain_node 2 0) |};
              orphan_node_list := [];
              root_folder_item_tree_node := Some None |}
           (chain_node 1 0)).
  - vm_compute. reflexivity.
  - reflexivity.
Defined.

(** X9.  A successful call of [libpff_item_tree_create_node], on any
    state that has a root node, only appends to the orphan list: the
    orphans before the call stay in their places, and every node that is
    added is a node without sub nodes that carries the descriptor of an
    index leaf that is not its own parent. *)
Theorem create_node_appends_orphans {N : Type}
    (descriptors_index : libpff_descriptors_index_t N)
    fuel st n depth st' :
  libpff_item_tree_create_node descriptors_index fuel st n depth
  = Some (Ok st') ->
  is_Some (item_tree_root_node st) ->
  exists new,
    orphan_node_list st' = orphan_node_list st ++ new
    /\ forall o,
         o ∈ new ->
         exists m v,
           libfdata_tree_node_get_node_value descriptors_index m
           = Ok (Some v)
           /\ index_value.identifier v <= UINT32_MAX
           /\ uint32_cast (index_value.identifier v)
              <> index_value.parent_identifier v
           /\ o = TreeNode (Some (leaf_item_descriptor v)) [].
Proof.
  intros H [root Hroot]. apply create_node_steps in H.
  destruct (leaf_steps_kept _ _ _ _ H Hroot) as [_ (new & Hnew & Hall)].
  exists new. split; [exact Hnew|].
  intros o Ho. rewrite Forall_forall in Hall.
  destruct (Hall o Ho) as (v & ((m & Hm) & Hmax & _) & Hother & ->).
  exists m, v. auto.
Qed.

Lemma create_node_appends_orphans_witness :
  exists new,
    orphan_node_list
      {| item_tree := Some {| root_node := Some synthetic_root |};
         orphan_node_list := [chain_node 0 50; chain_node 0 7; chain_node 0 8];
         root_folder_item_tree_node := Some None |}
    = [chain_node 0 50] ++ new
    /\ forall o,
         o ∈ new ->
         exists m v,
           libfdata_tree_node_get_node_value orphans_index m = Ok (Some v)
           /\ index_value.identifier v <= UINT32_MAX
           /\ uint32_cast (index_value.identifier v)
              <> index_value.parent_identifier v
           /\ o = TreeNode (Some (leaf_item_descriptor v)) [].
Proof.
  apply (create_node_appends_orphans orphans_index item_tree_fuel
           {| item_tree := Some {| root_node := Some synthetic_root |};
              orphan_node_list := [chain_node 0 50];
              root_folder_item_tree_node := Some None |}
           (index_branch [index_leaf 7 99; index_leaf 8 98]) 0
           {| item_tree := Some {| root_node := Some synthetic_root |};
              orphan_node_list :=
                [chain_node 0 50; chain_node 0 7; chain_node 0 8];
              root_folder_item_tree_node := Some None |}).
  - vm_compute. reflexivity.
  - eexists. reflexivity.
Defined.

(** ** Where a leaf ends up *)

Section builder_leaf.
Context {N : Type} (descriptors_index : libpff_descriptors_index_t N).

(** The last thing a successful [libpff_item_tree_create_leaf_node] does
    is the placement of its own leaf. *)
Lemma create_leaf_node_last_step fuel st n depth st' v :
  libpff_item_tree_create_leaf_node descriptors_index fuel st n depth
  = Some (Ok st') ->
  libfdata_tree_node_get_node_value descriptors_index n = Ok (Some v) ->
  exists st1,
    (uint32_cast (index_value.identifier v) = index_value.parent_identifier v
     /\ create_root_folder_node st1 (leaf_item_descriptor v) = Ok st')
    \/ (uint32_cast (index_value.identifier v)
        <> index_value.parent_identifier v
        /\ attach_item_descriptor st1 (leaf_item_descriptor v)
             (libpff_item_tree_get_tree_node_by_identifier
                (item_tree_root_node st1) (index_value.parent_identifier v)
                (Some None) 0)
           = Ok st').
Proof.
  intros H Hn. destruct fuel as [|fuel]; [discriminate|].
  simpl in H. rewrite Hn in H.
  repeat (case_match_in H; try discriminate);
    try apply Some_eq_inv in H;
    repeat match goal with
    | Heq : (_ =? _) = true |- _ => apply Z.eqb_eq in Heq
    | Hne : (_ =? _) = false |- _ => apply Z.eqb_neq in Hne
    end.
  all: first
    [ exists st; left; split; [assumption|exact H]
    | eexists; right; split; [assumption|exact H]
    | exists st; right; split; [assumption|];
      match goal with
      | Hs : libpff_item_tree_get_tree_node_by_identifier _ _ _ _ = _
        |- _ => rewrite Hs; exact H
      end ].
Qed.
End builder_leaf.

(** X10.  No leaf is lost.  After a successful call of
    [libpff_item_tree_create_leaf_node] for an index leaf, a node with the
    32-bit identifier of the leaf is in the item tree or the node of the
    leaf is the last orphan: when the leaf is its own parent the root has
    a sub node with the identifier; otherwise either a node with the
    parent identifier of the leaf has a sub node with the identifier, or
    no node of the tree carries the parent identifier and the leaf's node
    ends the orphan list. *)
Theorem leaf_is_placed_or_orphaned {N : Type}
    (descriptors_index : libpff_descriptors_index_t N)
    fuel st n depth st' v :
  libpff_item_tree_create_leaf_node descriptors_index fuel st n depth
  = Some (Ok st') ->
  libfdata_tree_node_get_node_value descriptors_index n = Ok (Some v) ->
  exists root,
    item_tree_root_node st' = Some root
    /\ ((uint32_cast (index_value.identifier v)
         = index_value.parent_identifier v
         /\ exists i child,
              tree_node_sub_nodes root !! i = Some child
              /\ has_identifier (uint32_cast (index_value.identifier v))
                   child)
        \/ (uint32_cast (index_value.identifier v)
            <> index_value.parent_identifier v
            /\ exists p parent i child,
                 tree_node_at p root = Some parent
                 /\ has_identifier (index_value.parent_identifier v) parent
                 /\ tree_node_sub_nodes parent !! i = Some child
                 /\ has_identifier (uint32_cast (index_value.identifier v))
                      child)
        \/ (uint32_cast (index_value.identifier v)
            <> index_value.parent_identifier v
            /\ (forall q m,
                  tree_node_at q root = Some m ->
                  lacks_identifier (index_value.parent_identifier v) m)
            /\ exists l,
                 orphan_node_list st'
                 = l ++ [TreeNode (Some (leaf_item_descriptor v)) []])).
Proof.
  intros H Hn.
  destruct (create_leaf_node_last_step _ _ _ _ _ _ _ H Hn)
    as (st1 & [[Hself Hstep]|[Hother Hstep]]).
  - apply create_root_folder_node_tree in Hstep
      as [_ [[-> Hinsert]|(root' & Hinsert & Hroot' & _)]].
    + apply insert_value_Ret0_inv in Hinsert
        as (value & sub_nodes & Hroot & Hinsert).
      apply insert_sub_node_Ret0_elem in Hinsert
        as (s & d & d' & Hs & [= <-] & Hd' & Hid).
      apply list_elem_of_lookup in Hs as [i Hi].
      eexists. split; [exact Hroot|]. left. split; [exact Hself|].
      exists i, s. split; [exact Hi|]. exists d'. auto.
    + apply insert_value_inv in Hinsert
        as (value & sub_nodes & sub_nodes' & _ & -> & Hinsert).
      apply insert_sub_node_elem_new, list_elem_of_lookup in Hinsert
        as [i Hi].
      eexists. split; [exact Hroot'|]. left. split; [exact Hself|].
      exists i, (item_tree_node_of (leaf_item_descriptor v)).
      split; [exact Hi|]. eexists. split; reflexivity.
  - apply attach_item_descriptor_tree in Hstep
      as [_ [(Hsearch & Htree & Horphans)
            |[(p & root & Hsearch & Hroot & Hinsert & ->)
             |(p & root & parent' & Hsearch & Hroot & Hinsert & Hroot'
               & _)]]].
    + destruct (item_tree_root_node st1) as [root|] eqn:Hroot;
        [|discriminate].
      exists root. split.
      { unfold item_tree_root_node in *. rewrite Htree. exact Hroot. }
      right. right. split; [exact Hother|]. split.
      * eapply get_tree_node_by_identifier_Ret0. exact Hsearch.
      * eexists. exact Horphans.
    + rewrite Hroot in Hsearch.
      apply get_tree_node_by_identifier_Ret1 in Hsearch
        as [[(old & Hold & Hid) _] _].
      rewrite Hold in Hinsert.
      apply insert_value_Ret0_inv in Hinsert
        as (value & sub_nodes & [= ->] & Hinsert).
      apply insert_sub_node_Ret0_elem in Hinsert
        as (s & d & d' & Hs & [= <-] & Hd' & Hidd).
      apply list_elem_of_lookup in Hs as [i Hi].
      exists root. split; [exact Hroot|]. right. left.
      split; [exact Hother|].
      exists p, (TreeNode value sub_nodes), i, s.
      split; [exact Hold|]. split; [exact Hid|]. split; [exact Hi|].
      exists d'. auto.
    + rewrite Hroot in Hsearch.
      apply get_tree_node_by_identifier_Ret1 in Hsearch
        as [[(old & Hold & Hid) _] _].
      rewrite Hold in Hinsert.
      apply insert_value_inv in Hinsert
        as (value & sub_nodes & sub_nodes' & [= ->] & -> & Hinsert).
      apply insert_sub_node_elem_new, list_elem_of_lookup in Hinsert
        as [i Hi].
      eexists. split; [exact Hroot'|]. right. left.
      split; [exact Hother|].
      exists p, (TreeNode value sub_nodes'), i,
        (item_tree_node_of (leaf_item_descriptor v)).
      split; [eapply tree_node_at_store; exact Hold|].
      split; [exact Hid|]. split; [exact Hi|].
      eexists. split; reflexivity.
Qed.

Lemma leaf_is_placed_or_orphaned_witness :
  exists root,
    item_tree_root_node
      {| item_tree := Some {| root_node := Some (chain_node 2 0) |};
         orphan_node_list := [];
         root_folder_item_tree_node := Some None |} = Some root
    /\ ((uint32_cast 2 = 1
         /\ exists i child,
              tree_node_sub_nodes root !! i = Some child
              /\ has_identifier (uint32_cast 2) child)
        \/ (uint32_cast 2 <> 1
            /\ exists p parent i child,
                 tree_node_at p root = Some parent
                 /\ has_identifier 1 parent
                 /\ tree_node_sub_nodes parent !! i = Some child
                 /\ has_identifier (uint32_cast 2) child)
        \/ (uint32_cast 2 <> 1
            /\ (forall q m,
                  tree_node_at q root = Some m -> lacks_identifier 1 m)
            /\ exists l,
                 orphan_node_list
                   {| item_tree :=
                        Some {| root_node := Some (chain_node 2 0) |};
                      orphan_node_list := [];
                      root_folder_item_tree_node := Some None |}
                 = l ++ [TreeNode
                           (Some
                              (leaf_item_descriptor
                                 {| index_value.identifier := 2;
                                    index_value.parent_identifier := 1;
                                    index_value.data_identifier := 0;
                                    index_value.local_descriptors_identifier
                                      := 0 |}))
                           []])).
Proof.
  apply (leaf_is_placed_or_orphaned s1_index 2
           {| item_tree := Some {| root_node := Some (chain_node 1 0) |};
              orphan_node_list := [];
              root_folder_item_tree_node := Some None |}
           (index_leaf 2 1) 0
           {| item_tree := Some {| root_node := Some (chain_node 2 0) |};
              orphan_node_list := [];
              root_folder_item_tree_node := Some None |}
           {| index_value.identifier := 2;
              index_value.parent_identifier := 1;
              index_value.data_identifier := 0;
              index_value.local_descriptors_identifier := 0 |}).
  - vm_compute. reflexivity.
  - reflexivity.
Defined.

(** ** Building once *)

(** X11.  An item tree is built once.  After a successful build the item
    tree has a root node, so that a further call of
    [libpff_item_tree_create] on it, with any descriptors index, orphan
    list and root folder argument, fails with value already set. *)
Theorem built_tree_is_not_rebuilt {N N' : Type}
    (descriptors_index : libpff_descriptors_index_t N)
    (descriptors_index' : libpff_descriptors_index_t N')
    tree orphans root_folder st orphans' root_folder' :
  libpff_item_tree_create descriptors_index tree orphans root_folder
  = Some (Ok st) ->
  libpff_item_tree_create descriptors_index' (item_tree st) orphans'
    root_folder'
  = Some (Err LIBCERROR_RUNTIME_ERROR_VALUE_ALREADY_SET).
Proof.
  intros H.
  apply libpff_item_tree_create_building, building_ok in H
    as (root & Hroot & _).
  unfold item_tree_root_node in Hroot. unfold libpff_item_tree_create.
  destruct (item_tree st) as [t|]; [|discriminate].
  rewrite Hroot. reflexivity.
Qed.

Lemma built_tree_is_not_rebuilt_witness :
  libpff_item_tree_create empty_index (item_tree s1_state) [] (Some None)
  = Some (Err LIBCERROR_RUNTIME_ERROR_VALUE_ALREADY_SET).
Proof.
  apply (built_tree_is_not_rebuilt s1_index empty_index
           (Some libpff_item_tree_initialize) [] (Some None) s1_state).
  vm_compute. reflexivity.
Defined.

(** * The order of the leaves *)

(** ** The search after an insertion *)

Section traverse_first.
Variable f : libcdata_tree_node_t -> tri tree_node_ptr.

Lemma traverse_sub_nodes_first_Ret1 sub_nodes k i s p :
  sub_nodes !! i = Some s -> f s = Ret1 p ->
  (forall j s', (j < i)%nat -> sub_nodes !! j = Some s' -> f s' = Ret0) ->
  traverse_sub_nodes f k sub_nodes = Ret1 ((k + i)%nat :: p).
Proof.
  revert k i. induction sub_nodes as [|a l IH]; intros k i Hi Hs Hbefore.
  - discriminate.
  - destruct i as [|i]; simpl in *.
    + injection Hi as ->. rewrite Hs, Nat.add_0_r. reflexivity.
    + rewrite (Hbefore 0%nat a) by (lia || reflexivity).
      rewrite (IH (S k) i Hi Hs).
      * replace (S k + i)%nat with (k + S i)%nat by lia. reflexivity.
      * intros j s' Hj Hs'. apply (Hbefore (S j) s'); [lia|exact Hs'].
Qed.

Lemma traverse_sub_nodes_first_RetErr sub_nodes k i s e :
  sub_nodes !! i = Some s -> f s = RetErr e ->
  (forall j s', (j < i)%nat -> sub_nodes !! j = Some s' -> f s' = Ret0) ->
  traverse_sub_nodes f k sub_nodes = RetErr e.
Proof.
  revert k i. induction sub_nodes as [|a l IH]; intros k i Hi Hs Hbefore.
  - discriminate.
  - destruct i as [|i]; simpl in *.
    + injection Hi as ->. rewrite Hs. reflexivity.
    + rewrite (Hbefore 0%nat a) by (lia || reflexivity).
      apply (IH (S k) i Hi Hs).
      intros j s' Hj Hs'. apply (Hbefore (S j) s'); [lia|exact Hs'].
Qed.
End traverse_first.

(** The place where the insertion puts the node. *)
Lemma insert_sub_node_lookup n l l' :
  insert_sub_node n l = Ret1 l' ->
  exists i,
    l' !! i = Some n
    /\ forall j s, (j < i)%nat -> l' !! j = Some s -> l !! j = Some s.
Proof.
  revert l'. induction l as [|a l IH]; intros l' H; simpl in H.
  - injection H as <-. exists 0%nat. split; [reflexivity|]. intros; lia.
  - destruct (libpff_item_descriptor_compare _ _) as [[]|]; try discriminate.
    + injection H as <-. exists 0%nat. split; [reflexivity|]. intros; lia.
    + destruct (insert_sub_node n l) as [r| |]; try discriminate.
      injection H as <-. destruct (IH r eq_refl) as (i & Hi & Hbefore).
      exists (S i). split; [exact Hi|].
      intros [|j] s Hj Hs; [exact Hs|]. simpl in *. apply Hbefore; [lia|exact Hs].
Qed.

(** A search that has found the node at [q] finds it again when the
    tree is changed at that node or below it, as long as the node keeps
    its value. *)
Lemma search_store_below t identifier depth q r new :
  get_tree_node_by_identifier t identifier (Some None) depth = Ret1 q ->
  (r = [] ->
   exists old,
     tree_node_at q t = Some old
     /\ libcdata_tree_node_get_value new = libcdata_tree_node_get_value old) ->
  get_tree_node_by_identifier (tree_node_store (q ++ r) new t) identifier
    (Some None) depth
  = Ret1 q.
Proof.
  revert t depth. induction q as [|j q IH]; intros t depth H Hr.
  - destruct t as [value sub_nodes].
    assert (Hvalue : libcdata_tree_node_get_value
                       (tree_node_store ([] ++ r) new
                          (TreeNode value sub_nodes)) = value).
    { destruct r as [|i r].
      - destruct (Hr eq_refl) as (old & [= <-] & Hv). exact Hv.
      - simpl. destruct (sub_nodes !! i); reflexivity. }
    destruct (tree_node_store ([] ++ r) new (TreeNode value sub_nodes))
      as [value' sub_nodes'].
    simpl in Hvalue. subst value'.
    rewrite get_tree_node_by_identifier_unfold in *.
    destruct (recursion_depth_out_of_bounds depth); [discriminate|].
    destruct value as [d|]; [|discriminate].
    destruct (descriptor_identifier d =? identifier); [reflexivity|].
    apply traverse_sub_nodes_Ret1 in H as (i & p' & s & [=] & _).
  - destruct t as [value sub_nodes].
    rewrite get_tree_node_by_identifier_unfold in H.
    destruct (recursion_depth_out_of_bounds depth) eqn:Hdepth;
      [discriminate|].
    destruct value as [d|]; [|discriminate].
    destruct (descriptor_identifier d =? identifier) eqn:Hd;
      [discriminate|].
    apply traverse_sub_nodes_Ret1 in H
      as (i & p' & s & [= Hji Hqp] & Hi & Hs & Hbefore).
    simpl in Hji. subst j p'.
    simpl. rewrite Hi.
    rewrite get_tree_node_by_identifier_unfold, Hdepth, Hd.
    apply (traverse_sub_nodes_first_Ret1 _ _ 0 i
             (tree_node_store (q ++ r) new s)).
    + apply list_lookup_insert_eq. eapply lookup_lt_Some. exact Hi.
    + apply IH; [exact Hs|].
      intros ->. destruct (Hr eq_refl) as (old & Hold & Hv).
      rewrite tree_node_at_cons, Hi in Hold. simpl in Hold. eauto.
    + intros k s' Hk Hs'.
      rewrite list_lookup_insert_ne in Hs' by lia. eauto.
Qed.

(** A search that has found nothing finds the inserted node below [q],
    unless that node lies beyond the recursion depth. *)
Lemma search_store_new t identifier depth q value sub_nodes sub_nodes' d :
  0 <= depth ->
  get_tree_node_by_identifier t identifier (Some None) depth = Ret0 ->
  tree_node_at q t = Some (TreeNode value sub_nodes) ->
  insert_sub_node (item_tree_node_of d) sub_nodes = Ret1 sub_nodes' ->
  descriptor_identifier d = identifier ->
  exists i,
    sub_nodes' !! i = Some (item_tree_node_of d)
    /\ get_tree_node_by_identifier
         (tree_node_store q (TreeNode value sub_nodes') t) identifier
         (Some None) depth
       = if depth + Z.of_nat (length q) + 1
            >? LIBPFF_MAXIMUM_ITEM_TREE_RECURSION_DEPTH
         then RetErr LIBCERROR_ARGUMENT_ERROR_VALUE_OUT_OF_BOUNDS
         else Ret1 (q ++ [i]).
Proof.
  intros Hdepth0 H Hq Hinsert Hd.
  destruct (insert_sub_node_lookup _ _ _ Hinsert) as (i & Hi & Hbefore).
  exists i. split; [exact Hi|].
  revert t depth Hdepth0 H Hq. induction q as [|j q IH];
    intros t depth Hdepth0 H Hq.
  - injection Hq as ->. simpl tree_node_store.
    rewrite get_tree_node_by_identifier_unfold in *.
    destruct (recursion_depth_out_of_bounds depth) eqn:Hdepth;
      [discriminate|].
    destruct value as [dv|]; [|discriminate].
    destruct (descriptor_identifier dv =? identifier); [discriminate|].
    pose proof (traverse_sub_nodes_Ret0 _ _ _ H) as Hall.
    simpl length. 
    assert (Hn : get_tree_node_by_identifier (item_tree_node_of d) identifier
                   (Some None) (depth + 1)
                 = if depth + Z.of_nat 0 + 1
                      >? LIBPFF_MAXIMUM_ITEM_TREE_RECURSION_DEPTH
                   then RetErr LIBCERROR_ARGUMENT_ERROR_VALUE_OUT_OF_BOUNDS
                   else Ret1 []).
    { unfold item_tree_node_of, libcdata_tree_node_set_value,
        libcdata_tree_node_initialize.
      rewrite get_tree_node_by_identifier_unfold.
      unfold recursion_depth_out_of_bounds.
      replace (depth + Z.of_nat 0 + 1) with (depth + 1) by lia.
      destruct (depth + 1 <? 0) eqn:E; [lia|]. simpl.
      destruct (depth + 1 >? LIBPFF_MAXIMUM_ITEM_TREE_RECURSION_DEPTH);
        [reflexivity|].
      rewrite Hd, Z.eqb_refl. reflexivity. }
    destruct (depth + Z.of_nat 0 + 1 >? LIBPFF_MAXIMUM_ITEM_TREE_RECURSION_DEPTH).
    + eapply traverse_sub_nodes_first_RetErr; [exact Hi|exact Hn|].
      intros k s' Hk Hs'. eapply (Hall k). eapply Hbefore; eauto.
    + eapply (traverse_sub_nodes_first_Ret1 _ _ 0 i); [exact Hi|exact Hn|].
      intros k s' Hk Hs'. eapply (Hall k). eapply Hbefore; eauto.
  - destruct t as [tv tsub]. rewrite tree_node_at_cons in Hq.
    destruct (tsub !! j) as [s|] eqn:Hj; [|discriminate]. simpl in Hq.
    rewrite get_tree_node_by_identifier_unfold in H.
    simpl tree_node_store. rewrite Hj.
    rewrite get_tree_node_by_identifier_unfold.
    destruct (recursion_depth_out_of_bounds depth) eqn:Hdepth;
      [discriminate|].
    destruct tv as [dv|]; [|discriminate].
    destruct (descriptor_identifier dv =? identifier); [discriminate|].
    pose proof (traverse_sub_nodes_Ret0 _ _ _ H) as Hall.
    assert (Hlookup : <[j := tree_node_store q (TreeNode value sub_nodes') s]>
                        tsub !! j
                      = Some (tree_node_store q (TreeNode value sub_nodes') s))
      by (apply list_lookup_insert_eq; eapply lookup_lt_Some; exact Hj).
    specialize (IH s (depth + 1) ltac:(lia) (Hall j s Hj) Hq).
    replace (depth + 1 + Z.of_nat (length q) + 1)
      with (depth + Z.of_nat (length (j :: q)) + 1) in IH
      by (simpl length; lia).
    destruct (depth + Z.of_nat (length (j :: q)) + 1
              >? LIBPFF_MAXIMUM_ITEM_TREE_RECURSION_DEPTH).
    + eapply traverse_sub_nodes_first_RetErr; [exact Hlookup|exact IH|].
      intros k s' Hk Hs'. rewrite list_lookup_insert_ne in Hs' by lia. eauto.
    + eapply (traverse_sub_nodes_first_Ret1 _ _ 0 j);
        [exact Hlookup|exact IH|].
      intros k s' Hk Hs'. rewrite list_lookup_insert_ne in Hs' by lia. eauto.
Qed.

Lemma tree_node_at_store_below q r x t m :
  tree_node_at q t = Some m ->
  tree_node_at q (tree_node_store (q ++ r) x t)
  = Some (tree_node_store r x m).
Proof.
  revert t. induction q as [|j q IH]; intros t Hq.
  - injection Hq as ->. reflexivity.
  - destruct t as [value sub_nodes]. rewrite tree_node_at_cons in Hq.
    destruct (sub_nodes !! j) as [s|] eqn:Hj; [|discriminate]. simpl in Hq.
    simpl. rewrite Hj. simpl.
    rewrite list_lookup_insert_eq by (eapply lookup_lt_Some; exact Hj).
    apply IH. exact Hq.
Qed.

Lemma tree_node_at_app q r t m :
  tree_node_at q t = Some m -> tree_node_at (q ++ r) t = tree_node_at r m.
Proof.
  revert t. induction q as [|j q IH]; intros t Hq.
  - injection Hq as ->. reflexivity.
  - simpl in *. destruct (tree_node_sub_nodes t !! j); [|discriminate].
    apply IH. exact Hq.
Qed.

(** ** A leaf that is read ahead *)

Lemma attach_item_descriptor_found st root q value sub_nodes sub_nodes' d :
  item_tree_root_node st = Some root ->
  tree_node_at q root = Some (TreeNode value sub_nodes) ->
  insert_sub_node (item_tree_node_of d) sub_nodes = Ret1 sub_nodes' ->
  attach_item_descriptor st d (Ret1 q)
  = Ok (set_root_node st
          (tree_node_store q (TreeNode value sub_nodes') root)).
Proof.
  intros Hroot Hq Hinsert.
  unfold attach_item_descriptor, insert_value_at,
    libcdata_tree_node_insert_value, libcdata_tree_node_insert_node.
  rewrite Hroot, Hq. fold (item_tree_node_of d). rewrite Hinsert.
  reflexivity.
Qed.

Lemma attach_item_descriptor_duplicate st root q value sub_nodes d :
  item_tree_root_node st = Some root ->
  tree_node_at q root = Some (TreeNode value sub_nodes) ->
  insert_sub_node (item_tree_node_of d) sub_nodes = Ret0 ->
  attach_item_descriptor st d (Ret1 q) = Ok st.
Proof.
  intros Hroot Hq Hinsert.
  unfold attach_item_descriptor, insert_value_at,
    libcdata_tree_node_insert_value, libcdata_tree_node_insert_node.
  rewrite Hroot, Hq. fold (item_tree_node_of d). rewrite Hinsert.
  reflexivity.
Qed.

Section builder_walk.
Context {N : Type} (descriptors_index : libpff_descriptors_index_t N).

Local Abbreviation create_node :=
  (libpff_item_tree_create_node descriptors_index).

Local Abbreviation search st identifier :=
  (libpff_item_tree_get_tree_node_by_identifier (item_tree_root_node st)
     identifier (Some None) 0).

(** The call for a leaf whose parent the search finds, or fails to
    search for. *)
Lemma create_node_leaf_found fuel st n v depth :
  readable_leaf descriptors_index n v -> callable st depth ->
  index_value.identifier v <= UINT32_MAX ->
  uint32_cast (index_value.identifier v) <> index_value.parent_identifier v ->
  search st (index_value.parent_identifier v) <> Ret0 ->
  create_node (S (S fuel)) st n depth
  = Some
      (attach_item_descriptor st (leaf_item_descriptor v)
         (search st (index_value.parent_identifier v))).
Proof.
  intros ([k Hk] & Hdeleted & Hleaf & Hvalue) Hcall Hmax Hother Hsearch.
  rewrite create_node_callable by exact Hcall.
  rewrite Hk, Hdeleted, Hleaf.
  rewrite create_leaf_node_callable by exact Hcall.
  rewrite Hvalue.
  destruct (index_value.identifier v >? UINT32_MAX) eqn:E; [lia|].
  destruct (uint32_cast (index_value.identifier v)
            =? index_value.parent_identifier v) eqn:E'; [lia|].
  destruct (search st (index_value.parent_identifier v));
    [reflexivity|contradiction|reflexivity].
Qed.

(** The call for a leaf whose parent is read ahead. *)
Lemma create_node_leaf_read_ahead fuel st n v depth parent :
  readable_leaf descriptors_index n v -> callable st depth ->
  index_value.identifier v <= UINT32_MAX ->
  uint32_cast (index_value.identifier v) <> index_value.parent_identifier v ->
  search st (index_value.parent_identifier v) = Ret0 ->
  libpff_index_tree_get_leaf_node_by_identifier descriptors_index
    (index_value.parent_identifier v) = Ret1 (Some parent) ->
  create_node (S (S fuel)) st n depth
  = match create_node fuel st parent (depth + 1) with
    | Some (Ok st') =>
        Some
          (attach_item_descriptor st' (leaf_item_descriptor v)
             (search st' (index_value.parent_identifier v)))
    | failure => failure
    end.
Proof.
  intros ([k Hk] & Hdeleted & Hleaf & Hvalue) Hcall Hmax Hother Hsearch
    Hlookup.
  rewrite create_node_callable by exact Hcall.
  rewrite Hk, Hdeleted, Hleaf.
  rewrite create_leaf_node_callable by exact Hcall.
  rewrite Hvalue.
  destruct (index_value.identifier v >? UINT32_MAX) eqn:E; [lia|].
  destruct (uint32_cast (index_value.identifier v)
            =? index_value.parent_identifier v) eqn:E'; [lia|].
  rewrite Hsearch, Hlookup. reflexivity.
Qed.

(** The call for a branch with two sub nodes. *)
Lemma create_node_two_leaf_branch fuel st b n0 n1 depth :
  two_leaf_branch descriptors_index b n0 n1 -> callable st depth ->
  create_node (S fuel) st b depth
  = match create_node fuel st n0 (depth + 1) with
    | Some (Ok st1) => create_node fuel st1 n1 (depth + 1)
    | failure => failure
    end.
Proof.
  intros (Hnumber & Hdeleted & Hleaf & H0 & H1) Hcall.
  rewrite create_node_callable by exact Hcall.
  rewrite Hnumber, Hdeleted, Hleaf.
  change (Z.to_nat 2) with 2%nat.
  cbn [create_sub_nodes]. rewrite H0.
  destruct (create_node fuel st n0 (depth + 1)) as [[st1|e]|];
    try reflexivity.
  change (0 + 1) with 1. rewrite H1.
  destruct (create_node fuel st1 n1 (depth + 1)) as [[st2|e]|];
    reflexivity.
Qed.
End builder_walk.

(** A leaf is placed below the node that the search finds for its
    parent, and a second leaf below the first: the searches and the
    placements, and the placement of the first leaf once more. *)
Lemma read_ahead_placement st root q dP dC idQ :
  item_tree_root_node st = Some root -> tree_ok root ->
  get_tree_node_by_identifier root idQ (Some None) 0 = Ret1 q ->
  get_tree_node_by_identifier root (descriptor_identifier dP) (Some None) 0
  = Ret0 ->
  exists root2,
    attach_item_descriptor st dP (Ret1 q) = Ok (set_root_node st root2)
    /\ ((LIBPFF_MAXIMUM_ITEM_TREE_RECURSION_DEPTH < Z.of_nat (length q) + 1
         /\ get_tree_node_by_identifier root2 (descriptor_identifier dP)
              (Some None) 0
            = RetErr LIBCERROR_ARGUMENT_ERROR_VALUE_OUT_OF_BOUNDS)
        \/ (Z.of_nat (length q) + 1
            <= LIBPFF_MAXIMUM_ITEM_TREE_RECURSION_DEPTH
            /\ exists i root3 parent,
                 get_tree_node_by_identifier root2 (descriptor_identifier dP)
                   (Some None) 0
                 = Ret1 (q ++ [i])
                 /\ attach_item_descriptor (set_root_node st root2) dC
                      (Ret1 (q ++ [i]))
                    = Ok (set_root_node st root3)
                 /\ get_tree_node_by_identifier root3 idQ (Some None) 0
                    = Ret1 q
                 /\ attach_item_descriptor (set_root_node st root3) dP
                      (Ret1 q)
                    = Ok (set_root_node st root3)
                 /\ tree_node_at q root3 = Some parent
                 /\ tree_node_sub_nodes parent !! i
                    = Some (TreeNode (Some dP) [TreeNode (Some dC) []]))).
Proof.
  intros Hroot Hok HsearchQ HsearchP.
  pose proof (get_tree_node_by_identifier_Ret1 _ _ _ _ HsearchQ)
    as [[(Q & HQ & _) _] _].
  pose proof (tree_ok_at _ _ _ Hok HQ) as HokQ.
  destruct HokQ as [vQ subsQ HvQ Hasc Hsub].
  destruct (insert_sub_node (item_tree_node_of dP) subsQ) as [subs'| |e]
    eqn:Hinsert.
  2:{ exfalso.
      apply insert_sub_node_Ret0_elem in Hinsert
        as (s & d & d' & Hs & [= <-] & Hd' & Hid).
      apply list_elem_of_lookup in Hs as [j Hj].
      destruct (get_tree_node_by_identifier_Ret0 _ _ _ _ HsearchP
                  (q ++ [j]) s) as (x & Hx & Hne).
      - rewrite (tree_node_at_app _ _ _ _ HQ). simpl. rewrite Hj.
        reflexivity.
      - congruence. }
  2:{ exfalso. revert Hinsert. apply insert_sub_node_no_error.
      - eexists. reflexivity.
      - eapply Forall_impl; [exact Hsub|].
        intros s Hs. destruct Hs. assumption. }
  exists (tree_node_store q (TreeNode vQ subs') root).
  split; [eapply attach_item_descriptor_found; eauto|].
  pose proof (tree_node_at_store q (TreeNode vQ subs') root _ HQ) as HQ'.
  destruct (search_store_new root (descriptor_identifier dP) 0 q vQ subsQ
              subs' dP ltac:(lia) HsearchP HQ Hinsert eq_refl)
    as (i & Hi & Hsearch).
  destruct (0 + Z.of_nat (length q) + 1
            >? LIBPFF_MAXIMUM_ITEM_TREE_RECURSION_DEPTH) eqn:Hdepth.
  { left. split; [lia|exact Hsearch]. }
  right. split; [lia|].
  exists i,
    (tree_node_store (q ++ [i]) (TreeNode (Some dP) [TreeNode (Some dC) []])
       (tree_node_store q (TreeNode vQ subs') root)),
    (TreeNode vQ (<[i := TreeNode (Some dP) [TreeNode (Some dC) []]]> subs')).
  assert (Hat : tree_node_at q
                  (tree_node_store (q ++ [i])
                     (TreeNode (Some dP) [TreeNode (Some dC) []])
                     (tree_node_store q (TreeNode vQ subs') root))
                = Some (TreeNode vQ
                          (<[i := TreeNode (Some dP) [TreeNode (Some dC) []]]>
                             subs'))).
  { rewrite (tree_node_at_store_below _ _ _ _ _ HQ'). simpl. rewrite Hi.
    reflexivity. }
  split; [exact Hsearch|]. split; [|split; [|split; [|split]]].
  - erewrite (attach_item_descriptor_found _ _ (q ++ [i]) (Some dP) []
                [TreeNode (Some dC) []] dC);
      [reflexivity|reflexivity| |reflexivity].
    rewrite (tree_node_at_app _ _ _ _ HQ'). simpl. rewrite Hi. reflexivity.
  - apply search_store_below; [|intros [=]].
    rewrite <- (app_nil_r q) at 1.
    apply search_store_below; [exact HsearchQ|].
    intros _. exists (TreeNode vQ subsQ). split; [exact HQ|reflexivity].
  - eapply attach_item_descriptor_duplicate; [reflexivity|exact Hat|].
    eapply (insert_sub_node_duplicate _ _
              (TreeNode (Some dP) [TreeNode (Some dC) []]) dP dP);
      try reflexivity.
    + eapply strictly_ascending_insert; [|exact Hi|reflexivity].
      eapply insert_sub_node_ascending; eauto.
    + apply (list_elem_of_lookup_2 _ i).
      apply list_lookup_insert_eq. eapply lookup_lt_Some. exact Hi.
  - exact Hat.
  - simpl. apply list_lookup_insert_eq. eapply lookup_lt_Some. exact Hi.
Qed.

Lemma search_set_root_node st root identifier out depth :
  libpff_item_tree_get_tree_node_by_identifier
    (item_tree_root_node (set_root_node st root)) identifier out depth
  = get_tree_node_by_identifier root identifier out depth.
Proof. reflexivity. Qed.

(** The walk over two leaves, a parent and its child: when the child
    comes first the parent is read ahead, when the parent comes first it
    is not; the result is the same. *)
Lemma walk_order_of_parent_and_child {N1 N2 : Type}
    (index1 : libpff_descriptors_index_t N1)
    (index2 : libpff_descriptors_index_t N2)
    fuel st depth b1 c1 p1 p1' b2 p2 c2 P C q :
  state_ok st -> is_Some (root_folder_item_tree_node st) ->
  0 <= depth ->
  depth + 2 <= LIBPFF_MAXIMUM_ITEM_TREE_RECURSION_DEPTH ->
  (5 <= fuel)%nat ->
  index_value.identifier P <= UINT32_MAX ->
  index_value.identifier C <= UINT32_MAX ->
  uint32_cast (index_value.identifier P) <> index_value.parent_identifier P ->
  uint32_cast (index_value.identifier C) <> index_value.parent_identifier C ->
  index_value.parent_identifier C = uint32_cast (index_value.identifier P) ->
  two_leaf_branch index1 b1 c1 p1 ->
  readable_leaf index1 c1 C -> readable_leaf index1 p1 P ->
  libpff_index_tree_get_leaf_node_by_identifier index1
    (index_value.parent_identifier C) = Ret1 (Some p1') ->
  readable_leaf index1 p1' P ->
  two_leaf_branch index2 b2 p2 c2 ->
  readable_leaf index2 p2 P -> readable_leaf index2 c2 C ->
  libpff_item_tree_get_tree_node_by_identifier (item_tree_root_node st)
    (index_value.parent_identifier P) (Some None) 0 = Ret1 q ->
  libpff_item_tree_get_tree_node_by_identifier (item_tree_root_node st)
    (index_value.parent_identifier C) (Some None) 0 = Ret0 ->
  libpff_item_tree_create_node index1 fuel st b1 depth
  = libpff_item_tree_create_node index2 fuel st b2 depth
  /\ (Z.of_nat (length q) < LIBPFF_MAXIMUM_ITEM_TREE_RECURSION_DEPTH ->
      exists st' root' parent i,
        libpff_item_tree_create_node index1 fuel st b1 depth = Some (Ok st')
        /\ item_tree_root_node st' = Some root'
        /\ orphan_node_list st' = orphan_node_list st
        /\ root_folder_item_tree_node st' = root_folder_item_tree_node st
        /\ tree_node_at q root' = Some parent
        /\ tree_node_sub_nodes parent !! i
           = Some
               (TreeNode (Some (leaf_item_descriptor P))
                  [TreeNode (Some (leaf_item_descriptor C)) []])).
Proof.
  intros (root & Hroot & Hok & _) Hrf Hdepth0 Hdepth Hfuel HmaxP HmaxC
    HotherP HotherC Hparent Hb1 Hc1 Hp1 Hlookup Hp1' Hb2 Hp2 Hc2 HsearchQ
    HsearchP.
  do 5 (destruct fuel as [|fuel]; [lia|]). clear Hfuel.
  assert (Htree : is_Some (item_tree st)).
  { unfold item_tree_root_node in Hroot.
    destruct (item_tree st); [eauto|discriminate]. }
  assert (Hcall : forall k root',
            0 <= k <= 2 -> callable (set_root_node st root') (depth + k)).
  { intros k root' Hk. split; [simpl; eauto|]. split; [exact Hrf|lia]. }
  assert (Hcall0 : forall k, 0 <= k <= 2 -> callable st (depth + k)).
  { intros k Hk. split; [exact Htree|]. split; [exact Hrf|lia]. }
  pose proof HsearchQ as HgetQ. pose proof HsearchP as HgetP.
  unfold libpff_item_tree_get_tree_node_by_identifier in HgetQ, HgetP.
  rewrite Hroot in HgetQ, HgetP. rewrite Hparent in HgetP.
  destruct (read_ahead_placement st root q (leaf_item_descriptor P)
              (leaf_item_descriptor C) (index_value.parent_identifier P)
              Hroot Hok HgetQ HgetP)
    as (root2 & Hattach & Hcases).
  (* the parent, from the state at the start *)
  assert (HP1 : libpff_item_tree_create_node index1 (S (S fuel)) st p1'
                  (depth + 1 + 1)
                = Some (Ok (set_root_node st root2))).
  { rewrite (create_node_leaf_found index1 fuel st p1' P); auto.
    - rewrite HsearchQ, Hattach. reflexivity.
    - replace (depth + 1 + 1) with (depth + 2) by lia.
      apply Hcall0. lia.
    - rewrite HsearchQ. discriminate. }
  assert (HP2 : libpff_item_tree_create_node index2 (S (S (S (S fuel)))) st
                  p2 (depth + 1)
                = Some (Ok (set_root_node st root2))).
  { rewrite (create_node_leaf_found index2 (S (S fuel)) st p2 P); auto.
    - rewrite HsearchQ, Hattach. reflexivity.
    - apply Hcall0. lia.
    - rewrite HsearchQ. discriminate. }
  (* the child, with the parent read ahead *)
  assert (HC1 : libpff_item_tree_create_node index1 (S (S (S (S fuel)))) st
                  c1 (depth + 1)
                = Some
                    (attach_item_descriptor (set_root_node st root2)
                       (leaf_item_descriptor C)
                       (get_tree_node_by_identifier root2
                          (index_value.parent_identifier C) (Some None) 0))).
  { rewrite (create_node_leaf_read_ahead index1 (S (S fuel)) st c1 C
               (depth + 1) p1'); auto.
    - rewrite HP1. reflexivity.
    - apply Hcall0. lia. }
  (* the child, after the parent *)
  assert (HC2 : get_tree_node_by_identifier root2
                  (index_value.parent_identifier C) (Some None) 0 <> Ret0 ->
                libpff_item_tree_create_node index2 (S (S (S (S fuel))))
                  (set_root_node st root2) c2 (depth + 1)
                = Some
                    (attach_item_descriptor (set_root_node st root2)
                       (leaf_item_descriptor C)
                       (get_tree_node_by_identifier root2
                          (index_value.parent_identifier C) (Some None) 0))).
  { intros Hfound.
    rewrite (create_node_leaf_found index2 (S (S fuel))
               (set_root_node st root2) c2 C); auto.
    apply Hcall. lia. }
  rewrite (create_node_two_leaf_branch index1 _ st b1 c1 p1 depth Hb1)
    by (replace depth with (depth + 0) by lia; apply Hcall0; lia).
  rewrite (create_node_two_leaf_branch index2 _ st b2 p2 c2 depth Hb2)
    by (replace depth with (depth + 0) by lia; apply Hcall0; lia).
  rewrite HC1, HP2. rewrite Hparent in *.
  change (uint32_cast (index_value.identifier P))
    with (descriptor_identifier (leaf_item_descriptor P)) in *.
  destruct Hcases as [[Hlen Hsearch2]
                     |(Hlen & i & root3 & parent & Hsearch2 & Hattach2
                       & Hsearch3 & Hattach3 & Hat & Hi)].
  - rewrite HC2 by (rewrite Hsearch2; discriminate).
    rewrite Hsearch2. split; [reflexivity|]. intros Hq. lia.
  - rewrite HC2 by (rewrite Hsearch2; discriminate).
    rewrite Hsearch2, Hattach2.
    assert (HP3 : libpff_item_tree_create_node index1
                    (S (S (S (S fuel)))) (set_root_node st root3) p1
                    (depth + 1)
                  = Some (Ok (set_root_node st root3))).
    { rewrite (create_node_leaf_found index1 (S (S fuel))
                 (set_root_node st root3) p1 P); auto.
      - rewrite search_set_root_node, Hsearch3, Hattach3. reflexivity.
      - apply Hcall. lia.
      - rewrite search_set_root_node, Hsearch3. discriminate. }
    rewrite HP3. split; [reflexivity|]. intros _.
    exists (set_root_node st root3), root3, parent, i.
    repeat split; assumption || reflexivity.
Qed.

Lemma fresh_state_ok orphans root_folder :
  state_ok
    {| item_tree := Some {| root_node := Some synthetic_root |};
       orphan_node_list := orphans;
       root_folder_item_tree_node := root_folder |}.
Proof.
  exists synthetic_root. split; [reflexivity|].
  split; [apply tree_ok_leaf|reflexivity].
Qed.

Lemma index_leaf_readable (descriptors_index_root : index_node)
    identifier parent_identifier :
  readable_leaf (index_of descriptors_index_root)
    (index_leaf identifier parent_identifier)
    {| index_value.identifier := identifier;
       index_value.parent_identifier := parent_identifier;
       index_value.data_identifier := 0;
       index_value.local_descriptors_identifier := 0 |}.
Proof. split; [exists 0; reflexivity|]. repeat split. Qed.

(** ** Claim C8 *)



